(** * Phone verification core of the Gmail account creator

    A shallow embedding of
    - [src/apis/phone_manager.py]   (class [PhoneManager], the number reuse store),
    - [src/apis/sms_api.py]         (class [SMSAPI], the SMS activation client),
    - [src/automations/gmail_creator/phone_verify.py]
                                    (class [PhoneVerification], the orchestrator),
    - [src/automations/gmail_creator/core.py]
                                    (the phone step of [create_account]),
    together with the properties the specification states about them.

    Conventions of the embedding.
    - Python floats ([time.time()] readings, prices, balances) are exact
      rationals [Q]; Python ints are [Z].
    - A Python [dict] used as a record is a Rocq [Record]; a [dict] used as a
      map is a [gmap]; a [dict] iterated in insertion order is an association
      list; a [set] is a [gset].
    - Logging and [time.sleep] have no effect on the modelled state and are
      left out. *)

From Stdlib Require Import QArith Qround Lqa Sorted.
From stdpp Require Import base gmap sets list strings.

Local Open Scope string_scope.
Local Open Scope list_scope.
Local Open Scope Z_scope.

(** ** Shared helpers *)

(** [a < b] on floats, as a boolean. *)
Definition Qltb (a b : Q) : bool := negb (Qle_bool b a).

(** Python truthiness of a value that is either [None] or a [str]. *)
Definition truthy (o : option string) : bool :=
  match o with
  | Some s => negb (bool_decide (s = ""))
  | None => false
  end.

(** Python's [int(x)] on a float: truncation towards zero. *)
Definition py_int (q : Q) : Z :=
  if Qle_bool 0 q then Qfloor q else Qceiling q.

(** [list.sort(key=...)]: Python's sort is stable, so it is modelled by a
    stable insertion sort on the key. *)
Section StableSort.
Context {A K : Type} (leb : K -> K -> bool) (key : A -> K).

Fixpoint insert_by (x : A) (l : list A) : list A :=
  match l with
  | [] => [x]
  | y :: l' => if leb (key x) (key y) then x :: y :: l' else y :: insert_by x l'
  end.

Fixpoint sort_by (l : list A) : list A :=
  match l with
  | [] => []
  | x :: l' => insert_by x (sort_by l')
  end.

(** The order the sort establishes. *)
Definition key_le (x y : A) : Prop := leb (key x) (key y) = true.
End StableSort.

(** [enumerate(l, start=k)] *)
Fixpoint enumerate_from {A} (k : nat) (l : list A) : list (nat * A) :=
  match l with
  | [] => []
  | x :: l' => (k, x) :: enumerate_from (S k) l'
  end.

(** ** The number reuse store: [src/apis/phone_manager.py] *)

Module PhoneManager.

(** One record of the storage file (the dict built in [add_number]). *)
Record entry := Entry {
  phone_number : string;
  country_code : string;
  activation_id : string;
  first_used : Q;
  last_used : Q;
  services : list string;
  times_used : Z
}.

(** The [PhoneManager] object: [self.numbers], [self.reuse_window], and the
    storage file, of which the contents and the number of rewrites are
    kept. *)
Record t := Make {
  numbers : list entry;
  reuse_window : Q;
  storage_file : list entry;
  file_writes : nat
}.

Definition set_numbers (l : list entry) (pm : t) : t :=
  Make l (reuse_window pm) (storage_file pm) (file_writes pm).

(** [__init__]: [self.numbers = self._load_numbers()],
    [self.reuse_window = 30 * 60]. *)
Definition init (file : list entry) : t := Make file (30 * 60)%Q file 0.

(** [_save_numbers] rewrites the whole file with [self.numbers]. *)
Definition _save_numbers (pm : t) : t :=
  Make (numbers pm) (reuse_window pm) (numbers pm) (S (file_writes pm)).

(** The update applied to an existing entry by [add_number] and
    [mark_number_used]:
    [last_used = now; times_used += 1;
     if service not in services: services.append(service)]. *)
Definition touch (now : Q) (service : string) (n : entry) : entry :=
  Entry (phone_number n) (country_code n) (activation_id n)
        (first_used n) now
        (if bool_decide (service ∈ services n) then services n
         else services n ++ [service])
        (times_used n + 1).

(** [for number in self.numbers: if number["phone_number"] == phone_number:
    <update>; ...; return True]: the first match is updated in place;
    [None] when the loop ends without a match. *)
Fixpoint update_first (p : string) (f : entry -> entry) (l : list entry)
  : option (list entry) :=
  match l with
  | [] => None
  | n :: rest =>
      if bool_decide (phone_number n = p) then Some (f n :: rest)
      else cons n <$> update_first p f rest
  end.

(** [add_number(phone_number, country_code, activation_id, service)];
    [now] is the reading of [time.time()]. *)
Definition add_number (now : Q) (phone country aid : option string)
    (service : string) (pm : t) : bool * t :=
  if negb (truthy phone && truthy country && truthy aid) then (false, pm)
  else
    let p := default "" phone in
    match update_first p (touch now service) (numbers pm) with
    | Some l => (true, _save_numbers (set_numbers l pm))
    | None =>
        let new_number :=
          Entry p (default "" country) (default "" aid) now now [service] 1 in
        (true, _save_numbers (set_numbers (numbers pm ++ [new_number]) pm))
    end.

(** [_cleanup_expired_numbers]; [now] is its own reading of [time.time()]. *)
Definition _cleanup_expired_numbers (now : Q) (pm : t) : t :=
  _save_numbers
    (set_numbers
       (List.filter (fun n => Qltb (now - first_used n) (reuse_window pm))
                    (numbers pm))
       pm).

(** The filter of [get_reusable_number]'s loop. *)
Definition is_valid (now : Q) (window : Q) (service : string) (n : entry) : bool :=
  Qltb (now - last_used n) window && negb (bool_decide (service ∈ services n)).

(** The update of the selected entry:
    [last_used = now; times_used += 1; services.append(service)]. *)
Definition checkout (now : Q) (service : string) (n : entry) : entry :=
  Entry (phone_number n) (country_code n) (activation_id n)
        (first_used n) now (services n ++ [service]) (times_used n + 1).

(** [valid_numbers], each entry with its position in [self.numbers]: the
    list holds references to the store's dicts, and the selected one is
    mutated in place. *)
Definition valid_numbers (now : Q) (service : string) (pm : t)
  : list (nat * entry) :=
  List.filter (fun p => is_valid now (reuse_window pm) service p.2)
              (enumerate_from 0 (numbers pm)).

(** [get_reusable_number(service)]. [now] is the reading of [time.time()]
    at the top of the function, [now_cleanup] the later reading taken inside
    [_cleanup_expired_numbers]. *)
Definition get_reusable_number (now now_cleanup : Q) (service : string)
    (pm : t) : option entry * t :=
  let pm1 := _cleanup_expired_numbers now_cleanup pm in
  let valid := sort_by Z.leb (fun p => times_used p.2)
                       (valid_numbers now service pm1) in
  match valid with
  | (i, selected) :: _ =>
      let selected' := checkout now service selected in
      (Some selected',
       _save_numbers (set_numbers (<[i := selected']> (numbers pm1)) pm1))
  | [] => (None, pm1)
  end.

(** [mark_number_used(phone_number, service)] *)
Definition mark_number_used (now : Q) (p : string) (service : string)
    (pm : t) : bool * t :=
  match update_first p (touch now service) (numbers pm) with
  | Some l => (true, _save_numbers (set_numbers l pm))
  | None => (false, pm)
  end.

(** [for i, number in enumerate(self.numbers): if ... : del self.numbers[i]] *)
Fixpoint delete_first (p : string) (l : list entry) : option (list entry) :=
  match l with
  | [] => None
  | n :: rest =>
      if bool_decide (phone_number n = p) then Some rest
      else cons n <$> delete_first p rest
  end.

(** [remove_number(phone_number)] *)
Definition remove_number (p : string) (pm : t) : bool * t :=
  match delete_first p (numbers pm) with
  | Some l => (true, _save_numbers (set_numbers l pm))
  | None => (false, pm)
  end.

(** An entry's timestamps are in order and not later than the clock. *)
Definition timestamps_ok (now : Q) (n : entry) : Prop :=
  (first_used n <= last_used n)%Q /\ (last_used n <= now)%Q.

(** What [get_reusable_number] requires of an entry it may hand out, on top
    of having survived the cleanup. *)
Definition eligible (now : Q) (service : string) (pm : t) (n : entry) : Prop :=
  (now - last_used n < reuse_window pm)%Q /\ service ∉ services n.

End PhoneManager.

(** ** The orchestrator: [src/automations/gmail_creator/phone_verify.py] *)

Inductive VerificationState :=
| INITIAL | NUMBER_REQUESTED | NUMBER_RECEIVED | NUMBER_SUBMITTED | WAITING_SMS
| SMS_RECEIVED | RESENDING_SMS | FAILED_SMS | COMPLETED | FAILED.

#[global] Instance VerificationState_eq_dec : EqDecision VerificationState.
Proof. solve_decision. Defined.

Module ActivationInfo.
(** The dataclass [ActivationInfo]. *)
Record t := Make {
  activation_id : string;
  phone_number : string;
  country_code : string;
  start_time : Q;
  state : VerificationState;
  attempts : Z;
  max_lifetime : Z
}.
End ActivationInfo.

(** Exceptions: selenium's [TimeoutException], which some handlers single
    out, and any other [Exception]. *)
Inductive exn := TimeoutException | OtherException.

(** One entry of the table returned by [get_prices]:
    [{"cost": ..., "count": ...}]. *)
Record price_info := PriceInfo { cost : Q; count : Z }.

(** What a [getStatus] request of [get_sms_code] comes back with. *)
Inductive poll_response :=
| STATUS_OK (code : string)   (* 'STATUS_OK:<code>' *)
| STATUS_CANCEL               (* 'STATUS_CANCEL' *)
| STATUS_WAIT.                (* anything else, failed requests included *)

(** What the outside world can answer to one request. A request reads the
    component it needs: [a_exn] tells whether a driver call raises, the other
    fields are the values returned by the driver, the clock and the remote
    SMS service. *)
Record answer := Answer {
  a_exn : option exn;
  a_bool : bool;
  a_str : string;
  a_time : Q;
  a_balance : option Q;
  a_count : Z;
  a_prices : option (gmap string (gmap string price_info));
  a_buy : option (string * string);
  a_poll : poll_response
}.

(** The observable calls of one run, in the order they happen. *)
Inductive event :=
| EvBuy (country : string) (result : option (string * string))
    (* [sms_api.buy_number("go", country)] and what it returned *)
| EvSetStatus (aid : string) (status : Z)
    (* [sms_api.set_status(aid, status)] *)
| EvExclude (country : string).
    (* [self.used_countries.add(country)] *)

#[global] Instance event_eq_dec : EqDecision event.
Proof. solve_decision. Defined.

(** The [PhoneVerification] object, the number of requests made to the
    outside world so far, and the log of observable calls. *)
Record obj := Obj {
  current_activation : option ActivationInfo.t;
  used_countries : gset string;
  state : VerificationState;
  _available_numbers : list (string * (Z * string));
  phone_number : option string;
  phone_manager : option PhoneManager.t;
  tick : nat;
  log : list event
}.

Definition set_current_activation (v : option ActivationInfo.t) (s : obj) : obj :=
  Obj v (used_countries s) (state s) (_available_numbers s) (phone_number s)
      (phone_manager s) (tick s) (log s).
Definition set_used_countries (v : gset string) (s : obj) : obj :=
  Obj (current_activation s) v (state s) (_available_numbers s) (phone_number s)
      (phone_manager s) (tick s) (log s).
Definition set_state (v : VerificationState) (s : obj) : obj :=
  Obj (current_activation s) (used_countries s) v (_available_numbers s)
      (phone_number s) (phone_manager s) (tick s) (log s).
Definition set_available_numbers (v : list (string * (Z * string))) (s : obj) : obj :=
  Obj (current_activation s) (used_countries s) (state s) v (phone_number s)
      (phone_manager s) (tick s) (log s).
Definition set_phone_number (v : option string) (s : obj) : obj :=
  Obj (current_activation s) (used_countries s) (state s) (_available_numbers s)
      v (phone_manager s) (tick s) (log s).
Definition set_phone_manager (v : option PhoneManager.t) (s : obj) : obj :=
  Obj (current_activation s) (used_countries s) (state s) (_available_numbers s)
      (phone_number s) v (tick s) (log s).
Definition bump (s : obj) : obj :=
  Obj (current_activation s) (used_countries s) (state s) (_available_numbers s)
      (phone_number s) (phone_manager s) (S (tick s)) (log s).
Definition add_event (e : event) (s : obj) : obj :=
  Obj (current_activation s) (used_countries s) (state s) (_available_numbers s)
      (phone_number s) (phone_manager s) (tick s) (log s ++ [e]).

(** [PhoneVerification.__init__]; [core.py] may attach a phone manager
    afterwards. *)
Definition init (pm : option PhoneManager.t) : obj :=
  Obj None ∅ INITIAL [] None pm 0 [].

(** *** The monad of the embedding: state and exceptions *)

Inductive res (A : Type) := Ret (a : A) | Exc (e : exn).
Arguments Ret {A} a.
Arguments Exc {A} e.

Definition M (A : Type) : Type := obj -> res A * obj.

Definition ret {A} (a : A) : M A := fun s => (Ret a, s).
Definition raise {A} (e : exn) : M A := fun s => (Exc e, s).
Definition bind {A B} (m : M A) (k : A -> M B) : M B :=
  fun s => match m s with
           | (Ret a, s') => k a s'
           | (Exc e, s') => (Exc e, s')
           end.

Notation "x <- m ;; k" := (bind m (fun x => k))
  (at level 20, m at level 99, k at level 200, only parsing).

(** [try: m  except Exception as e: h e] *)
Definition try_catch {A} (m : M A) (h : exn -> M A) : M A :=
  fun s => match m s with
           | (Ret a, s') => (Ret a, s')
           | (Exc e, s') => h e s'
           end.

(** [try: m  except TimeoutException: h] *)
Definition try_timeout {A} (m : M A) (h : M A) : M A :=
  try_catch m (fun e => match e with
                        | TimeoutException => h
                        | OtherException => raise e
                        end).

(** [try: m  finally: f] *)
Definition try_finally {A} (m : M A) (f : M unit) : M A :=
  fun s => match m s with
           | (r, s') => match f s' with
                        | (Ret _, s'') => (r, s'')
                        | (Exc e, s'') => (Exc e, s'')
                        end
           end.

Definition gets {A} (f : obj -> A) : M A := fun s => (Ret (f s), s).
Definition modify (f : obj -> obj) : M unit := fun s => (Ret tt, f s).
Definition emit (e : event) : M unit := modify (add_event e).

(** How one pass through a loop body ends: falling through or [continue],
    [break], or [return r] from the enclosing function. *)
Inductive ctl (R : Type) := Next | Break | Return (r : R).
Arguments Next {R}.
Arguments Break {R}.
Arguments Return {R} r.

(** [for x in l: body x]; the result is [Some r] when the body returned [r]
    from the enclosing function, [None] when the loop was left otherwise. *)
Fixpoint for_loop {A R} (l : list A) (body : A -> M (ctl R)) : M (option R) :=
  match l with
  | [] => ret None
  | x :: l' =>
      c <- body x;;
      match c with
      | Next => for_loop l' body
      | Break => ret None
      | Return r => ret (Some r)
      end
  end.

Section Orchestrator.

(** The outside world: the answer to the [k]-th request of the run. The
    program is deterministic, so its [k]-th request is fixed by the answers
    before it, and a world that reacts to what it is asked is covered by
    the function listing its answers. *)
Variable oracle : nat -> answer.

(** [sms_api.selected_countries]: country code and name, in the dict's
    insertion order. *)
Variable selected_countries : list (string * string).

(** A request that cannot raise (clock, SMS client). *)
Definition ask {A} (f : answer -> A) : M A :=
  fun s => (Ret (f (oracle (tick s))), bump s).

(** A call into the selenium driver: it raises when the world says so. *)
Definition drv {A} (f : answer -> A) : M A :=
  fun s => (match a_exn (oracle (tick s)) with
            | Some e => Exc e
            | None => Ret (f (oracle (tick s)))
            end, bump s).

(** [time.time()] *)
Definition time_time : M Q := ask a_time.

(** Driver calls. Which element they address does not matter here. *)
Definition wait_until : M unit := drv (fun _ => tt).      (* WebDriverWait(..).until(..) *)
Definition execute_script : M unit := drv (fun _ => tt).  (* driver.execute_script(..) *)
Definition find_element : M unit := drv (fun _ => tt).    (* driver.find_element(..) *)
Definition click : M unit := drv (fun _ => tt).           (* element.click() and ActionChains *)
Definition clear : M unit := drv (fun _ => tt).           (* element.clear() *)
Definition driver_get : M unit := drv (fun _ => tt).      (* driver.get(url) *)
Definition refresh : M unit := drv (fun _ => tt).         (* driver.refresh() *)
Definition current_url : M string := drv a_str.           (* driver.current_url *)
Definition element_text : M string := drv a_str.          (* element.text *)
Definition is_displayed : M bool := drv a_bool.           (* element.is_displayed() *)
Definition is_enabled : M bool := drv a_bool.             (* element.is_enabled() *)

(** *** [src/apis/sms_api.py]

    Every method of [SMSAPI] wraps its request in [try/except] and returns a
    value, so these calls do not raise. [get_balance], [get_number_status],
    [get_prices] and [buy_number] are taken at the level of what they
    return; [set_status] and [get_sms_code] follow the source. *)

Definition get_balance : M (option Q) := ask a_balance.

Definition get_number_status (country service : string) : M Z := ask a_count.

Definition get_prices (service : string)
  : M (option (gmap string (gmap string price_info))) := ask a_prices.

(** [(activation_id, phone_number)] or [(None, None)] *)
Definition buy_number (service country : string) : M (option (string * string)) :=
  r <- ask a_buy;;
  _ <- emit (EvBuy country r);;
  ret r.

Definition set_status (aid : string) (status : Z) : M bool :=
  _ <- emit (EvSetStatus aid status);;
  ask a_bool.

(** The polling loop of [get_sms_code], [n] requests left. *)
Fixpoint poll_sms (aid : string) (n : nat) : M (option string) :=
  match n with
  | O =>
      _ <- set_status aid 6;;       (* Cancelar ativação *)
      ret None
  | S n' =>
      r <- ask a_poll;;
      match r with
      | STATUS_OK code =>
          _ <- set_status aid 3;;
          ret (Some code)
      | STATUS_CANCEL => ret None
      | STATUS_WAIT => poll_sms aid n'
      end
  end.

Definition get_sms_code (aid : string) (max_attempts interval : Z)
  : M (option string) :=
  poll_sms aid (Z.to_nat max_attempts).

(** *** [PhoneVerification] *)

Definition MAX_PHONE_ATTEMPTS : nat := 3.

(** [self.used_countries.add(c)] *)
Definition exclude (c : string) : M unit :=
  _ <- modify (fun s => set_used_countries ({[c]} ∪ used_countries s) s);;
  emit (EvExclude c).

Definition _check_phone_screen : M bool :=
  try_timeout (_ <- wait_until;; ret true) (ret false).

Definition _element_exists : M bool :=
  try_catch (_ <- wait_until;; ret true) (fun _ => ret false).

(** The button loop of [_ensure_phone_verification_screen]. *)
Definition try_next_button (button_xpath : string) : M (ctl bool) :=
  try_catch
    (found <- _element_exists;;
     if found then
       _ <- find_element;;
       _ <- click;;
       ok <- _check_phone_screen;;
       if ok then ret (Return true) else ret Next
     else ret Next)
    (fun _ => ret Next).

Definition ensure_screen_attempt (attempt : Z) : M (ctl bool) :=
  try_catch
    (ok <- _check_phone_screen;;
     if ok then ret (Return true) else
     _ <- current_url;;
     _ <- driver_get;;
     ok <- _check_phone_screen;;
     if ok then ret (Return true) else
     r <- for_loop ["//span[contains(text(),'Next')]";
                    "//span[contains(text(),'Continue')]";
                    "//button[contains(@class, 'VfPpkd-LgbsSe')]"]
                   try_next_button;;
     match r with
     | Some b => ret (Return b)
     | None => ret Next
     end)
    (fun _ => ret Next).

Definition _ensure_phone_verification_screen (max_attempts : nat) : M bool :=
  r <- for_loop (Z.of_nat <$> seq 0 max_attempts) ensure_screen_attempt;;
  match r with
  | Some b => ret b
  | None => ret false
  end.

(** The loop of [_check_number_availability] over
    [selected_countries.items()], building [available_numbers]. *)
Fixpoint availability_loop (cs : list (string * string))
    (available_numbers : list (string * (Z * string)))
  : M (list (string * (Z * string))) :=
  match cs with
  | [] => ret available_numbers
  | (country_code, country_name) :: cs' =>
      used <- gets used_countries;;
      if bool_decide (country_code ∈ used) then
        availability_loop cs' available_numbers
      else
        available_count <- get_number_status country_code "go";;
        if (0 <? available_count)%Z then
          availability_loop cs'
            (available_numbers ++ [(country_code, (available_count, country_name))])
        else availability_loop cs' available_numbers
  end.

Definition _check_number_availability : M bool :=
  try_catch
    (available_numbers <- availability_loop selected_countries [];;
     match available_numbers with
     | [] => ret false
     | _ =>
         _ <- modify (set_available_numbers available_numbers);;
         ret true
     end)
    (fun _ => ret false).

Definition _validate_initial_conditions : M bool :=
  try_catch
    (balance <- get_balance;;
     match balance with
     | None => ret false
     | Some b =>
         if Qle_bool b 0 then ret false else
         ok <- _check_number_availability;;
         if negb ok then ret false else ret true
     end)
    (fun _ => ret false).

(** [filtered_prices] of [_get_new_number], before sorting: the allowed
    countries not in [used_countries] that the price table lists for "go",
    with their price. *)
Definition filtered_prices (used : gset string)
    (prices : gmap string (gmap string price_info)) : list (string * Q) :=
  omap (fun country =>
          match prices !! country with
          | Some services =>
              match services !! "go" with
              | Some info => Some (country, cost info)
              | None => None
              end
          | None => None
          end)
       (List.filter (fun code => negb (bool_decide (code ∈ used)))
                    (selected_countries.*1)).

(** [filtered_prices.sort(key=lambda x: x['price'])] *)
Definition sorted_prices (used : gset string)
    (prices : gmap string (gmap string price_info)) : list (string * Q) :=
  sort_by Qle_bool snd (filtered_prices used prices).

(** The purchase loop of [_get_new_number] over the sorted countries. *)
Fixpoint buy_loop (countries : list (string * Q)) : M (option ActivationInfo.t) :=
  match countries with
  | [] => ret None
  | (country_code, _) :: rest =>
      r <- buy_number "go" country_code;;
      if truthy (snd <$> r) then
        _ <- modify (set_phone_number (snd <$> r));;
        now <- time_time;;
        ret (Some (ActivationInfo.Make (default "" (fst <$> r))
                                       (default "" (snd <$> r))
                                       country_code now NUMBER_RECEIVED 0 1200))
      else
        _ <- exclude country_code;;
        buy_loop rest
  end.

Definition _get_new_number : M (option ActivationInfo.t) :=
  try_catch
    (used <- gets used_countries;;
     let available_countries :=
       List.filter (fun code => negb (bool_decide (code ∈ used)))
                   (selected_countries.*1) in
     match available_countries with
     | [] => ret None
     | _ =>
         prices <- get_prices "go";;
         match prices with
         | None => ret None
         | Some prices =>
             if bool_decide (prices = ∅) then ret None else
             match sorted_prices used prices with
             | [] => ret None
             | countries => buy_loop countries
             end
         end
     end)
    (fun _ => ret None).

Definition _cancel_number : M unit :=
  act <- gets current_activation;;
  match act with
  | None => ret tt
  | Some a =>
      try_catch
        (st <- gets state;;
         if bool_decide (st = COMPLETED) then ret tt else
         _ <- set_status (ActivationInfo.activation_id a) 6;;
         _ <- exclude (ActivationInfo.country_code a);;
         modify (set_current_activation None))
        (fun _ => modify (set_current_activation None))
  end.

Definition _ensure_final_cleanup : M unit :=
  act <- gets current_activation;;
  match act with
  | None => ret tt
  | Some _ => _cancel_number
  end.

Definition _cancel_current_number : M unit :=
  act <- gets current_activation;;
  match act with
  | None => ret tt
  | Some a =>
      _ <- exclude (ActivationInfo.country_code a);;
      _ <- try_catch (_ <- set_status (ActivationInfo.activation_id a) 6;; ret tt)
                     (fun _ => ret tt);;
      modify (set_current_activation None)
  end.

(** The retry loop of [_submit_phone_number] that locates the phone field:
    [Some false] when the function gives up. *)
Definition locate_phone_input : M (option bool) :=
  for_loop [0; 1; 2]%Z
    (fun attempt =>
       try_timeout (_ <- wait_until;; ret Break)
                   (if (attempt =? 2)%Z then ret (Return false) else ret Next)).

(** One pass of the loop over [formats_to_try]. *)
Definition try_format (phone_format : string) : M (ctl bool) :=
  try_catch
    (_ <- execute_script;;
     _ <- execute_script;;
     clicked <- try_catch (_ <- wait_until;; _ <- execute_script;; ret true)
                          (fun _ => ret false);;
     if negb clicked then ret Next else
     accepted <- try_timeout (_ <- wait_until;; is_displayed) (ret false);;
     if accepted then ret (Return true) else
     rejected <- try_catch
                   (found <- _element_exists;;
                    if found then
                      _ <- find_element;;
                      _ <- element_text;;
                      ret true
                    else ret false)
                   (fun _ => ret false);;
     if rejected then ret Next else
     still_there <- _element_exists;;
     if still_there then ret Next else
     _ <- current_url;;
     ret (Return true))
    (fun _ => ret Next).

Definition _submit_phone_number : M bool :=
  try_catch
    (act <- gets current_activation;;
     match act with
     | None => ret false
     | Some a =>
         _ <- wait_until;;
         r <- locate_phone_input;;
         match r with
         | Some b => ret b
         | None =>
             _ <- execute_script;;
             let formats_to_try :=
               [ActivationInfo.phone_number a;
                "+" +:+ ActivationInfo.country_code a +:+ ActivationInfo.phone_number a] in
             r <- for_loop formats_to_try try_format;;
             match r with
             | Some b => ret b
             | None =>
                 _ <- _cancel_number;;
                 ret false
             end
         end
     end)
    (fun _ => ret false).

(** *** [_handle_sms_verification] *)

(** The three click strategies tried on one resend button: [true] when one
    of them went through ([button_clicked = True; break]). *)
Definition click_strategies : M bool :=
  r <- for_loop [0; 1; 2]%Z
         (fun click_attempt : Z =>
            try_catch
              (_ <- (if (click_attempt =? 0)%Z then click
                     else if (click_attempt =? 1)%Z then execute_script
                     else click);;
               ret (Return true))
              (fun _ => ret Next));;
  ret (default false r).

(** One pass of the loop over [get_new_code_buttons]. *)
Definition try_resend_button (button_xpath : string) : M (ctl bool) :=
  try_catch
    (_ <- wait_until;;
     displayed <- is_displayed;;
     if negb displayed then ret Next else
     enabled <- is_enabled;;
     if negb enabled then ret Next else
     _ <- execute_script;;
     button_clicked <- click_strategies;;
     if button_clicked then ret (Return true) else ret Next)
    (fun _ => ret Next).

Definition get_new_code_buttons : list string :=
  ["GET_NEW_CODE_BUTTON_ALT";
   "//button[contains(., 'Get a new code')]";
   "//button[contains(text(), 'Get a new code')]";
   "//div[contains(@class, 'VfPpkd-RLmnJb')]//span[contains(text(), 'Get a new code')]/ancestor::button";
   "//span[text()='Get a new code']/parent::button";
   "//button[contains(@class, 'VfPpkd-LgbsSe') and contains(., 'new code')]"].

(** How one pass of the resend loop ends: [break], or on to the next test
    of the loop condition with the current [sms_code]. *)
Inductive resend_ctl := ResendBreak | ResendNext (sms_code : option string).

Definition sms_global_timeout : Q := 180.

(** The body of the [while] loop, after [resent_attempt += 1]. *)
Definition resend_iteration (activation_id : string) (sms_process_start : Q)
    (resent_attempt : Z) (sms_code : option string) : M resend_ctl :=
  now <- time_time;;
  let remaining_time := (sms_global_timeout - (now - sms_process_start))%Q in
  if Qltb remaining_time 30 then ret ResendBreak else
  now <- time_time;;
  if Qle_bool sms_global_timeout (now - sms_process_start) then ret ResendBreak else
  r <- for_loop get_new_code_buttons try_resend_button;;
  let button_clicked := default false r in
  now <- time_time;;
  if Qle_bool sms_global_timeout (now - sms_process_start) then ret ResendBreak else
  if negb button_clicked then
    if (resent_attempt =? 1)%Z then
      try_catch (_ <- refresh;; ret (ResendNext sms_code))
                (fun _ => ret (ResendNext sms_code))
    else ret (ResendNext sms_code)
  else
    now <- time_time;;
    if Qle_bool sms_global_timeout (now - sms_process_start) then ret ResendBreak else
    resubmit_failed <-
      try_catch
        (on_phone_screen <- _element_exists;;
         if on_phone_screen then
           ok <- _submit_phone_number;;
           ret (negb ok)
         else
           _ <- _element_exists;;
           ret false)
        (fun _ => ret false);;
    if resubmit_failed then ret (ResendNext sms_code) else
    now <- time_time;;
    let remaining_time := (sms_global_timeout - (now - sms_process_start))%Q in
    if Qltb remaining_time 30 then ret ResendBreak else
    let max_sms_attempts := Z.max 1 (Z.min 6 (py_int (remaining_time / 15))) in
    sms_code <- get_sms_code activation_id max_sms_attempts 10;;
    ret (ResendNext sms_code).

(** The [while] loop; [left] is [max_resent_attempts - resent_attempt], so
    that [left = 0] is the test [resent_attempt < max_resent_attempts]
    failing. The clock is read only when the first two conjuncts hold. *)
Fixpoint resend_loop (left : nat) (activation_id : string)
    (sms_process_start : Q) (resent_attempt : Z) (sms_code : option string)
  : M (option string) :=
  match left with
  | O => ret sms_code
  | S left' =>
      if truthy sms_code then ret sms_code else
      now <- time_time;;
      if negb (Qltb (now - sms_process_start) sms_global_timeout)
      then ret sms_code else
      let resent_attempt := (resent_attempt + 1)%Z in
      c <- resend_iteration activation_id sms_process_start resent_attempt sms_code;;
      match c with
      | ResendBreak => ret sms_code
      | ResendNext sms_code =>
          resend_loop left' activation_id sms_process_start resent_attempt sms_code
      end
  end.

(** Locating the code field: three tries, the third failure is re-raised. *)
Definition locate_code_input : M unit :=
  _ <- for_loop [0; 1; 2]%Z
         (fun attempt : Z =>
            try_catch (_ <- wait_until;; ret (@Break unit))
                      (fun e => if (attempt =? 2)%Z then raise e else ret Next));;
  ret tt.

Definition error_messages : list string :=
  ["Wrong code. Try again."; "Code is incorrect"; "That code didn't work"].

(** [sub in s] on strings *)
Definition str_in (sub s : string) : bool :=
  match String.index 0 sub s with
  | Some _ => true
  | None => false
  end.

(** One pass of the loop over [error_messages]. *)
Definition check_error_message (error_msg : string) : M (ctl bool) :=
  try_catch
    (found <- _element_exists;;
     if found then
       _ <- _cancel_current_number;;
       ret (Return false)
     else if str_in "didn't work" error_msg then
       found <- _element_exists;;
       if found then
         _ <- _cancel_current_number;;
         ret (Return false)
       else ret Next
     else ret Next)
    (fun _ => ret Next).

(** Storing the number after a successful verification. With no activation
    held, [self.current_activation.country_code] raises and the enclosing
    [try] swallows it. [add_number] reads the clock only after its check of
    the three data fields. *)
Definition store_number : M unit :=
  try_catch
    (pm <- gets phone_manager;;
     match pm with
     | None => ret tt
     | Some pm =>
         act <- gets current_activation;;
         match act with
         | None => raise OtherException
         | Some a =>
             phone <- gets phone_number;;
             let country := Some (ActivationInfo.country_code a) in
             let aid := Some (ActivationInfo.activation_id a) in
             now <- (if truthy phone && truthy country && truthy aid
                     then time_time else ret 0%Q);;
             modify (set_phone_manager
                       (Some (PhoneManager.add_number now phone country aid "gmail" pm).2))
         end
     end)
    (fun _ => ret tt).

(** The end of the success path: status 8, COMPLETED, store, [return True]. *)
Definition confirm_success (activation_id : string) : M bool :=
  _ <- try_catch (_ <- set_status activation_id 8;; ret tt) (fun _ => ret tt);;
  _ <- modify (set_state COMPLETED);;
  _ <- store_number;;
  ret true.

(** Entering the received code, from locating the code field on. *)
Definition enter_code (activation_id : string) (sms_code : string) : M bool :=
  _ <- locate_code_input;;
  _ <- clear;;
  _ <- execute_script;;
  _ <- wait_until;;
  _ <- execute_script;;
  _ <- try_catch click (fun _ => execute_script);;
  r <- for_loop error_messages check_error_message;;
  match r with
  | Some b => ret b
  | None => confirm_success activation_id
  end.

Definition _handle_sms_verification : M bool :=
  try_catch
    (act <- gets current_activation;;
     match act with
     | None => ret false
     | Some a =>
         _ <- modify (set_state WAITING_SMS);;
         let activation_id := ActivationInfo.activation_id a in
         sms_process_start <- time_time;;
         sms_code <- get_sms_code activation_id 6 10;;
         sms_code <- resend_loop 2 activation_id sms_process_start 0 sms_code;;
         if negb (truthy sms_code) then
           _ <- time_time;;
           _ <- _cancel_current_number;;
           ret false
         else
           now <- time_time;;
           let remaining_time := (sms_global_timeout - (now - sms_process_start))%Q in
           if Qltb remaining_time 10 then
             _ <- _cancel_current_number;;
             ret false
           else
             try_catch (enter_code activation_id (default "" sms_code))
                       (fun _ => _ <- _cancel_current_number;; ret false)
     end)
    (fun _ => _ <- _cancel_current_number;; ret false).

Definition _try_verification_cycle : M bool :=
  r <- try_catch
         (used <- gets used_countries;;
          _ <- (if bool_decide (used = ∅) then ret tt
                else
                  _ <- refresh;;
                  _ <- _check_phone_screen;;
                  ret tt);;
          act <- _get_new_number;;
          _ <- modify (set_current_activation act);;
          match act with
          | None => ret (Some false)
          | Some _ =>
              ok <- _submit_phone_number;;
              if negb ok then ret (Some false) else
              ok <- _handle_sms_verification;;
              if negb ok then ret (Some false) else
              ret (Some true)
          end)
         (fun _ => _ <- _cancel_number;; ret None);;
  ret (default false r).

(** The [while attempt_count < MAX_PHONE_ATTEMPTS] loop; [left] is
    [MAX_PHONE_ATTEMPTS - attempt_count]. The result is [success]. *)
Fixpoint attempts_loop (left : nat) (attempt_count : nat) : M bool :=
  match left with
  | O => ret false
  | S left' =>
      let attempt_count := S attempt_count in
      on_screen <- (if bool_decide (1 < attempt_count)%nat
                    then _ensure_phone_verification_screen 2
                    else ret true);;
      if negb on_screen then attempts_loop left' attempt_count else
      ok <- try_catch _try_verification_cycle (fun _ => ret false);;
      if ok then ret true else attempts_loop left' attempt_count
  end.

Definition handle_verification : M bool :=
  try_finally
    (try_catch
       (present <- _check_phone_screen;;
        if negb present then ret true else
        valid <- _validate_initial_conditions;;
        if negb valid then ret false else
        success <- attempts_loop MAX_PHONE_ATTEMPTS 0;;
        if negb success then ret false else ret success)
       (fun _ =>
          st <- gets state;;
          _ <- (if bool_decide (st ≠ COMPLETED) then _cancel_current_number
                else ret tt);;
          ret false))
    _ensure_final_cleanup.

End Orchestrator.

(** ** Price comparison: more of [src/apis/sms_api.py] *)

Module SMSAPI.

(** One row of the list built by [compare_prices_in_selected_countries]. *)
Record price_row := PriceRow {
  country_code : string;
  country_name : string;
  price : Q;
  available : Z
}.

(** [price < lowest_price]. The pair [(cheapest_country, lowest_price)] is
    [best]; [None] is its initial value [(None, float('inf'))], below which
    every price lies. *)
Definition cheaper (price : Q) (best : option (string * Q)) : bool :=
  match best with
  | Some (_, lowest_price) => Qltb price lowest_price
  | None => true
  end.

(** The loop of [get_cheapest_country] over [selected_countries.keys()]. *)
Fixpoint cheapest_loop (codes : list string)
    (prices : gmap string (gmap string price_info)) (service : string)
    (best : option (string * Q)) : option (string * Q) :=
  match codes with
  | [] => best
  | country_code :: codes' =>
      let best' :=
        match prices !! country_code with
        | Some services =>
            match services !! service with
            | Some info =>
                if cheaper (cost info) best && (0 <? count info)%Z
                then Some (country_code, cost info)
                else best
            | None => best
            end
        | None => best
        end in
      cheapest_loop codes' prices service best'
  end.

(** The loop of [compare_prices_in_selected_countries] over
    [selected_countries.items()], appending to [service_prices]. *)
Fixpoint service_prices_loop (cs : list (string * string))
    (all_prices : gmap string (gmap string price_info)) (service : string)
    (service_prices : list price_row) : list price_row :=
  match cs with
  | [] => service_prices
  | (code, name) :: cs' =>
      match all_prices !! code with
      | Some services =>
          match services !! service with
          | Some info =>
              service_prices_loop cs' all_prices service
                (service_prices ++ [PriceRow code name (cost info) (count info)])
          | None => service_prices_loop cs' all_prices service service_prices
          end
      | None => service_prices_loop cs' all_prices service service_prices
      end
  end.

Section Prices.
Variable oracle : nat -> answer.
Variable selected_countries : list (string * string).

(** [get_cheapest_country(service)]: [(country, price)], or [None] for
    [(None, None)]. The table comes from [self.get_prices()]. *)
Definition get_cheapest_country (service : string) : M (option (string * Q)) :=
  prices <- ask oracle a_prices;;
  match prices with
  | None => ret None
  | Some prices =>
      if bool_decide (prices = ∅) then ret None else
      match cheapest_loop (selected_countries.*1) prices service None with
      | Some (cheapest_country, lowest_price) =>
          if truthy (Some cheapest_country)
          then ret (Some (cheapest_country, lowest_price))
          else ret None
      | None => ret None
      end
  end.

(** [compare_prices_in_selected_countries(service)] *)
Definition compare_prices_in_selected_countries (service : string)
  : M (list price_row) :=
  try_catch
    (all_prices <- ask oracle a_prices;;
     match all_prices with
     | None => ret []
     | Some all_prices =>
         if bool_decide (all_prices = ∅) then ret [] else
         ret (sort_by Qle_bool price
                (service_prices_loop selected_countries all_prices service []))
     end)
    (fun _ => ret []).

End Prices.
End SMSAPI.

(** ** The caller: the phone step of [GmailCreator.create_account]
    ([src/automations/gmail_creator/core.py]) *)

(** The dict returned by [get_current_phone_data] and built by
    [create_account] when the phone step is absent. *)
Module PhoneData.
Record t := Make {
  phone_number : option string;
  country_code : option string;
  activation_id : option string;
  country_name : string
}.
End PhoneData.

(** The argument [phone_params] of [create_account], read with [.get]. *)
Module PhoneParams.
Record t := Make {
  reuse_number : bool;
  phone_number : option string;
  activation_id : option string;
  country_code : option string
}.
End PhoneParams.

(** [d.get(k, default)] on a dict listed in insertion order. *)
Fixpoint dict_get (d : list (string * string)) (k default : string) : string :=
  match d with
  | [] => default
  | (k', v) :: d' => if bool_decide (k' = k) then v else dict_get d' k default
  end.

(** [GmailCreationError], an [Exception] like any other for the handlers
    of [create_account]. *)
Definition GmailCreationError : exn := OtherException.

Section Caller.
Variable oracle : nat -> answer.
Variable selected_countries : list (string * string).

(** [PhoneVerification.get_current_phone_data] *)
Definition get_current_phone_data : M (option PhoneData.t) :=
  act <- gets current_activation;;
  match act with
  | Some a =>
      ret (Some (PhoneData.Make
                   (Some (ActivationInfo.phone_number a))
                   (Some (ActivationInfo.country_code a))
                   (Some (ActivationInfo.activation_id a))
                   (dict_get selected_countries (ActivationInfo.country_code a)
                             "unknown")))
  | None => ret None
  end.

(** Step 2 of [create_account] (lines 102 to 159): a new [PhoneVerification]
    object, to which the creator's phone manager is attached when it has
    one, then the verification and the data of the phone in use. The
    fields [reuse_number] and [predefined_*] that the caller sets from
    [phone_params] are not read anywhere in [phone_verify.py] and are not
    kept. A raised exception makes [create_account] return
    [(False, None)]. *)
Definition create_account_phone_step (phone_manager_attr : option PhoneManager.t)
    (phone_params : option PhoneParams.t) : M PhoneData.t :=
  _ <- modify (fun s => Obj None ∅ INITIAL [] None phone_manager_attr
                            (tick s) (log s));;
  present <- _check_phone_screen oracle;;
  if present then
    phone_verification_success <- handle_verification oracle selected_countries;;
    if negb phone_verification_success then raise GmailCreationError else
    phone_data <- get_current_phone_data;;
    match phone_data with
    | None => raise GmailCreationError
    | Some phone_data => ret phone_data
    end
  else
    ret (PhoneData.Make
           (phone_params ≫= PhoneParams.phone_number)
           (phone_params ≫= PhoneParams.country_code)
           (phone_params ≫= PhoneParams.activation_id)
           "unknown").

End Caller.

(** ** Concrete scenarios *)

(** [self.selected_countries] of [SMSAPI.__init__]. *)
Definition default_selected_countries : list (string * string) :=
  [("151", "Chile"); ("12", "Estados Unidos"); ("40", "Canadá");
   ("16", "Reino Unido"); ("117", "Portugal")].

(** A price table: the United States at 10, Chile at 20. *)
Definition example_prices : gmap string (gmap string price_info) :=
  <["151" := {["go" := PriceInfo 20 5]}]>
    (<["12" := {["go" := PriceInfo 10 3]}]> ∅).

(** A world in which everything goes well: no driver call raises, the
    balance is 100, every country has stock, every purchase yields the number
    5550001 under the activation A1, and the first poll brings the code. *)
Definition good_answer : answer :=
  Answer None true "" 0 (Some 100%Q) 5 (Some example_prices)
         (Some ("A1", "5550001")) (STATUS_OK "123456").

Definition with_exn (e : exn) (a : answer) : answer :=
  Answer (Some e) (a_bool a) (a_str a) (a_time a) (a_balance a) (a_count a)
         (a_prices a) (a_buy a) (a_poll a).

Definition with_balance (b : option Q) (a : answer) : answer :=
  Answer (a_exn a) (a_bool a) (a_str a) (a_time a) b (a_count a)
         (a_prices a) (a_buy a) (a_poll a).

Definition with_prices (p : option (gmap string (gmap string price_info)))
    (a : answer) : answer :=
  Answer (a_exn a) (a_bool a) (a_str a) (a_time a) (a_balance a) (a_count a)
         p (a_buy a) (a_poll a).

(** The run that succeeds at the first attempt: the only driver calls that
    time out are the four probes for an error banner after the code was
    entered (requests 29 to 32). *)
Definition success_oracle (k : nat) : answer :=
  if (29 <=? k)%nat && (k <=? 32)%nat then with_exn TimeoutException good_answer
  else good_answer.

(** The phone step is not on the form. *)
Definition no_screen_oracle (k : nat) : answer :=
  with_exn TimeoutException good_answer.

(** The balance is zero. *)
Definition no_balance_oracle (k : nat) : answer :=
  with_balance (Some 0%Q) good_answer.

(** A number is bought at the first attempt, then the wait for the page to be
    ready times out in [_submit_phone_number] (request 10); from then on the
    price query fails. *)
Definition leak_oracle (k : nat) : answer :=
  if (k =? 10)%nat then with_exn TimeoutException good_answer
  else if (11 <=? k)%nat then with_prices None good_answer
  else good_answer.

(** A store that holds one number, used once for another service. *)
Definition example_store : PhoneManager.t :=
  PhoneManager.init
    [PhoneManager.Entry "7770001" "16" "B7" 0 0 ["tk"] 1].

(** A store with four numbers: the second already used for "go", the third
    and fourth used twice each, the first three times. *)
Definition reuse_example : PhoneManager.t :=
  PhoneManager.init
    [PhoneManager.Entry "7770001" "16" "B1" 0 10 ["tk"] 3;
     PhoneManager.Entry "7770002" "16" "B2" 0 20 ["go"] 1;
     PhoneManager.Entry "7770003" "12" "B3" 0 30 ["tk"; "wa"] 2;
     PhoneManager.Entry "7770004" "12" "B4" 0 40 ["wa"; "tk"] 2].

Definition with_count (n : Z) (a : answer) : answer :=
  Answer (a_exn a) (a_bool a) (a_str a) (a_time a) (a_balance a) n
         (a_prices a) (a_buy a) (a_poll a).

(** The phone step is on the form and the balance is positive, but no
    country reports stock. *)
Definition no_stock_oracle (k : nat) : answer := with_count 0 good_answer.

(** A verification cycle started on a new object: the price query, the
    purchase and the clock reading go well (requests 0 to 2), then the wait
    for the page at the top of [_submit_phone_number] times out. *)
Definition submit_timeout_oracle (k : nat) : answer :=
  if (k =? 3)%nat then with_exn TimeoutException good_answer else good_answer.

(** The world of [success_oracle] seen from [create_account]: its own check
    of the phone screen is request 0, and the run of [handle_verification]
    follows. *)
Definition step_success_oracle (k : nat) : answer := success_oracle (Nat.pred k).

(** [phone_params] asking for the reuse of the number of [example_store]. *)
Definition reuse_params : PhoneParams.t :=
  PhoneParams.Make true (Some "7770001") (Some "B7") (Some "16").

(** A store whose one number was first used at 50 and last at 100. *)
Definition later_store : PhoneManager.t :=
  PhoneManager.init [PhoneManager.Entry "7770001" "16" "B7" 50 100 ["tk"] 1].

(** * Specification vocabulary *)

(** ** Reasoning about runs *)

(** [steps R m]: each run of [m] takes a state to an [R]-related one,
    whatever it returns or raises. *)
Definition steps {A} (R : relation obj) (m : M A) : Prop :=
  forall s, R s (m s).2.

(** [triple P m Q]: from a state satisfying [P], [m] ends with a result and a
    state related by [Q]. *)
Definition triple {A} (P : obj -> Prop) (m : M A) (Q : res A -> obj -> Prop) : Prop :=
  forall s, P s -> Q (m s).1 (m s).2.

(** What a relation must allow for the code outside the purchase and the
    success path to respect it: requests to the world, the bookkeeping
    fields, status calls, exclusions, and letting go of the activation. *)
Class Stepping (R : relation obj) : Prop := {
  stepping_preorder :: PreOrder R;
  stepping_bump s : R s (bump s);
  stepping_state v s : R s (set_state v s);
  stepping_available v s : R s (set_available_numbers v s);
  stepping_release s : R s (set_current_activation None s);
  stepping_status aid k s : R s (add_event (EvSetStatus aid k) s);
  stepping_exclude c s :
    R s (add_event (EvExclude c) (set_used_countries ({[c]} ∪ used_countries s) s))
}.

(** The same for the rest of the run: taking an activation, updating the
    store, and the purchase itself. *)
Class SteppingRun (oracle : nat -> answer) (selected_countries : list (string * string))
    (R : relation obj) : Prop := {
  run_stepping :: Stepping R;
  run_activation v s : R s (set_current_activation v s);
  run_phone_manager v s : R s (set_phone_manager v s);
  run_get_new_number : steps R (_get_new_number oracle selected_countries)
}.

(** ** The country exclusion set *)

(** The exclusion set after the calls of [l], starting from [used]. *)
Fixpoint excluded_after (used : gset string) (l : list event) : gset string :=
  match l with
  | [] => used
  | EvExclude c :: l' => excluded_after ({[c]} ∪ used) l'
  | _ :: l' => excluded_after used l'
  end.

(** Replaying the calls of [l] from the exclusion set [used]: every purchase
    targets a country outside the exclusion set as it stands at that point. *)
Fixpoint buys_avoid (used : gset string) (l : list event) : Prop :=
  match l with
  | [] => True
  | EvBuy c _ :: l' => (c ∉ used) /\ buys_avoid used l'
  | EvExclude c :: l' => buys_avoid ({[c]} ∪ used) l'
  | EvSetStatus _ _ :: l' => buys_avoid used l'
  end.

(** The relation between two states of one run that the exclusion policy
    maintains. *)
Definition exclusion_run (s s' : obj) : Prop :=
  exists l, log s' = log s ++ l
    /\ used_countries s' = excluded_after (used_countries s) l
    /\ buys_avoid (used_countries s) l.

(** ** Acquiring a number *)

(** The calls made for a run of countries in which every purchase reported
    no number: for each country in turn, the [buy_number] call and then the
    addition of the country to the exclusion set. *)
Inductive failed_buys : list (string * Q) -> list event -> Prop :=
| failed_buys_nil : failed_buys [] []
| failed_buys_cons c p r l evs :
    truthy (snd <$> r) = false ->
    failed_buys l evs ->
    failed_buys ((c, p) :: l) (EvBuy c r :: EvExclude c :: evs).

(** The candidates of [_get_new_number] in a state: nothing when every
    allowed country is excluded or the price query fails, else the sorted
    price list. *)
Definition candidates (oracle : nat -> answer)
    (selected_countries : list (string * string)) (s : obj) : list (string * Q) :=
  match a_prices (oracle (tick s)) with
  | Some prices => sorted_prices selected_countries (used_countries s) prices
  | None => []
  end.

(** ** Runs without a purchase *)

(** Nothing is bought between two states. *)
Definition no_purchase (s s' : obj) : Prop :=
  exists l, log s' = log s ++ l /\ forall c r, EvBuy c r ∉ l.

(** ** The success path *)

(** From the purchase to the confirmation: the store and
    [self.phone_number] are kept, the activation is kept or let go, and the
    log is extended by calls none of which is a purchase. *)
Definition held_run (s s' : obj) : Prop :=
  phone_manager s' = phone_manager s
  /\ phone_number s' = phone_number s
  /\ (current_activation s' = current_activation s \/ current_activation s' = None)
  /\ no_purchase s s'.

(** Outside the success path the store is not touched. *)
Definition store_kept (s s' : obj) : Prop :=
  phone_manager s' = phone_manager s /\ log s `prefix_of` log s'.

(** What [_handle_sms_verification] guarantees for the activation [aid],
    seen from the state [s0] in which the number had just been acquired:
    either it ends in [confirm_success], or it did not return [True]. *)
Definition sms_post (oracle : nat -> answer) (aid : string) (s0 : obj)
    (r : res bool) (s' : obj) : Prop :=
  match r with
  | Ret true =>
      exists s2, held_run s0 s2 /\ confirm_success oracle aid s2 = (Ret true, s')
  | _ => held_run s0 s'
  end.

(** A verification cycle that returns [True]: a number was bought for the
    activation [act], and from the state [s1] holding it the run reached
    [confirm_success] for that activation. *)
Definition cycle_ok (oracle : nat -> answer) (s s' : obj) : Prop :=
  exists act s1 s2 evs,
    log s1 = log s ++ evs ++ [EvBuy (ActivationInfo.country_code act)
                                    (Some (ActivationInfo.activation_id act,
                                           ActivationInfo.phone_number act))]
    /\ phone_manager s1 = phone_manager s
    /\ phone_number s1 = Some (ActivationInfo.phone_number act)
    /\ ActivationInfo.phone_number act <> ""
    /\ current_activation s1 = Some act
    /\ held_run s1 s2
    /\ confirm_success oracle (ActivationInfo.activation_id act) s2 = (Ret true, s').

(** What a verification cycle guarantees, seen from the state [s0]. *)
Definition cycle_post (oracle : nat -> answer) (s0 : obj)
    (r : res (option bool)) (s' : obj) : Prop :=
  match r with
  | Ret (Some true) => exists sc, store_kept s0 sc /\ cycle_ok oracle sc s'
  | _ => store_kept s0 s'
  end.

(** What the attempts loop guarantees, seen from the state [s0]. *)
Definition loop_post (oracle : nat -> answer) (s0 : obj)
    (r : res bool) (s' : obj) : Prop :=
  match r with
  | Ret true => exists sc, store_kept s0 sc /\ cycle_ok oracle sc s'
  | _ => store_kept s0 s'
  end.

(** ** Claims as the specification words them *)

(** A purchase is settled in a log when its activation received status 8 or
    a cancel call. *)
Definition settled (l : list event) (aid : string) : Prop :=
  EvSetStatus aid 8 ∈ l \/ EvSetStatus aid 6 ∈ l.

(** C2 as stated, for the log of a run that returned failure. *)
Definition all_purchases_settled (l : list event) : Prop :=
  forall country aid phone,
    EvBuy country (Some (aid, phone)) ∈ l -> phone <> "" -> settled l aid.


(** C3 as stated: when the reuse store can offer a number for the service
    tag, the acquisition step takes that number and buys nothing. *)
Definition reusable_number_preferred (oracle : nat -> answer)
    (selected_countries : list (string * string)) (service : string) (s : obj) : Prop :=
  forall pm now now_cleanup n,
    phone_manager s = Some pm ->
    (PhoneManager.get_reusable_number now now_cleanup service pm).1 = Some n ->
    let run := _get_new_number oracle selected_countries s in
    (forall country r, EvBuy country r ∈ log run.2 -> EvBuy country r ∈ log s)
    /\ exists act,
         run.1 = Ret (Some act)
         /\ ActivationInfo.phone_number act = PhoneManager.phone_number n.

(** C6 as stated: with the phone step absent, the run succeeds without a
    purchase and ends in the state COMPLETED. *)
Definition trivial_success_completes (oracle : nat -> answer)
    (selected_countries : list (string * string)) (s : obj) : Prop :=
  let run := handle_verification oracle selected_countries s in
  a_exn (oracle (tick s)) = Some TimeoutException ->
  run.1 = Ret true
  /\ (forall country r, EvBuy country r ∈ log run.2 -> EvBuy country r ∈ log s)
  /\ state run.2 = COMPLETED.

(** C9 as stated: on a store whose entries all have
    [first_used <= last_used], every operation leaves such a store,
    whatever the clock readings it runs at. *)
Definition timestamps_stay_ordered (pm : PhoneManager.t) : Prop :=
  let ordered n := (PhoneManager.first_used n <= PhoneManager.last_used n)%Q in
  Forall ordered (PhoneManager.numbers pm) ->
  forall now now_cleanup phone country aid p service,
    Forall ordered
      (PhoneManager.numbers (PhoneManager.add_number now phone country aid service pm).2)
    /\ Forall ordered
         (PhoneManager.numbers
            (PhoneManager.get_reusable_number now now_cleanup service pm).2)
    /\ Forall ordered
         (PhoneManager.numbers (PhoneManager.mark_number_used now p service pm).2)
    /\ Forall ordered (PhoneManager.numbers (PhoneManager.remove_number p pm).2)
    /\ Forall ordered
         (PhoneManager.numbers (PhoneManager._cleanup_expired_numbers now pm)).

(** ** The reuse store: what its operations maintain *)

(** No phone number has two entries. *)
Definition distinct_numbers (pm : PhoneManager.t) : Prop :=
  NoDup (PhoneManager.phone_number <$> PhoneManager.numbers pm).

(** The storage file holds the store as it is in memory. *)
Definition flushed (pm : PhoneManager.t) : Prop :=
  PhoneManager.storage_file pm = PhoneManager.numbers pm.

(** An entry lists each service once, and was used at least once for each
    service it lists. *)
Definition services_counted (n : PhoneManager.entry) : Prop :=
  NoDup (PhoneManager.services n)
  /\ (Z.of_nat (length (PhoneManager.services n)) <= PhoneManager.times_used n)%Z.

(** ** Price comparison *)

(** The table lists [country] for [service] at price [p], with stock. *)
Definition in_stock (prices : gmap string (gmap string price_info))
    (service country : string) (p : Q) : Prop :=
  exists services info,
    prices !! country = Some services /\ services !! service = Some info
    /\ p = cost info /\ (0 < count info)%Z.

(** The row of a country in the comparison table. *)
Definition row_of (all_prices : gmap string (gmap string price_info))
    (service : string) (c : string * string) : option SMSAPI.price_row :=
  match all_prices !! c.1 with
  | Some services =>
      match services !! service with
      | Some info => Some (SMSAPI.PriceRow c.1 c.2 (cost info) (count info))
      | None => None
      end
  | None => None
  end.

(** ** Runs: results and purchases *)

(** [m] returns a value from every state: no exception escapes it. *)
Definition returns {A} (m : M A) : Prop :=
  forall s, exists a, (m s).1 = Ret a.

(** The purchases of a log that yielded a number. *)
Fixpoint bought (l : list event) : list (string * string) :=
  match l with
  | [] => []
  | EvBuy _ (Some (aid, phone)) :: l' =>
      if bool_decide (phone = "") then bought l' else (aid, phone) :: bought l'
  | _ :: l' => bought l'
  end.

(** Between two states of a run, at most [n] numbers were bought. *)
Definition within (n : nat) (s s' : obj) : Prop :=
  exists l, log s' = log s ++ l /\ (length (bought l) <= n)%nat.

(** The relation [within 0], in the form the reasoning rules take. *)
Definition nothing_bought : relation obj := within 0.

(** [m] buys at most [n] numbers, however it ends. *)
Definition spends {A} (n : nat) (m : M A) : Prop :=
  forall s, within n s (m s).2.

(** What the world answers to the [k]-th poll of [get_sms_code] started in
    the state [s]. *)
Definition poll_answer (oracle : nat -> answer) (s : obj) (k : nat) : poll_response :=
  a_poll (oracle (tick s + k)%nat).

(** ** The phases of a verification cycle *)

(** [Q] holds of the way [m] ends, from every state. *)
Definition ends {A} (Q : res A -> obj -> Prop) (m : M A) : Prop :=
  forall s, Q (m s).1 (m s).2.

(** [Q], as long as the computation returns. *)
Definition unless_raised {A} (Q : res A -> obj -> Prop) (r : res A) (s : obj) : Prop :=
  match r with
  | Exc _ => True
  | Ret _ => Q r s
  end.

(** How the SMS phase ends: with [True] in the state COMPLETED, or with
    [False] and no activation held any more. *)
Definition sms_outcome (r : res bool) (s : obj) : Prop :=
  match r with
  | Ret true => state s = COMPLETED
  | Ret false => current_activation s = None
  | Exc _ => False
  end.

(** A pass over the error banners leaves the function only with [False],
    the activation let go. *)
Definition banner_outcome (r : res (ctl bool)) (s : obj) : Prop :=
  match r with
  | Ret (Return b) => b = false /\ current_activation s = None
  | _ => True
  end.

(** Between two states only requests to the outside world were made. *)
Definition requests_only (s s' : obj) : Prop :=
  exists k, s' = Nat.iter k bump s.

(** * Properties *)

(** ** Helpers: comparisons, sorting, enumeration *)

Lemma Qltb_lt (a b : Q) : Qltb a b = true <-> (a < b)%Q.
Proof.
  unfold Qltb. rewrite negb_true_iff. split.
  - intros H. apply Qnot_le_lt. intros Hle.
    apply Qle_bool_iff in Hle. congruence.
  - intros H. destruct (Qle_bool b a) eqn:E; [|reflexivity].
    apply Qle_bool_iff in E. exfalso. exact (Qlt_not_le _ _ H E).
Qed.

Section StableSortFacts.
Context {A K : Type} (leb : K -> K -> bool) (key : A -> K).
Hypothesis leb_total : forall a b, leb a b = true \/ leb b a = true.
Hypothesis leb_trans : forall a b c, leb a b = true -> leb b c = true -> leb a c = true.

Lemma insert_by_perm x l : insert_by leb key x l ≡ₚ x :: l.
Proof.
  induction l as [|y l IH]; simpl; [done|].
  destruct (leb (key x) (key y)); [done|].
  rewrite IH. apply Permutation_swap.
Qed.

Lemma sort_by_perm l : sort_by leb key l ≡ₚ l.
Proof.
  induction l as [|x l IH]; simpl; [done|].
  rewrite insert_by_perm. by rewrite IH.
Qed.

Lemma insert_by_sorted x l :
  StronglySorted (key_le leb key) l -> StronglySorted (key_le leb key) (insert_by leb key x l).
Proof.
  induction 1 as [|y l Hs IH Hall]; simpl.
  - repeat constructor.
  - destruct (leb (key x) (key y)) eqn:E.
    + constructor; [by constructor|].
      constructor; [exact E|].
      eapply Forall_impl; [exact Hall|]. intros z Hz.
      unfold key_le in *. eauto.
    + constructor; [exact IH|].
      rewrite insert_by_perm. constructor; [|exact Hall].
      unfold key_le. destruct (leb_total (key x) (key y)); congruence.
Qed.

Lemma sort_by_sorted l : StronglySorted (key_le leb key) (sort_by leb key l).
Proof.
  induction l as [|x l IH]; simpl; [constructor|].
  by apply insert_by_sorted.
Qed.

(** The head of the sorted list is the first of the input with a minimal
    key: no element has a smaller key, and an element before it has a
    strictly larger one. *)
Lemma head_insert_by x l :
  head (insert_by leb key x l) =
  match head l with
  | Some y => if leb (key x) (key y) then Some x else Some y
  | None => Some x
  end.
Proof. destruct l as [|y l]; simpl; [done|]. by destruct (leb (key x) (key y)). Qed.

Lemma head_sort_by_min l m :
  head (sort_by leb key l) = Some m ->
  exists l1 l2, l = l1 ++ m :: l2
    /\ Forall (fun y => leb (key y) (key m) = false) l1
    /\ Forall (fun y => leb (key m) (key y) = true) l2.
Proof.
  revert m. induction l as [|x l IH]; intros m; simpl; [done|].
  rewrite head_insert_by.
  destruct (head (sort_by leb key l)) as [y|] eqn:Hy.
  - destruct (IH y eq_refl) as (l1 & l2 & -> & H1 & H2).
    destruct (leb (key x) (key y)) eqn:E; intros [= <-].
    + exists [], (l1 ++ y :: l2). split; [done|]. split; [constructor|].
      apply Forall_app. split.
      * eapply Forall_impl; [exact H1|]. intros z Hz. simpl in Hz.
        destruct (leb_total (key y) (key z)) as [Hyz|Hzy]; [|congruence].
        eauto.
      * constructor; [exact E|].
        eapply Forall_impl; [exact H2|]. intros z Hz. simpl in Hz. eauto.
    + exists (x :: l1), l2. split; [done|]. split; [|exact H2].
      constructor; [exact E|exact H1].
  - intros [= <-]. destruct l as [|z l].
    + exists [], []. repeat split; constructor.
    + exfalso. pose proof (sort_by_perm (z :: l)) as Hp.
      destruct (sort_by leb key (z :: l)); [|done].
      by apply Permutation_nil_cons in Hp.
Qed.
End StableSortFacts.

Lemma elem_of_enumerate_from {A} (l : list A) k i x :
  (i, x) ∈ enumerate_from k l <-> (k <= i)%nat /\ l !! (i - k)%nat = Some x.
Proof.
  revert k. induction l as [|y l IH]; intros k; simpl.
  - rewrite elem_of_nil. naive_solver.
  - rewrite elem_of_cons, IH. split.
    + intros [[= -> ->]|[Hle Hl]].
      * split; [lia|]. by rewrite Nat.sub_diag.
      * split; [lia|]. replace (i - k)%nat with (S (i - S k)) by lia. done.
    + intros [Hle Hl]. destruct (decide (i = k)) as [->|Hne].
      * left. rewrite Nat.sub_diag in Hl. simpl in Hl. congruence.
      * right. split; [lia|].
        replace (i - k)%nat with (S (i - S k)) in Hl by lia. done.
Qed.

(** Positions in an enumeration increase. *)
Lemma enumerate_from_split {A} (l : list A) k l1 i x l2 :
  enumerate_from k l = l1 ++ (i, x) :: l2 ->
  Forall (fun p => (p.1 < i)%nat) l1 /\ Forall (fun p => (i < p.1)%nat) l2.
Proof.
  revert k l1. induction l as [|y l IH]; intros k l1; simpl.
  - by destruct l1.
  - destruct l1 as [|p l1]; simpl.
    + intros [= <- <- <-]. split; [constructor|].
      apply Forall_forall. intros [j z] Hj. simpl.
      apply elem_of_enumerate_from in Hj. lia.
    + intros [= <- Hrest]. destruct (IH _ _ Hrest) as [H1 H2].
      split; [|done]. constructor; [|done]. simpl.
      assert ((i, x) ∈ enumerate_from (S k) l) as Hin.
      { rewrite Hrest. set_solver. }
      apply elem_of_enumerate_from in Hin. lia.
Qed.

Lemma filter_split {A} (f : A -> bool) (l : list A) l1 x l2 :
  List.filter f l = l1 ++ x :: l2 ->
  exists m1 m2, l = m1 ++ x :: m2 /\ l1 = List.filter f m1 /\ l2 = List.filter f m2.
Proof.
  revert l1. induction l as [|y l IH]; intros l1; simpl.
  - by destruct l1.
  - destruct (f y) eqn:E.
    + destruct l1 as [|z l1]; simpl.
      * intros [= -> <-]. exists [], l. done.
      * intros [= <- Hrest]. destruct (IH _ Hrest) as (m1 & m2 & -> & -> & ->).
        exists (y :: m1), m2. simpl. by rewrite E.
    + intros Hrest. destruct (IH _ Hrest) as (m1 & m2 & -> & -> & ->).
      exists (y :: m1), m2. simpl. by rewrite E.
Qed.

(** ** The number reuse store *)

Module PhoneManagerFacts.
Import PhoneManager.

Lemma is_valid_eligible now service pm n :
  is_valid now (reuse_window pm) service n = true <-> eligible now service pm n.
Proof.
  unfold is_valid, eligible.
  rewrite andb_true_iff, Qltb_lt, negb_true_iff, bool_decide_eq_false. done.
Qed.

Lemma timestamps_ok_later now t n :
  (now <= t)%Q -> timestamps_ok now n -> timestamps_ok t n.
Proof. intros Hle [H1 H2]. split; [done|]. by eapply Qle_trans. Qed.

Lemma timestamps_ok_touch now t service n :
  (now <= t)%Q -> timestamps_ok now n -> timestamps_ok t (touch t service n).
Proof.
  intros Hle [H1 H2]. split; simpl; [|apply Qle_refl].
  eapply Qle_trans; [exact H1|]. by eapply Qle_trans.
Qed.

Lemma timestamps_ok_checkout now t service n :
  (now <= t)%Q -> timestamps_ok now n -> timestamps_ok t (checkout t service n).
Proof.
  intros Hle [H1 H2]. split; simpl; [|apply Qle_refl].
  eapply Qle_trans; [exact H1|]. by eapply Qle_trans.
Qed.

Lemma update_first_Forall (P : entry -> Prop) p f l l' :
  update_first p f l = Some l' ->
  (forall n, P n -> P (f n)) -> Forall P l -> Forall P l'.
Proof.
  revert l'. induction l as [|n l IH]; intros l'; simpl; [done|].
  intros Hup Hf Hall. apply Forall_cons in Hall as [Hn Hl].
  case_bool_decide.
  - injection Hup as <-. constructor; auto.
  - destruct (update_first p f l) as [l0|]; [|done].
    injection Hup as <-. constructor; eauto.
Qed.

Lemma delete_first_Forall (P : entry -> Prop) p l l' :
  delete_first p l = Some l' -> Forall P l -> Forall P l'.
Proof.
  revert l'. induction l as [|n l IH]; intros l'; simpl; [done|].
  intros Hdel Hall. apply Forall_cons in Hall as [Hn Hl].
  case_bool_decide.
  - by injection Hdel as <-.
  - destruct (delete_first p l) as [l0|]; [|done].
    injection Hdel as <-. constructor; eauto.
Qed.

Lemma Forall_filter_bool {A} (P : A -> Prop) (f : A -> bool) l :
  Forall P l -> Forall P (List.filter f l).
Proof.
  induction 1 as [|x l Hx Hl IH]; simpl; [constructor|].
  destruct (f x); [by constructor|done].
Qed.

Lemma numbers_cleanup now pm :
  numbers (_cleanup_expired_numbers now pm) =
  List.filter (fun n => Qltb (now - first_used n) (reuse_window pm)) (numbers pm).
Proof. reflexivity. Qed.

(** The entry that [get_reusable_number] selects, before its update: its
    position in the cleaned store, the fact that it passed the filter, and
    its place among the other entries that passed. *)
Lemma get_reusable_number_selected now now_cleanup service pm r pm' :
  get_reusable_number now now_cleanup service pm = (Some r, pm') ->
  exists i n,
    numbers (_cleanup_expired_numbers now_cleanup pm) !! i = Some n
    /\ r = checkout now service n
    /\ pm' = _save_numbers
              (set_numbers
                 (<[i := r]> (numbers (_cleanup_expired_numbers now_cleanup pm)))
                 (_cleanup_expired_numbers now_cleanup pm))
    /\ eligible now service pm n
    /\ forall j n',
         numbers (_cleanup_expired_numbers now_cleanup pm) !! j = Some n' ->
         eligible now service pm n' ->
         (times_used n <= times_used n')%Z
         /\ (times_used n' = times_used n -> (i <= j)%nat).
Proof.
  unfold get_reusable_number. intros Hget.
  set (pm1 := _cleanup_expired_numbers now_cleanup pm) in *.
  destruct (sort_by Z.leb (fun p => times_used p.2) (valid_numbers now service pm1))
    as [|[i n] rest] eqn:Hsort; [done|].
  injection Hget as <- <-.
  assert (head (sort_by Z.leb (fun p : nat * entry => times_used p.2)
                        (valid_numbers now service pm1)) = Some (i, n)) as Hhead
    by (by rewrite Hsort).
  apply head_sort_by_min in Hhead as (l1 & l2 & Hsplit & Hbefore & Hafter);
    [|intros a b; rewrite !Z.leb_le; lia
     |intros a b c; rewrite !Z.leb_le; lia].
  unfold valid_numbers in Hsplit.
  pose proof Hsplit as Hsplit'.
  apply filter_split in Hsplit' as (m1 & m2 & Henum & -> & ->).
  pose proof (enumerate_from_split _ _ _ _ _ _ Henum) as [Hlt Hgt].
  assert ((i, n) ∈ List.filter
            (fun p : nat * entry => is_valid now (reuse_window pm1) service p.2)
            (enumerate_from 0 (numbers pm1))) as Hin.
  { rewrite Hsplit. set_solver. }
  apply list_elem_of_In, filter_In in Hin as [Hin Hvalid].
  apply list_elem_of_In, elem_of_enumerate_from in Hin as [_ Hlook].
  rewrite Nat.sub_0_r in Hlook. simpl in Hvalid.
  exists i, n. split; [done|]. split; [done|]. split; [done|].
  split; [by apply is_valid_eligible in Hvalid|].
  intros j n' Hj Hel.
  assert ((j, n') ∈ m1 ++ (i, n) :: m2) as Hjin.
  { rewrite <- Henum. apply elem_of_enumerate_from. rewrite Nat.sub_0_r. split; [lia|done]. }
  apply (is_valid_eligible now service pm1) in Hel.
  apply elem_of_app in Hjin as [Hj1|Hj2].
  - assert ((j, n') ∈ List.filter
              (fun p : nat * entry => is_valid now (reuse_window pm1) service p.2) m1) as Hf.
    { apply list_elem_of_In, filter_In. split; [by apply list_elem_of_In|done]. }
    rewrite Forall_forall in Hbefore. specialize (Hbefore _ Hf). simpl in Hbefore.
    apply Z.leb_gt in Hbefore. lia.
  - apply elem_of_cons in Hj2 as [[= -> ->]|Hj2]; [lia|].
    assert ((j, n') ∈ List.filter
              (fun p : nat * entry => is_valid now (reuse_window pm1) service p.2) m2) as Hf.
    { apply list_elem_of_In, filter_In. split; [by apply list_elem_of_In|done]. }
    rewrite Forall_forall in Hafter. specialize (Hafter _ Hf). simpl in Hafter.
    apply Z.leb_le in Hafter.
    rewrite Forall_forall in Hgt. specialize (Hgt _ Hj2). simpl in Hgt. lia.
Qed.

(** After the cleanup, an entry with ordered timestamps also passes the
    [last_used] test of [get_reusable_number], the clock not running
    backwards between the two readings. *)
Lemma cleaned_entry_within_window now now_cleanup pm n :
  (now <= now_cleanup)%Q ->
  (first_used n <= last_used n)%Q ->
  n ∈ numbers (_cleanup_expired_numbers now_cleanup pm) ->
  (now - last_used n < reuse_window pm)%Q.
Proof.
  intros Hclock Hord Hin. rewrite numbers_cleanup in Hin.
  apply list_elem_of_In, filter_In in Hin as [_ Hin]. apply Qltb_lt in Hin.
  lra.
Qed.

(** C7: the entry handed out by [get_reusable_number(service)] was not
    tagged with [service] before the call, and among the entries that pass
    the function's filter it has the smallest [times_used], the earliest
    position in the store winning a tie. With ordered timestamps and a
    clock that does not run backwards, the entries that pass the filter
    are the entries left by the cleanup that are not tagged with
    [service]. *)
Theorem get_reusable_number_least_used now now_cleanup service pm r pm' :
  get_reusable_number now now_cleanup service pm = (Some r, pm') ->
  exists i n,
    numbers (_cleanup_expired_numbers now_cleanup pm) !! i = Some n
    /\ n ∈ numbers pm
    /\ r = checkout now service n
    /\ (service ∉ services n)
    /\ (forall j n',
          numbers (_cleanup_expired_numbers now_cleanup pm) !! j = Some n' ->
          eligible now service pm n' ->
          (times_used n <= times_used n')%Z
          /\ (times_used n' = times_used n -> (i <= j)%nat))
    /\ ((now <= now_cleanup)%Q ->
        forall j n',
          numbers (_cleanup_expired_numbers now_cleanup pm) !! j = Some n' ->
          (first_used n' <= last_used n')%Q ->
          service ∉ services n' ->
          (times_used n <= times_used n')%Z
          /\ (times_used n' = times_used n -> (i <= j)%nat)).
Proof.
  intros Hget.
  destruct (get_reusable_number_selected _ _ _ _ _ _ Hget)
    as (i & n & Hi & Hr & _ & [_ Hserv] & Hmin).
  exists i, n. split; [done|]. split.
  { apply list_elem_of_lookup_2 in Hi. rewrite numbers_cleanup in Hi.
    apply list_elem_of_In, filter_In in Hi as [Hi _]. by apply list_elem_of_In. }
  do 3 (split; [done|]).
  intros Hclock j n' Hj Hord Htag. apply (Hmin j n' Hj). split; [|done].
  eapply cleaned_entry_within_window; [exact Hclock|exact Hord|].
  by eapply list_elem_of_lookup_2.
Qed.

(** C8: an entry handed out by [get_reusable_number] is within the reuse
    window counted from its first use, at the clock reading of the cleanup
    and, the clock not running backwards, at the function's own reading;
    after the call the store holds no entry whose window, counted from
    first use, has elapsed. Refreshing [last_used] does not extend it. *)
Theorem get_reusable_number_not_expired now now_cleanup service pm r pm' :
  get_reusable_number now now_cleanup service pm = (Some r, pm') ->
  (now_cleanup - first_used r < reuse_window pm)%Q
  /\ ((now <= now_cleanup)%Q -> (now - first_used r < reuse_window pm)%Q)
  /\ (forall n, n ∈ numbers pm' ->
        ~ (reuse_window pm <= now_cleanup - first_used n)%Q).
Proof.
  intros Hget.
  destruct (get_reusable_number_selected _ _ _ _ _ _ Hget)
    as (i & n & Hi & Hr & Hpm' & _ & _).
  assert (forall m, m ∈ numbers (_cleanup_expired_numbers now_cleanup pm) ->
                    (now_cleanup - first_used m < reuse_window pm)%Q) as Hclean.
  { intros m Hm. rewrite numbers_cleanup in Hm.
    apply list_elem_of_In, filter_In in Hm as [_ Hm]. by apply Qltb_lt. }
  assert (now_cleanup - first_used r < reuse_window pm)%Q as Hfresh.
  { subst r. simpl. apply Hclean. by eapply list_elem_of_lookup_2. }
  split; [done|]. split.
  - intros Hle. eapply Qle_lt_trans; [|exact Hfresh].
    unfold Qminus. apply Qplus_le_l. exact Hle.
  - intros m Hm Hexp. subst pm'. simpl in Hm.
    apply list_elem_of_lookup_1 in Hm as [j Hj].
    destruct (decide (i = j)) as [->|Hne].
    + rewrite list_lookup_insert_eq in Hj by (by eapply lookup_lt_Some).
      injection Hj as <-. exact (Qlt_not_le _ _ Hfresh Hexp).
    + rewrite list_lookup_insert_ne in Hj by done.
      apply list_elem_of_lookup_2, Hclean in Hj.
      exact (Qlt_not_le _ _ Hj Hexp).
Qed.

(** C9, as amended: when every entry has [first_used <= last_used] and no
    timestamp is ahead of the clock, every store operation run at a later
    clock reading (the cleanup inside [get_reusable_number] reading the
    clock no earlier than the function itself) leaves a store, and hands
    out an entry, of which the same holds. The operations write
    [last_used = time.time()] and keep [first_used], so that without the
    condition on the clock the order can be lost. *)
Theorem first_used_le_last_used now t pm :
  Forall (timestamps_ok now) (numbers pm) ->
  (now <= t)%Q ->
  (forall phone country aid service,
      Forall (timestamps_ok t) (numbers (add_number t phone country aid service pm).2))
  /\ (forall t_cleanup service,
        (t <= t_cleanup)%Q ->
        Forall (timestamps_ok t_cleanup)
               (numbers (get_reusable_number t t_cleanup service pm).2)
        /\ forall r, (get_reusable_number t t_cleanup service pm).1 = Some r ->
                     timestamps_ok t r)
  /\ (forall p service,
        Forall (timestamps_ok t) (numbers (mark_number_used t p service pm).2))
  /\ (forall p, Forall (timestamps_ok t) (numbers (remove_number p pm).2))
  /\ Forall (timestamps_ok t) (numbers (_cleanup_expired_numbers t pm)).
Proof.
  intros Hok Hle.
  assert (Forall (timestamps_ok t) (numbers pm)) as Hok'.
  { eapply Forall_impl; [exact Hok|]. intros n. by apply timestamps_ok_later. }
  split; [|split; [|split; [|split]]].
  - intros phone country aid service. unfold add_number.
    destruct (negb _); [done|].
    destruct (update_first _ _ _) as [l|] eqn:Hup; simpl.
    + eapply update_first_Forall; [exact Hup| |exact Hok'].
      intros n. apply timestamps_ok_touch, Qle_refl.
    + apply Forall_app. split; [done|].
      constructor; [|constructor]. split; simpl; apply Qle_refl.
  - intros t_cleanup service Hlater.
    assert (Forall (timestamps_ok now)
                   (numbers (_cleanup_expired_numbers t_cleanup pm))) as Hc.
    { rewrite numbers_cleanup. by apply Forall_filter_bool. }
    destruct (get_reusable_number t t_cleanup service pm) as [[r|] pm'] eqn:Hget.
    + destruct (get_reusable_number_selected _ _ _ _ _ _ Hget)
        as (i & n & Hi & Hr & -> & _ & _).
      assert (timestamps_ok t r) as Hrok.
      { subst r. apply (timestamps_ok_checkout now); [done|].
        rewrite Forall_forall in Hc. apply Hc. by eapply list_elem_of_lookup_2. }
      split; [|by intros ? [= <-]]. cbn [snd _save_numbers numbers set_numbers].
      apply Forall_insert.
      * eapply Forall_impl; [exact Hc|]. intros m.
        apply timestamps_ok_later. by eapply Qle_trans.
      * by eapply timestamps_ok_later.
    + split; [|done]. unfold get_reusable_number in Hget.
      destruct (sort_by _ _ _) as [|[i n] rest]; [|done].
      injection Hget as <-. cbn [snd].
      eapply Forall_impl; [exact Hc|]. intros m.
      apply timestamps_ok_later. by eapply Qle_trans.
  - intros p service. unfold mark_number_used.
    destruct (update_first _ _ _) as [l|] eqn:Hup; simpl; [|done].
    eapply update_first_Forall; [exact Hup| |exact Hok'].
    intros n. apply timestamps_ok_touch, Qle_refl.
  - intros p. unfold remove_number.
    destruct (delete_first _ _) as [l|] eqn:Hdel; simpl; [|done].
    by eapply delete_first_Forall.
  - rewrite numbers_cleanup. by apply Forall_filter_bool.
Qed.

Lemma update_first_elem p f l l' :
  update_first p f l = Some l' ->
  exists n, phone_number n = p /\ f n ∈ l'.
Proof.
  revert l'. induction l as [|n l IH]; intros l'; simpl; [done|].
  case_bool_decide as Hp.
  - intros [= <-]. exists n. split; [done|]. by left.
  - destruct (update_first p f l) as [l0|]; [|done].
    intros [= <-]. destruct (IH l0 eq_refl) as (m & Hm & Hin).
    exists m. split; [done|]. by right.
Qed.

(** A call of [add_number] with its three data fields present leaves an
    entry for the phone number that carries the service tag. *)
Lemma add_number_records now phone country aid service pm :
  phone <> "" -> country <> "" -> aid <> "" ->
  exists n,
    n ∈ numbers (add_number now (Some phone) (Some country) (Some aid) service pm).2
    /\ phone_number n = phone /\ service ∈ services n.
Proof.
  intros Hphone Hcountry Haid. unfold add_number. simpl.
  rewrite !bool_decide_eq_false_2 by done. simpl.
  destruct (update_first _ _ _) as [l|] eqn:Hup; simpl.
  - apply update_first_elem in Hup as (n & Hn & Hin).
    exists (touch now service n). split; [done|]. split; [done|]. simpl.
    case_bool_decide; [done|]. set_solver.
  - eexists. split; [apply elem_of_app; right; by left|]. simpl. split; [done|].
    by left.
Qed.

(** C10: with [phone_number], [country_code] or [activation_id] missing,
    [add_number] returns [False] and the manager is exactly as before: same
    entries, same file contents, no rewrite of the file. *)
Theorem add_number_incomplete_data now phone country aid service pm :
  truthy phone = false \/ truthy country = false \/ truthy aid = false ->
  add_number now phone country aid service pm = (false, pm).
Proof.
  intros H. unfold add_number.
  destruct (truthy phone), (truthy country), (truthy aid); simpl;
    try reflexivity; naive_solver.
Qed.

End PhoneManagerFacts.

(** ** The orchestrator: reasoning rules *)

Section Rules.
Context {A B : Type}.

Lemma bind_run (m : M A) (k : A -> M B) s :
  bind m k s = match m s with
               | (Ret a, s') => k a s'
               | (Exc e, s') => (Exc e, s')
               end.
Proof. reflexivity. Qed.

End Rules.

Section StepRules.
Context (R : relation obj) `{!PreOrder R}.

Lemma steps_ret {A} (a : A) : steps R (ret a).
Proof. intros s. simpl. reflexivity. Qed.

Lemma steps_raise {A} e : steps R (@raise A e).
Proof. intros s. simpl. reflexivity. Qed.

Lemma steps_gets {A} (f : obj -> A) : steps R (gets f).
Proof. intros s. simpl. reflexivity. Qed.

Lemma steps_bind {A B} (m : M A) (k : A -> M B) :
  steps R m -> (forall a, steps R (k a)) -> steps R (bind m k).
Proof.
  intros Hm Hk s. rewrite bind_run. specialize (Hm s).
  destruct (m s) as [[a|e] s1]; simpl in *; [|done].
  etrans; [exact Hm|apply Hk].
Qed.

Lemma steps_try_catch {A} (m : M A) h :
  steps R m -> (forall e, steps R (h e)) -> steps R (try_catch m h).
Proof.
  intros Hm Hh s. unfold try_catch. specialize (Hm s).
  destruct (m s) as [[a|e] s1]; simpl in *; [done|].
  etrans; [exact Hm|apply Hh].
Qed.

Lemma steps_try_timeout {A} (m h : M A) :
  steps R m -> steps R h -> steps R (try_timeout m h).
Proof.
  intros Hm Hh. apply steps_try_catch; [done|].
  intros []; [done|apply steps_raise].
Qed.

Lemma steps_try_finally {A} (m : M A) f :
  steps R m -> steps R f -> steps R (try_finally m f).
Proof.
  intros Hm Hf s. unfold try_finally. specialize (Hm s).
  destruct (m s) as [r s1]. specialize (Hf s1).
  destruct (f s1) as [[[]|e] s2]; simpl in *; by etrans.
Qed.

Lemma steps_for_loop {A T} (l : list A) (body : A -> M (ctl T)) :
  (forall x, steps R (body x)) -> steps R (for_loop l body).
Proof.
  intros Hbody. induction l as [|x l IH]; simpl; [apply steps_ret|].
  apply steps_bind; [done|].
  intros [| |r]; [done|apply steps_ret|apply steps_ret].
Qed.

(** A computation that respects [R] turns an [R]-precondition into an
    [R]-postcondition, so that it can start a [triple]. *)
Lemma triple_bind_steps {A B} s0 (m : M A) (k : A -> M B) Q :
  steps R m ->
  (forall a, triple (R s0) (k a) Q) ->
  (forall e s, R s0 s -> Q (Exc e) s) ->
  triple (R s0) (bind m k) Q.
Proof.
  intros Hm Hk He s Hs. rewrite bind_run. specialize (Hm s).
  destruct (m s) as [[a|e] s1]; simpl in Hm.
  - apply Hk. by etrans.
  - simpl. apply He. by etrans.
Qed.

Lemma triple_ret {A} (P : obj -> Prop) (a : A) (Q : res A -> obj -> Prop) :
  (forall s, P s -> Q (Ret a) s) -> triple P (ret a) Q.
Proof. intros H s Hs. by apply H. Qed.

End StepRules.

(** Take a [steps] goal apart along the structure of the program. *)
Ltac steps_go :=
  repeat first
    [ assumption
    | solve [eauto 3 with steps]
    | apply steps_ret; [typeclasses eauto]
    | apply steps_raise; [typeclasses eauto]
    | apply steps_gets; [typeclasses eauto]
    | apply steps_bind; [typeclasses eauto| |intros ?]
    | apply steps_try_timeout; [typeclasses eauto| |]
    | apply steps_try_catch; [typeclasses eauto| |intros ?]
    | apply steps_for_loop; [typeclasses eauto|intros ?]
    | match goal with
      | |- steps _ (if ?b then _ else _) => destruct b
      | |- steps _ (match ?x with _ => _ end) => destruct x
      | |- steps _ (let _ := _ in _) => cbv zeta
      end ].

Create HintDb steps.
Create HintDb triples.
#[global] Hint Extern 0 (Stepping _) => typeclasses eauto : steps.

Section Core.
Variable oracle : nat -> answer.
Variable selected_countries : list (string * string).
Context (R : relation obj) `{!Stepping R}.

Lemma steps_ask {A} (f : answer -> A) : steps R (ask oracle f).
Proof. intros s. apply stepping_bump. Qed.

Lemma steps_drv {A} (f : answer -> A) : steps R (drv oracle f).
Proof. intros s. apply stepping_bump. Qed.

Hint Resolve steps_ask steps_drv : steps.
Hint Unfold time_time wait_until execute_script find_element click clear
     driver_get refresh current_url element_text is_displayed is_enabled
     get_balance get_number_status get_prices : steps.

Lemma steps_emit_status aid k : steps R (emit (EvSetStatus aid k)).
Proof. intros s. apply stepping_status. Qed.

Lemma steps_set_status aid k : steps R (set_status oracle aid k).
Proof. unfold set_status. steps_go. apply steps_emit_status. Qed.

Lemma steps_exclude c : steps R (exclude c).
Proof. intros s. apply stepping_exclude. Qed.

Lemma steps_release : steps R (modify (set_current_activation None)).
Proof. intros s. apply stepping_release. Qed.

Lemma steps_set_state v : steps R (modify (set_state v)).
Proof. intros s. apply stepping_state. Qed.

Lemma steps_set_available v : steps R (modify (set_available_numbers v)).
Proof. intros s. apply stepping_available. Qed.

Hint Resolve steps_emit_status steps_set_status steps_exclude steps_release
     steps_set_state steps_set_available : steps.

Lemma steps_poll_sms aid n : steps R (poll_sms oracle aid n).
Proof. induction n as [|n IH]; cbn [poll_sms]; steps_go. Qed.

Lemma steps_get_sms_code aid n i : steps R (get_sms_code oracle aid n i).
Proof. apply steps_poll_sms. Qed.

Lemma steps__check_phone_screen : steps R (_check_phone_screen oracle).
Proof. unfold _check_phone_screen. steps_go. Qed.

Lemma steps__element_exists : steps R (_element_exists oracle).
Proof. unfold _element_exists. steps_go. Qed.

Hint Resolve steps_get_sms_code steps__check_phone_screen
     steps__element_exists : steps.

Lemma steps__ensure_phone_verification_screen n :
  steps R (_ensure_phone_verification_screen oracle n).
Proof.
  unfold _ensure_phone_verification_screen, ensure_screen_attempt,
    try_next_button.
  steps_go.
Qed.

Lemma steps_availability_loop cs acc : steps R (availability_loop oracle cs acc).
Proof.
  revert acc.
  induction cs as [|[c n] cs IH]; intros acc; cbn [availability_loop]; steps_go.
Qed.

Hint Resolve steps_availability_loop : steps.

Lemma steps__check_number_availability :
  steps R (_check_number_availability oracle selected_countries).
Proof. unfold _check_number_availability. steps_go. Qed.

Hint Resolve steps__check_number_availability : steps.

Lemma steps__validate_initial_conditions :
  steps R (_validate_initial_conditions oracle selected_countries).
Proof. unfold _validate_initial_conditions. steps_go. Qed.

Lemma steps__cancel_number : steps R (_cancel_number oracle).
Proof. unfold _cancel_number. steps_go. Qed.

Hint Resolve steps__cancel_number : steps.

Lemma steps__ensure_final_cleanup : steps R (_ensure_final_cleanup oracle).
Proof. unfold _ensure_final_cleanup. steps_go. Qed.

Lemma steps__cancel_current_number : steps R (_cancel_current_number oracle).
Proof. unfold _cancel_current_number. steps_go. Qed.

Hint Resolve steps__cancel_current_number : steps.

Lemma steps__submit_phone_number : steps R (_submit_phone_number oracle).
Proof.
  unfold _submit_phone_number, locate_phone_input, try_format.
  steps_go.
Qed.

Hint Resolve steps__submit_phone_number : steps.

Lemma steps_resend_iteration aid start k code :
  steps R (resend_iteration oracle aid start k code).
Proof.
  unfold resend_iteration, try_resend_button, click_strategies.
  steps_go.
Qed.

Hint Resolve steps_resend_iteration : steps.

Lemma steps_resend_loop left aid start k code :
  steps R (resend_loop oracle left aid start k code).
Proof.
  revert k code.
  induction left as [|left IH]; intros k code; cbn [resend_loop]; steps_go.
Qed.

Lemma steps_locate_code_input : steps R (locate_code_input oracle).
Proof. unfold locate_code_input. steps_go. Qed.

Lemma steps_check_error_message msg : steps R (check_error_message oracle msg).
Proof. unfold check_error_message. steps_go. Qed.

End Core.

(** *** The rest of the run, for relations that also allow the purchase and
    the success path *)

Section Run.
Variable oracle : nat -> answer.
Variable selected_countries : list (string * string).
Context (R : relation obj) `{!SteppingRun oracle selected_countries R}.

Hint Resolve steps_ask steps_drv steps_emit_status steps_set_status steps_exclude
     steps_release steps_set_state steps_get_sms_code steps__check_phone_screen
     steps__element_exists steps__ensure_phone_verification_screen
     steps__validate_initial_conditions steps__cancel_number
     steps__ensure_final_cleanup steps__cancel_current_number
     steps__submit_phone_number steps_resend_loop steps_locate_code_input
     steps_check_error_message run_get_new_number : steps.
Hint Unfold time_time wait_until execute_script find_element click clear
     driver_get refresh current_url element_text is_displayed is_enabled : steps.

Lemma steps_set_activation v : steps R (modify (set_current_activation v)).
Proof. intros s. apply run_activation. Qed.

Lemma steps_set_phone_manager v : steps R (modify (set_phone_manager v)).
Proof. intros s. apply run_phone_manager. Qed.

Hint Resolve steps_set_activation steps_set_phone_manager : steps.

Lemma steps_store_number : steps R (store_number oracle).
Proof. unfold store_number. steps_go. Qed.

Hint Resolve steps_store_number : steps.

Lemma steps_confirm_success aid : steps R (confirm_success oracle aid).
Proof. unfold confirm_success. steps_go. Qed.

Hint Resolve steps_confirm_success : steps.

Lemma steps_enter_code aid code : steps R (enter_code oracle aid code).
Proof. unfold enter_code. steps_go. Qed.

Hint Resolve steps_enter_code : steps.

Lemma steps__handle_sms_verification : steps R (_handle_sms_verification oracle).
Proof. unfold _handle_sms_verification. steps_go. Qed.

Hint Resolve steps__handle_sms_verification : steps.

Lemma steps__try_verification_cycle :
  steps R (_try_verification_cycle oracle selected_countries).
Proof. unfold _try_verification_cycle. steps_go. Qed.

Hint Resolve steps__try_verification_cycle : steps.

Lemma steps_attempts_loop left n :
  steps R (attempts_loop oracle selected_countries left n).
Proof.
  revert n. induction left as [|left IH]; intros n; cbn [attempts_loop]; steps_go.
Qed.

Hint Resolve steps_attempts_loop : steps.

Lemma steps_handle_verification :
  steps R (handle_verification oracle selected_countries).
Proof.
  unfold handle_verification.
  apply steps_try_finally; [typeclasses eauto| |by auto with steps].
  steps_go.
Qed.
End Run.

(** One pass of the purchase loop, written out. *)
Lemma buy_loop_cons oracle c p l s :
  buy_loop oracle ((c, p) :: l) s =
  let r := a_buy (oracle (tick s)) in
  let s1 := add_event (EvBuy c r) (bump s) in
  if truthy (snd <$> r) then
    (Ret (Some (ActivationInfo.Make (default "" (fst <$> r)) (default "" (snd <$> r))
                                    c (a_time (oracle (tick s1))) NUMBER_RECEIVED
                                    0 1200)),
     bump (set_phone_number (snd <$> r) s1))
  else
    buy_loop oracle l
      (add_event (EvExclude c)
                 (set_used_countries ({[c]} ∪ used_countries s1) s1)).
Proof.
  cbn [buy_loop]. unfold buy_number, exclude, time_time, bind, ask, emit, modify, ret.
  cbv zeta. by destruct (truthy _).
Qed.

(** ** The country exclusion set *)

Lemma excluded_after_app used l1 l2 :
  excluded_after used (l1 ++ l2) = excluded_after (excluded_after used l1) l2.
Proof. revert used. induction l1 as [|[] l1 IH]; intros used; simpl; auto. Qed.

Lemma buys_avoid_app used l1 l2 :
  buys_avoid used (l1 ++ l2) <->
  buys_avoid used l1 /\ buys_avoid (excluded_after used l1) l2.
Proof.
  revert used. induction l1 as [|[] l1 IH]; intros used; simpl;
    rewrite ?IH; tauto.
Qed.

Lemma excluded_after_grows used l : used ⊆ excluded_after used l.
Proof.
  revert used. induction l as [|[] l IH]; intros used; simpl; auto.
  etrans; [|apply IH]. set_solver.
Qed.

Lemma elem_of_excluded_after used l c :
  c ∈ excluded_after used l <-> c ∈ used \/ EvExclude c ∈ l.
Proof.
  revert used. induction l as [|e l IH]; intros used; simpl.
  - set_solver.
  - destruct e; rewrite IH; set_solver.
Qed.

Lemma buys_avoid_split used l1 c r l2 :
  buys_avoid used (l1 ++ EvBuy c r :: l2) -> (c ∉ used) /\ (EvExclude c ∉ l1).
Proof.
  rewrite buys_avoid_app. simpl. intros (_ & Hc & _).
  rewrite elem_of_excluded_after in Hc. tauto.
Qed.

#[global] Instance exclusion_run_preorder : PreOrder exclusion_run.
Proof.
  split.
  - intros s. exists []. by rewrite app_nil_r.
  - intros a b c (l1 & Hl1 & Hu1 & Hb1) (l2 & Hl2 & Hu2 & Hb2).
    exists (l1 ++ l2). split; [|split].
    + by rewrite Hl2, Hl1, app_assoc.
    + by rewrite excluded_after_app, <- Hu1.
    + apply buys_avoid_app. by rewrite <- Hu1.
Qed.

Lemma exclusion_run_same s s' :
  log s' = log s -> used_countries s' = used_countries s -> exclusion_run s s'.
Proof. intros Hl Hu. exists []. by rewrite app_nil_r. Qed.

#[global] Instance exclusion_run_stepping : Stepping exclusion_run.
Proof.
  split; try (intros; by apply exclusion_run_same).
  - apply _.
  - intros aid k s. by exists [EvSetStatus aid k].
  - intros c s. by exists [EvExclude c].
Qed.

Section Exclusion.
Variable oracle : nat -> answer.
Variable selected_countries : list (string * string).
Hypothesis countries_NoDup : NoDup (selected_countries.*1).

Lemma filtered_prices_countries used prices :
  NoDup ((filtered_prices selected_countries used prices).*1)
  /\ forall c, c ∈ (filtered_prices selected_countries used prices).*1 ->
               c ∈ selected_countries.*1 /\ c ∉ used.
Proof.
  unfold filtered_prices.
  assert (NoDup (List.filter (fun code => negb (bool_decide (code ∈ used)))
                             (selected_countries.*1))
          /\ forall c, c ∈ List.filter (fun code => negb (bool_decide (code ∈ used)))
                             (selected_countries.*1) ->
                       c ∈ selected_countries.*1 /\ c ∉ used) as [Hnd Hin].
  { split.
    - apply NoDup_ListNoDup, List.NoDup_filter, NoDup_ListNoDup, countries_NoDup.
    - intros c Hc. apply list_elem_of_In, filter_In in Hc as [Hc Hu].
      split; [by apply list_elem_of_In|].
      by apply negb_true_iff, bool_decide_eq_false in Hu. }
  revert Hnd Hin.
  generalize (List.filter (fun code => negb (bool_decide (code ∈ used)))
                          (selected_countries.*1)).
  intros l. induction l as [|c l IH]; intros Hnd Hin; simpl.
  - split; [constructor|]. intros c Hc. by apply elem_of_nil in Hc.
  - apply NoDup_cons in Hnd as [Hc Hnd].
    destruct IH as [IH1 IH2]; [done|intros c' Hc'; apply Hin; set_solver|].
    assert (forall c', c' ∈ (omap (fun country =>
               match prices !! country with
               | Some services =>
                   match services !! "go" with
                   | Some info => Some (country, cost info)
                   | None => None
                   end
               | None => None
               end) l).*1 -> c' ∈ l) as Hsub.
    { clear. induction l as [|d l IH]; simpl; [done|].
      intros c'. destruct (prices !! d) as [srv|]; [destruct (srv !! "go")|];
        simpl; set_solver. }
    destruct (prices !! c) as [srv|]; [destruct (srv !! "go") as [info|]|]; simpl.
    + split.
      * apply NoDup_cons. split; [|done]. intros Hin'. by apply Hc, Hsub.
      * intros c' Hc'. apply elem_of_cons in Hc' as [->|Hc'];
          [apply Hin; set_solver|by apply IH2].
    + by split.
    + by split.
Qed.

Lemma sorted_prices_countries used prices :
  NoDup ((sorted_prices selected_countries used prices).*1)
  /\ forall c, c ∈ (sorted_prices selected_countries used prices).*1 ->
               c ∈ selected_countries.*1 /\ c ∉ used.
Proof.
  destruct (filtered_prices_countries used prices) as [Hnd Hin].
  assert ((sorted_prices selected_countries used prices).*1
          ≡ₚ (filtered_prices selected_countries used prices).*1) as Hp.
  { unfold sorted_prices. apply fmap_Permutation, sort_by_perm. }
  split.
  - by rewrite Hp.
  - intros c Hc. rewrite Hp in Hc. by apply Hin.
Qed.

(** The purchase loop respects the exclusion policy when it runs over
    distinct countries outside the exclusion set. *)
Lemma buy_loop_exclusion_run l s :
  NoDup (l.*1) -> (forall c, c ∈ l.*1 -> c ∉ used_countries s) ->
  exclusion_run s (buy_loop oracle l s).2.
Proof.
  revert s. induction l as [|[c p] l IH]; intros s Hnd Hout.
  - reflexivity.
  - simpl in Hnd. apply NoDup_cons in Hnd as [Hc Hnd].
    rewrite buy_loop_cons. cbv zeta.
    destruct (truthy (snd <$> a_buy (oracle (tick s)))) eqn:Hbought.
    + exists [EvBuy c (a_buy (oracle (tick s)))]. simpl.
      split; [done|]. split; [done|]. split; [|done].
      apply Hout. set_solver.
    + etrans; [|apply IH; [done|]].
      * exists [EvBuy c (a_buy (oracle (tick s))); EvExclude c]. simpl.
        split; [by rewrite <- app_assoc|]. split; [done|]. split; [|done].
        apply Hout. set_solver.
      * intros c' Hc'. simpl. intros Hin.
        apply elem_of_union in Hin as [Hin|Hin].
        -- apply elem_of_singleton in Hin. by subst.
        -- revert Hin. apply Hout. set_solver.
Qed.

Lemma steps__get_new_number_exclusion :
  steps exclusion_run (_get_new_number oracle selected_countries).
Proof.
  intros s. unfold _get_new_number, try_catch.
  rewrite bind_run. cbn [gets].
  destruct (List.filter _ _) as [|c0 cs]; [reflexivity|].
  rewrite bind_run. unfold get_prices. cbn [ask].
  assert (exclusion_run s (bump s)) as Hbump by apply stepping_bump.
  destruct (a_prices (oracle (tick s))) as [prices|]; [|done].
  case_bool_decide; [done|].
  destruct (sorted_prices_countries (used_countries s) prices) as [Hnd Hin].
  destruct (sorted_prices selected_countries (used_countries s) prices)
    as [|p l] eqn:Hsorted; [done|].
  assert (exclusion_run (bump s) (buy_loop oracle (p :: l) (bump s)).2) as Hloop.
  { apply buy_loop_exclusion_run; [done|]. intros c Hc. by apply Hin. }
  destruct (buy_loop oracle (p :: l) (bump s)) as [[r|e] s']; simpl in *;
    by etrans.
Qed.

#[local] Instance exclusion_run_run :
  SteppingRun oracle selected_countries exclusion_run.
Proof.
  split.
  - apply _.
  - intros v s. by apply exclusion_run_same.
  - intros v s. by apply exclusion_run_same.
  - apply steps__get_new_number_exclusion.
Qed.

(** C5: in one run of [handle_verification] the exclusion set only grows,
    the additions being exactly the [used_countries.add] calls of the run,
    and no [buy_number] call targets a country that was in the set when
    the run started or that was added to it earlier in the run, whatever
    the price tables say. *)
Theorem used_countries_only_grows s :
  exists l,
    log (handle_verification oracle selected_countries s).2 = log s ++ l
    /\ used_countries s ⊆ used_countries (handle_verification oracle selected_countries s).2
    /\ (forall c, c ∈ used_countries (handle_verification oracle selected_countries s).2
                  <-> c ∈ used_countries s \/ EvExclude c ∈ l)
    /\ buys_avoid (used_countries s) l
    /\ forall l1 c r l2, l = l1 ++ EvBuy c r :: l2 ->
                         (c ∉ used_countries s) /\ (EvExclude c ∉ l1).
Proof.
  destruct (steps_handle_verification oracle selected_countries exclusion_run s)
    as (l & Hlog & Hused & Hbuys).
  exists l. split; [done|]. rewrite Hused. split; [apply excluded_after_grows|].
  split; [intros c; apply elem_of_excluded_after|]. split; [done|].
  intros l1 c r l2 ->. by eapply buys_avoid_split.
Qed.
End Exclusion.

(** ** Acquiring a number *)

Lemma truthy_Some (r : option (string * string)) :
  truthy (snd <$> r) = true ->
  exists aid phone, r = Some (aid, phone) /\ phone <> "".
Proof.
  destruct r as [[aid phone]|]; simpl; [|done].
  intros H. exists aid, phone. split; [done|].
  by apply negb_true_iff, bool_decide_eq_false in H.
Qed.

Section Acquire.
Variable oracle : nat -> answer.
Variable selected_countries : list (string * string).

(** What the purchase loop does over the candidates [l]: it buys along [l]
    until a purchase yields a number; the countries tried before that are
    all added to the exclusion set; nothing else of the object changes. *)
Lemma buy_loop_spec l s :
  exists failed evs,
    failed_buys failed evs
    /\ used_countries (buy_loop oracle l s).2
       = list_to_set (failed.*1) ∪ used_countries s
    /\ phone_manager (buy_loop oracle l s).2 = phone_manager s
    /\ current_activation (buy_loop oracle l s).2 = current_activation s
    /\ state (buy_loop oracle l s).2 = state s
    /\ match (buy_loop oracle l s).1 with
       | Ret (Some act) =>
           exists p rest,
             l = failed ++ (ActivationInfo.country_code act, p) :: rest
             /\ log (buy_loop oracle l s).2
                = log s ++ evs ++ [EvBuy (ActivationInfo.country_code act)
                                         (Some (ActivationInfo.activation_id act,
                                                ActivationInfo.phone_number act))]
             /\ ActivationInfo.phone_number act <> ""
             /\ phone_number (buy_loop oracle l s).2
                = Some (ActivationInfo.phone_number act)
       | Ret None =>
           l = failed
           /\ log (buy_loop oracle l s).2 = log s ++ evs
           /\ phone_number (buy_loop oracle l s).2 = phone_number s
       | Exc _ => False
       end.
Proof.
  revert s. induction l as [|[c p] l IH]; intros s.
  - exists [], []. simpl. rewrite app_nil_r.
    split; [constructor|]. split; [set_solver|]. done.
  - rewrite buy_loop_cons. cbv zeta.
    destruct (truthy (snd <$> a_buy (oracle (tick s)))) eqn:Hbought.
    + apply truthy_Some in Hbought as (aid & phone & Hr & Hphone).
      rewrite Hr. simpl.
      exists [], []. split; [constructor|]. split; [set_solver|].
      do 3 (split; [done|]). by exists p, l.
    + match goal with
      | |- context [buy_loop oracle l ?s1] =>
          destruct (IH s1)
            as (failed & evs & Hfail & Hused & Hpm & Hact & Hst & Hres)
      end.
      exists ((c, p) :: failed), (EvBuy c (a_buy (oracle (tick s))) :: EvExclude c :: evs).
      split; [by constructor|].
      split; [rewrite Hused; simpl; set_solver|].
      do 3 (split; [done|]).
      destruct (buy_loop oracle l _).1 as [[act|]|e]; [| |done].
      * destruct Hres as (p' & rest & -> & Hlog & Hne & Hphone).
        exists p', rest. split; [done|]. split; [|done].
        rewrite Hlog. simpl. by rewrite <- !app_assoc.
      * destruct Hres as (-> & Hlog & Hphone). split; [done|]. split; [|done].
        rewrite Hlog. simpl. by rewrite <- !app_assoc.
Qed.

Lemma buy_loop_no_exc l s :
  match (buy_loop oracle l s).1 with Ret _ => True | Exc _ => False end.
Proof.
  destruct (buy_loop_spec l s) as (? & ? & _ & _ & _ & _ & _ & Hres).
  by destruct (buy_loop oracle l s).1 as [[?|]|?].
Qed.

(** [_get_new_number] is the purchase loop over the candidates, after one
    price query when some allowed country is left. *)
Lemma _get_new_number_run s :
  exists s1,
    _get_new_number oracle selected_countries s
    = buy_loop oracle (candidates oracle selected_countries s) s1
    /\ (s1 = s \/ s1 = bump s).
Proof.
  unfold _get_new_number, candidates, try_catch, sorted_prices, filtered_prices.
  rewrite bind_run. cbn [gets].
  destruct (List.filter _ _) as [|c0 cs] eqn:Hfilter.
  - exists s. split; [|by left]. simpl. by destruct (a_prices _).
  - rewrite bind_run. unfold get_prices. cbn [ask].
    exists (bump s). split; [|by right].
    destruct (a_prices (oracle (tick s))) as [prices|]; [|done].
    case_bool_decide as Hempty.
    + subst prices. cbn [buy_loop].
      assert (omap (fun country : string =>
                 match (∅ : gmap string (gmap string price_info)) !! country with
                 | Some services =>
                     match services !! "go" with
                     | Some info => Some (country, cost info)
                     | None => None
                     end
                 | None => None
                 end) (c0 :: cs) = []) as ->; [|done].
      generalize (c0 :: cs). intros l. induction l as [|d l IHl]; [done|].
      simpl. by rewrite lookup_empty.
    + destruct (sort_by _ _ _) eqn:Hsort; [done|].
      pose proof (buy_loop_no_exc (p :: l) (bump s)) as Hret.
      by destruct (buy_loop oracle _ (bump s)) as [[r|e] s'].
Qed.

Lemma candidates_sorted s :
  StronglySorted (fun x y => (x.2 <= y.2)%Q) (candidates oracle selected_countries s).
Proof.
  unfold candidates. destruct (a_prices _) as [prices|]; [|constructor].
  unfold sorted_prices.
  assert (StronglySorted (key_le Qle_bool snd)
            (sort_by Qle_bool snd
               (filtered_prices selected_countries (used_countries s) prices)))
    as Hsorted.
  { apply sort_by_sorted.
    - intros a b. rewrite !Qle_bool_iff.
      destruct (Qlt_le_dec b a); [right; by apply Qlt_le_weak|by left].
    - intros a b c. rewrite !Qle_bool_iff. apply Qle_trans. }
  induction Hsorted as [|x l Hs IH Hall]; constructor; [done|].
  eapply Forall_impl; [exact Hall|]. intros y Hy. by apply Qle_bool_iff.
Qed.

Lemma elem_of_filtered_prices used prices c p :
  (c, p) ∈ filtered_prices selected_countries used prices <->
  c ∈ selected_countries.*1 /\ (c ∉ used)
  /\ exists services info,
       prices !! c = Some services /\ services !! "go" = Some info /\ p = cost info.
Proof.
  unfold filtered_prices. rewrite list_elem_of_omap. split.
  - intros (c' & Hin & Hc').
    apply list_elem_of_In, filter_In in Hin as [Hin Hu].
    apply list_elem_of_In in Hin.
    apply negb_true_iff, bool_decide_eq_false in Hu.
    destruct (prices !! c') as [services|] eqn:Hp; [|done].
    destruct (services !! "go") as [info|] eqn:Hs; [|done].
    injection Hc' as <- <-. eauto 10.
  - intros (Hin & Hu & services & info & Hp & Hs & ->).
    exists c. split.
    + apply list_elem_of_In, filter_In. split; [by apply list_elem_of_In|].
      by apply negb_true_iff, bool_decide_eq_false.
    + by rewrite Hp, Hs.
Qed.

Lemma elem_of_candidates s c p :
  (c, p) ∈ candidates oracle selected_countries s <->
  c ∈ selected_countries.*1 /\ (c ∉ used_countries s)
  /\ exists prices services info,
       a_prices (oracle (tick s)) = Some prices
       /\ prices !! c = Some services /\ services !! "go" = Some info
       /\ p = cost info.
Proof.
  unfold candidates. destruct (a_prices _) as [prices|].
  - unfold sorted_prices. rewrite sort_by_perm, elem_of_filtered_prices.
    naive_solver.
  - rewrite elem_of_nil. naive_solver.
Qed.

(** X25: how [_get_new_number] buys. Its candidates are the allowed
    countries outside the exclusion set that the price query lists for
    "go", in ascending order of price; it buys along them until a purchase
    yields a number; every country whose purchase reported no number is
    added to the exclusion set; the phone manager is left as it was. *)
Theorem get_new_number_buys_by_price s :
  let cands := candidates oracle selected_countries s in
  let run := _get_new_number oracle selected_countries s in
  StronglySorted (fun x y => (x.2 <= y.2)%Q) cands
  /\ (forall c p, (c, p) ∈ cands <->
        c ∈ selected_countries.*1 /\ (c ∉ used_countries s)
        /\ exists prices services info,
             a_prices (oracle (tick s)) = Some prices
             /\ prices !! c = Some services /\ services !! "go" = Some info
             /\ p = cost info)
  /\ phone_manager run.2 = phone_manager s
  /\ exists failed evs,
       failed_buys failed evs
       /\ used_countries run.2 = list_to_set (failed.*1) ∪ used_countries s
       /\ match run.1 with
          | Ret (Some act) =>
              exists p rest,
                cands = failed ++ (ActivationInfo.country_code act, p) :: rest
                /\ log run.2
                   = log s ++ evs ++ [EvBuy (ActivationInfo.country_code act)
                                            (Some (ActivationInfo.activation_id act,
                                                   ActivationInfo.phone_number act))]
                /\ ActivationInfo.phone_number act <> ""
          | Ret None => cands = failed /\ log run.2 = log s ++ evs
          | Exc _ => False
          end.
Proof.
  intros cands run. split; [apply candidates_sorted|].
  split; [apply elem_of_candidates|].
  destruct (_get_new_number_run s) as (s1 & Hrun & Hs1).
  subst run cands. rewrite Hrun.
  destruct (buy_loop_spec (candidates oracle selected_countries s) s1)
    as (failed & evs & Hfail & Hused & Hpm & _ & _ & Hres).
  assert (phone_manager s1 = phone_manager s /\ used_countries s1 = used_countries s
          /\ log s1 = log s) as (Hpm1 & Hused1 & Hlog1)
    by (by destruct Hs1 as [->| ->]).
  split; [congruence|].
  exists failed, evs. split; [done|]. split; [congruence|].
  destruct (buy_loop oracle _ s1).1 as [[act|]|e]; [| |done].
  - destruct Hres as (p & rest & Hl & Hlog & Hne & _).
    exists p, rest. rewrite Hlog, Hlog1. done.
  - destruct Hres as (Hl & Hlog & _). by rewrite Hlog, Hlog1.
Qed.
End Acquire.

(** ** Relations without a purchase *)

#[global] Instance no_purchase_preorder : PreOrder no_purchase.
Proof.
  split.
  - intros s. exists []. split; [by rewrite app_nil_r|]. intros c r. apply not_elem_of_nil.
  - intros a b c (l1 & Hl1 & Hn1) (l2 & Hl2 & Hn2). exists (l1 ++ l2).
    split; [by rewrite Hl2, Hl1, app_assoc|].
    intros d r Hin. apply elem_of_app in Hin as [Hin|Hin]; [by eapply Hn1|by eapply Hn2].
Qed.

#[global] Instance no_purchase_stepping : Stepping no_purchase.
Proof.
  assert (forall s s', log s' = log s -> no_purchase s s') as Hsame.
  { intros s s' Hlog. exists []. split; [by rewrite app_nil_r|].
    intros c r. apply not_elem_of_nil. }
  split; [apply _|..]; intros.
  1-4: by apply Hsame.
  - exists [EvSetStatus aid k]. split; [done|]. intros d r Hin.
    by apply list_elem_of_singleton in Hin.
  - exists [EvExclude c]. split; [done|]. intros d r Hin.
    by apply list_elem_of_singleton in Hin.
Qed.

Lemma no_purchase_prefix s s' : no_purchase s s' -> log s `prefix_of` log s'.
Proof. intros (l & Hl & _). by exists l. Qed.

(** ** The success path *)

#[global] Instance held_run_preorder : PreOrder held_run.
Proof.
  split.
  - intros s. split; [done|]. split; [done|]. split; [by left|reflexivity].
  - intros a b c (Hpm1 & Hph1 & Hact1 & Hlog1) (Hpm2 & Hph2 & Hact2 & Hlog2).
    split; [congruence|]. split; [congruence|]. split; [|by etrans].
    destruct Hact2 as [Hact2|Hact2]; [|by right].
    rewrite Hact2. exact Hact1.
Qed.

#[global] Instance store_kept_preorder : PreOrder store_kept.
Proof.
  split.
  - intros s. by split.
  - intros a b c [Hpm1 Hlog1] [Hpm2 Hlog2]. split; [congruence|by etrans].
Qed.

#[global] Instance held_run_stepping : Stepping held_run.
Proof.
  split; [apply _|..]; intros;
    (split; [done|]; split; [done|]; split; [by auto|]).
  - apply stepping_bump.
  - apply stepping_state.
  - apply stepping_available.
  - apply stepping_release.
  - apply stepping_status.
  - apply stepping_exclude.
Qed.

#[global] Instance store_kept_stepping : Stepping store_kept.
Proof.
  split; [apply _|..]; intros; unfold store_kept; simpl.
  all: split; [done|].
  all: first [reflexivity | apply prefix_app_r; reflexivity].
Qed.

Lemma held_run_store_kept s s' : held_run s s' -> store_kept s s'.
Proof. intros (Hpm & _ & _ & Hlog). split; [done|by apply no_purchase_prefix]. Qed.

Section Success.
Variable oracle : nat -> answer.
Variable selected_countries : list (string * string).

(** A loop whose passes only fall through or return [False] ends without a
    result or with [False]. *)
Lemma for_loop_only_false {A} (l : list A) (body : A -> M (ctl bool)) :
  (forall x s, (body x s).1 = Ret Next \/ (body x s).1 = Ret (Return false)) ->
  forall s, (for_loop l body s).1 = Ret None \/ (for_loop l body s).1 = Ret (Some false).
Proof.
  intros Hbody. induction l as [|x l IH]; intros s; [by left|].
  cbn [for_loop]. rewrite bind_run. specialize (Hbody x s).
  destruct (body x s) as [[[| |[]]|e] s1]; simpl in Hbody;
    destruct Hbody as [?|?]; try discriminate; [apply IH|by right].
Qed.

Lemma check_error_message_result msg s :
  (check_error_message oracle msg s).1 = Ret Next
  \/ (check_error_message oracle msg s).1 = Ret (Return false).
Proof.
  unfold check_error_message, try_catch. rewrite bind_run.
  destruct (_element_exists oracle s) as [[[]|e] s1]; [| |by left].
  - rewrite bind_run.
    destruct (_cancel_current_number oracle s1) as [[[]|e] s2]; [by right|by left].
  - destruct (str_in _ _); [|by left]. rewrite bind_run.
    destruct (_element_exists oracle s1) as [[[]|e] s2]; [| |by left]; [|by left].
    rewrite bind_run.
    destruct (_cancel_current_number oracle s2) as [[[]|e] s3]; [by right|by left].
Qed.

(** The end of the success path: the status call is the last call of the
    log, the state is COMPLETED, and the number goes to the store when a
    phone manager is attached and the activation is still held. *)
Lemma confirm_success_spec aid s :
  exists s',
    confirm_success oracle aid s = (Ret true, s')
    /\ log s' = log s ++ [EvSetStatus aid 8]
    /\ state s' = COMPLETED
    /\ current_activation s' = current_activation s
    /\ match phone_manager s, current_activation s with
       | Some pm, Some a =>
           exists now,
             phone_manager s' =
             Some (PhoneManager.add_number now (phone_number s)
                     (Some (ActivationInfo.country_code a))
                     (Some (ActivationInfo.activation_id a)) "gmail" pm).2
       | _, _ => phone_manager s' = phone_manager s
       end.
Proof.
  unfold confirm_success, store_number, set_status, try_catch, bind, emit,
    modify, gets, ask, time_time, ret, raise. simpl.
  destruct (phone_manager s) as [pm|] eqn:Hpm; simpl.
  - destruct (current_activation s) as [a|] eqn:Hact; simpl.
    + destruct (truthy (phone_number s) && _ && _); simpl;
        eexists; (split; [reflexivity|]); simpl; rewrite ?Hpm, ?Hact;
        repeat split; eauto.
    + eexists. split; [reflexivity|]. simpl. by rewrite Hpm, Hact.
  - eexists. split; [reflexivity|]. simpl. by rewrite Hpm.
Qed.

Lemma triple_bind_result {A B} (R : relation obj) `{!PreOrder R} s0
      (m : M A) (k : A -> M B) (ok : A -> Prop) Q :
  steps R m ->
  (forall s, match (m s).1 with Ret a => ok a | Exc _ => True end) ->
  (forall a, ok a -> triple (R s0) (k a) Q) ->
  (forall e s, R s0 s -> Q (Exc e) s) ->
  triple (R s0) (bind m k) Q.
Proof.
  intros Hm Hok Hk He s Hs. rewrite bind_run.
  specialize (Hm s). specialize (Hok s).
  destruct (m s) as [[a|e] s1]; simpl in *.
  - apply Hk; [done|]. by etrans.
  - apply He. by etrans.
Qed.

Hint Resolve steps_ask steps_drv steps_emit_status steps_set_status steps_exclude
     steps_release steps_set_state steps_get_sms_code steps__check_phone_screen
     steps__element_exists steps__ensure_phone_verification_screen
     steps__validate_initial_conditions steps__cancel_number
     steps__ensure_final_cleanup steps__cancel_current_number
     steps__submit_phone_number steps_resend_loop steps_locate_code_input
     steps_check_error_message : steps.
Hint Unfold time_time wait_until execute_script find_element click clear
     driver_get refresh current_url element_text is_displayed is_enabled : steps.

Lemma triple_try_catch_rel {A} (R : relation obj) s0 (m : M A) h Q :
  triple (R s0) m Q ->
  (forall e s, Q (Exc e) s -> R s0 s) ->
  (forall e, triple (R s0) (h e) Q) ->
  triple (R s0) (try_catch m h) Q.
Proof.
  intros Hm HQ Hh s Hs. unfold try_catch. specialize (Hm s Hs).
  destruct (m s) as [[a|e] s1]; simpl in Hm; [done|].
  apply Hh. by eapply HQ.
Qed.

(** Follow the program along [bind]s of code that respects the relation. *)
Ltac triple_go :=
  repeat first
    [ solve [auto 1 with triples]
    | apply triple_ret; intros ? ?; assumption
    | match goal with
      | |- triple _ (bind (for_loop error_messages _) _) _ => fail 2
      end
    | apply triple_bind_steps;
        [typeclasses eauto|steps_go|intros ?|intros ? ? ?; assumption]
    | apply triple_try_catch_rel; [|intros ? ? ?; assumption|intros ?]
    | match goal with
      | |- triple _ (if ?b then _ else _) _ => destruct b
      | |- triple _ (let _ := _ in _) _ => cbv zeta
      end ].

Lemma enter_code_triple aid code s0 :
  triple (held_run s0) (enter_code oracle aid code) (sms_post oracle aid s0).
Proof.
  unfold enter_code. triple_go.
  eapply (triple_bind_result held_run s0 _ _
            (fun r => r = None \/ r = Some false)).
  - steps_go.
  - intros s.
    destruct (for_loop_only_false error_messages (check_error_message oracle)
                (check_error_message_result) s) as [-> | ->]; auto.
  - intros r [-> | ->].
    + intros s Hs.
      destruct (confirm_success_spec aid s) as (s' & Hrun & _).
      rewrite Hrun. simpl. eauto.
    + by apply triple_ret.
  - by intros e s Hs.
Qed.

Hint Resolve enter_code_triple : triples.

Lemma _handle_sms_verification_spec s0 :
  match current_activation s0 with
  | Some a =>
      sms_post oracle (ActivationInfo.activation_id a) s0
               (_handle_sms_verification oracle s0).1
               (_handle_sms_verification oracle s0).2
  | None => _handle_sms_verification oracle s0 = (Ret false, s0)
  end.
Proof.
  destruct (current_activation s0) as [a|] eqn:Hact.
  - assert (triple (held_run s0) (_handle_sms_verification oracle)
                   (sms_post oracle (ActivationInfo.activation_id a) s0)) as Ht;
      [|by apply Ht].
    unfold _handle_sms_verification.
    apply triple_try_catch_rel; [|by intros e s Hs|intros e; triple_go].
    intros s Hs. rewrite bind_run. cbn [gets].
    destruct (current_activation s) as [a'|] eqn:Hact'; [|exact Hs].
    assert (a' = a) as ->.
    { destruct Hs as (_ & _ & [Heq|Heq] & _); congruence. }
    revert s Hs Hact'.
    assert (forall m : M bool,
               triple (held_run s0) m (sms_post oracle (ActivationInfo.activation_id a) s0) ->
               forall s, held_run s0 s -> current_activation s = Some a ->
                         sms_post oracle (ActivationInfo.activation_id a) s0 (m s).1 (m s).2)
      as Happ by (intros m Hm s Hs _; by apply Hm).
    apply Happ. triple_go.
  - unfold _handle_sms_verification, try_catch. rewrite bind_run. cbn [gets].
    by rewrite Hact.
Qed.

(** After the number is acquired: submission and SMS verification. *)
Lemma submit_and_verify_spec a s1 :
  current_activation s1 = Some a ->
  let run :=
    bind (_submit_phone_number oracle)
         (fun ok => if negb ok then ret (Some false) else
                    bind (_handle_sms_verification oracle)
                         (fun ok => if negb ok then ret (Some false)
                                    else ret (Some true))) s1 in
  match run.1 with
  | Ret (Some true) =>
      exists s2, held_run s1 s2
        /\ confirm_success oracle (ActivationInfo.activation_id a) s2 = (Ret true, run.2)
  | _ => held_run s1 run.2
  end.
Proof.
  intros Hact run. subst run. rewrite bind_run.
  pose proof (steps__submit_phone_number oracle held_run s1) as Hsub.
  destruct (_submit_phone_number oracle s1) as [[[]|e] s1']; simpl in Hsub;
    [|done|done].
  cbn [negb]. rewrite bind_run.
  pose proof (_handle_sms_verification_spec s1') as Hsms.
  destruct Hsub as (Hpm & Hph & [Hact'|Hact'] & Hlog).
  - rewrite Hact', Hact in Hsms.
    assert (held_run s1 s1') as Hheld by (split; [done|]; split; [done|]; auto).
    destruct (_handle_sms_verification oracle s1') as [[[]|e] s3]; simpl in *.
    + destruct Hsms as (s2 & Hs2 & Hconfirm). exists s2. split; [by etrans|done].
    + by etrans.
    + by etrans.
  - rewrite Hact' in Hsms. rewrite Hsms. simpl.
    split; [done|]. split; [done|]. auto.
Qed.

Lemma _get_new_number_store_kept s :
  store_kept s (_get_new_number oracle selected_countries s).2.
Proof.
  destruct (_get_new_number_run oracle selected_countries s) as (s1 & -> & Hs1).
  destruct (buy_loop_spec oracle (candidates oracle selected_countries s) s1)
    as (failed & evs & _ & _ & Hpm & _ & _ & Hres).
  assert (phone_manager s1 = phone_manager s /\ log s1 = log s) as [Hpm1 Hlog1]
    by (by destruct Hs1 as [->| ->]).
  split; [congruence|].
  destruct (buy_loop oracle _ s1).1 as [[act|]|e]; [| |done].
  - destruct Hres as (p & rest & _ & -> & _). rewrite Hlog1. by apply prefix_app_r.
  - destruct Hres as (_ & -> & _). rewrite Hlog1. by apply prefix_app_r.
Qed.

Lemma acquire_and_verify_triple s0 :
  triple (store_kept s0)
    (bind (_get_new_number oracle selected_countries)
       (fun act =>
          bind (modify (set_current_activation act))
            (fun _ =>
               match act with
               | None => ret (Some false)
               | Some _ =>
                   bind (_submit_phone_number oracle)
                     (fun ok => if negb ok then ret (Some false) else
                        bind (_handle_sms_verification oracle)
                          (fun ok => if negb ok then ret (Some false)
                                     else ret (Some true)))
               end)))
    (cycle_post oracle s0).
Proof.
  intros s Hs. rewrite bind_run.
  pose proof (_get_new_number_store_kept s) as Hkept.
  destruct (_get_new_number_run oracle selected_countries s) as (sa & Hrun & Hsa).
  destruct (buy_loop_spec oracle (candidates oracle selected_countries s) sa)
    as (failed & evs & _ & _ & Hpm & Hcur & _ & Hres).
  assert (phone_manager sa = phone_manager s /\ log sa = log s) as [Hpma Hloga]
    by (by destruct Hsa as [->| ->]).
  rewrite Hrun in *.
  destruct (buy_loop oracle _ sa) as [[[act|]|e] s1]; simpl in *; [| |done].
  - destruct Hres as (p & rest & _ & Hlog & Hne & Hphone).
    rewrite bind_run. cbn [modify].
    pose proof (submit_and_verify_spec act (set_current_activation (Some act) s1)
                  eq_refl) as Hverify.
    cbv zeta in Hverify.
    match type of Hverify with
    | context [bind ?m ?k ?st] => destruct (bind m k st) as [[[[]|]|e] s'] eqn:Hrest
    end; simpl in *.
    + destruct Hverify as (s2 & Hheld & Hconfirm).
      exists s. split; [done|].
      exists act, (set_current_activation (Some act) s1), s2, evs. simpl.
      split; [by rewrite Hlog, Hloga|]. split; [congruence|].
      do 3 (split; [done|]). by split.
    + etrans; [exact Hs|]. etrans; [exact Hkept|].
      etrans; [|apply held_run_store_kept, Hverify]. by split.
    + etrans; [exact Hs|]. etrans; [exact Hkept|].
      etrans; [|apply held_run_store_kept, Hverify]. by split.
    + etrans; [exact Hs|]. etrans; [exact Hkept|].
      etrans; [|apply held_run_store_kept, Hverify]. by split.
  - etrans; [exact Hs|]. etrans; [exact Hkept|]. by split.
Qed.

Hint Resolve acquire_and_verify_triple : triples.

Lemma triple_bind {A B} (P : obj -> Prop) (m : M A) Q1 (k : A -> M B) Q :
  triple P m Q1 ->
  (forall a, triple (Q1 (Ret a)) (k a) Q) ->
  (forall e s, Q1 (Exc e) s -> Q (Exc e) s) ->
  triple P (bind m k) Q.
Proof.
  intros Hm Hk He s Hs. rewrite bind_run. specialize (Hm s Hs).
  destruct (m s) as [[a|e] s1]; simpl in *; [by apply Hk|by apply He].
Qed.

Lemma _try_verification_cycle_triple s0 :
  triple (store_kept s0) (_try_verification_cycle oracle selected_countries)
         (loop_post oracle s0).
Proof.
  unfold _try_verification_cycle.
  apply (triple_bind _ _ (cycle_post oracle s0)).
  - triple_go.
  - intros [[]|]; by apply triple_ret.
  - by intros e s Hs.
Qed.

Lemma attempts_loop_triple left n s0 :
  triple (store_kept s0) (attempts_loop oracle selected_countries left n)
         (loop_post oracle s0).
Proof.
  revert n. induction left as [|left IH]; intros n; cbn [attempts_loop].
  - by apply triple_ret.
  - cbv zeta.
    apply triple_bind_steps;
      [typeclasses eauto
      |case_bool_decide; [apply steps__ensure_phone_verification_screen, _
                         |apply steps_ret, _]
      |intros on_screen|by intros e s Hs].
    destruct on_screen; cbn [negb]; [|apply IH].
    intros s Hs. rewrite bind_run. unfold try_catch.
    pose proof (_try_verification_cycle_triple s0 s Hs) as Hcycle.
    destruct (_try_verification_cycle oracle selected_countries s)
      as [[[]|e] s']; simpl in Hcycle.
    + done.
    + by apply IH.
    + by apply IH.
Qed.

Lemma _ensure_final_cleanup_completed s :
  state s = COMPLETED -> _ensure_final_cleanup oracle s = (Ret tt, s).
Proof.
  intros Hst.
  unfold _ensure_final_cleanup, _cancel_number, try_catch, bind, gets, ret.
  destruct (current_activation s) as [a|] eqn:Hact; [|done].
  rewrite Hact. by rewrite bool_decide_eq_true_2.
Qed.

End Success.

(** ** Runs without a purchase *)

Section NoPurchase.
Variable oracle : nat -> answer.
Variable selected_countries : list (string * string).

(** The final cleanup returns normally and does not touch the
    verification state; with no activation held it does nothing. *)
Lemma _ensure_final_cleanup_returns s :
  (_ensure_final_cleanup oracle s).1 = Ret tt
  /\ state (_ensure_final_cleanup oracle s).2 = state s
  /\ (current_activation s = None -> (_ensure_final_cleanup oracle s).2 = s).
Proof.
  cbv [_ensure_final_cleanup _cancel_number try_catch bind gets ret
       set_status exclude emit modify ask].
  destruct (current_activation s) as [a|] eqn:Hact; [|done].
  rewrite Hact. by case_bool_decide.
Qed.

(** C4: with the phone step on the form and a balance that is [None] or at
    most zero, [handle_verification] returns [False] and makes no
    [buy_number] call. *)
Theorem handle_verification_no_balance s :
  a_exn (oracle (tick s)) = None ->
  match a_balance (oracle (S (tick s))) with
  | None => True
  | Some balance => (balance <= 0)%Q
  end ->
  (handle_verification oracle selected_countries s).1 = Ret false
  /\ no_purchase s (handle_verification oracle selected_countries s).2.
Proof.
  intros Hscreen Hbalance.
  assert (try_catch
            (bind (_check_phone_screen oracle)
               (fun present => if negb present then ret true else
                  bind (_validate_initial_conditions oracle selected_countries)
                    (fun valid => if negb valid then ret false else
                       bind (attempts_loop oracle selected_countries MAX_PHONE_ATTEMPTS 0)
                         (fun success => if negb success then ret false
                                         else ret success))))
            (fun _ => bind (gets state)
               (fun st => bind (if bool_decide (st <> COMPLETED)
                                then _cancel_current_number oracle else ret tt)
                            (fun _ => ret false))) s
          = (Ret false, bump (bump s))) as Hmain.
  { unfold try_catch at 1. rewrite bind_run.
    unfold _check_phone_screen, try_timeout, try_catch, wait_until, drv.
    rewrite bind_run, Hscreen. cbn [ret negb]. rewrite bind_run.
    unfold _validate_initial_conditions, try_catch, get_balance, ask.
    rewrite bind_run. cbn [tick bump] in *.
    destruct (a_balance (oracle (S (tick s)))) as [b|]; [|done].
    apply Qle_bool_iff in Hbalance. by rewrite Hbalance. }
  unfold handle_verification, try_finally. rewrite Hmain.
  pose proof (steps__ensure_final_cleanup oracle no_purchase (bump (bump s)))
    as Hclean.
  destruct (_ensure_final_cleanup_returns (bump (bump s))) as (Hret & _ & _).
  destruct (_ensure_final_cleanup oracle (bump (bump s))) as [[[]|e] sf];
    [|done].
  split; [done|]. simpl in *. etrans; [|exact Hclean].
  etrans; apply stepping_bump.
Qed.

(** C6, as amended: with the phone step absent from the form at the one
    check made, [handle_verification] returns [True], makes no purchase,
    and leaves the verification state as it was: INITIAL for a new
    object. *)
Theorem handle_verification_no_phone_screen s :
  a_exn (oracle (tick s)) = Some TimeoutException ->
  (handle_verification oracle selected_countries s).1 = Ret true
  /\ no_purchase s (handle_verification oracle selected_countries s).2
  /\ state (handle_verification oracle selected_countries s).2 = state s
  /\ (current_activation s = None ->
      handle_verification oracle selected_countries s = (Ret true, bump s)).
Proof.
  intros Hscreen.
  unfold handle_verification, try_finally.
  match goal with
  | |- context [try_catch ?m ?h s] =>
      assert (try_catch m h s = (Ret true, bump s)) as Hmain
  end.
  { unfold try_catch at 1. rewrite bind_run.
    unfold _check_phone_screen, try_timeout, try_catch, wait_until, drv.
    by rewrite bind_run, Hscreen. }
  rewrite Hmain.
  pose proof (steps__ensure_final_cleanup oracle no_purchase (bump s)) as Hclean.
  destruct (_ensure_final_cleanup_returns (bump s)) as (Hret & Hstate & Hnone).
  destruct (_ensure_final_cleanup oracle (bump s)) as [[[]|e] sf]; [|done].
  simpl in *. split; [done|].
  split; [etrans; [apply stepping_bump|exact Hclean]|].
  split; [done|]. intros Hact. by rewrite Hnone.
Qed.
End NoPurchase.

(** ** The claims on concrete runs *)



(** C2 fails on the code: the first attempt buys the number A1 and
    [_submit_phone_number] returns without cancelling it; the second
    attempt overwrites [current_activation]; the run returns [False] and A1
    has received neither status 8 nor a cancel call. *)
Lemma handle_verification_leaks_activation :
  (handle_verification leak_oracle default_selected_countries (init None)).1
  = Ret false
  /\ log (handle_verification leak_oracle default_selected_countries (init None)).2
     = [EvBuy "12" (Some ("A1", "5550001"))]
  /\ ~ all_purchases_settled
       (log (handle_verification leak_oracle default_selected_countries (init None)).2).
Proof.
  assert (log (handle_verification leak_oracle default_selected_countries
                 (init None)).2
          = [EvBuy "12" (Some ("A1", "5550001"))]) as Hlog by (vm_compute; reflexivity).
  split; [vm_compute; reflexivity|]. split; [exact Hlog|].
  rewrite Hlog. intros H.
  destruct (H "12" "A1" "5550001") as [Hin|Hin]; [by left|done|..];
    by apply list_elem_of_singleton in Hin.
Qed.

(** C3 fails on the code. The store can offer 7770001 for "go" (and for
    "gmail"), and the acquisition step buys 5550001 all the same. The same
    happens when the caller asks for reuse: with [phone_params] naming
    7770001 for reuse, the phone step of [create_account] buys 5550001 and
    hands on the bought number. The reuse that [core.py] configures is
    never carried out. *)
Lemma reusable_number_not_offered :
  ~ reusable_number_preferred success_oracle default_selected_countries "go"
      (init (Some example_store))
  /\ ~ reusable_number_preferred success_oracle default_selected_countries "gmail"
        (init (Some example_store))
  /\ (create_account_phone_step step_success_oracle default_selected_countries
        (Some example_store) (Some reuse_params) (init None)).1
     = Ret (PhoneData.Make (Some "5550001") (Some "12") (Some "A1") "Estados Unidos")
  /\ EvBuy "12" (Some ("A1", "5550001"))
       ∈ log (create_account_phone_step step_success_oracle default_selected_countries
                (Some example_store) (Some reuse_params) (init None)).2.
Proof.
  split; [|split; [|split]].
  - intros H.
    destruct (H example_store 0%Q 0%Q
                (PhoneManager.Entry "7770001" "16" "B7" 0 0 ["tk"; "go"] 2)
                eq_refl) as [Hbuy _]; [vm_compute; reflexivity|].
    specialize (Hbuy "12" (Some ("A1", "5550001"))).
    vm_compute in Hbuy. apply not_elem_of_nil in Hbuy; [done|by left].
  - intros H.
    destruct (H example_store 0%Q 0%Q
                (PhoneManager.Entry "7770001" "16" "B7" 0 0 ["tk"; "gmail"] 2)
                eq_refl) as [Hbuy _]; [vm_compute; reflexivity|].
    specialize (Hbuy "12" (Some ("A1", "5550001"))).
    vm_compute in Hbuy. apply not_elem_of_nil in Hbuy; [done|by left].
  - vm_compute. reflexivity.
  - assert (head (log (create_account_phone_step step_success_oracle
                         default_selected_countries (Some example_store)
                         (Some reuse_params) (init None)).2)
            = Some (EvBuy "12" (Some ("A1", "5550001")))) as Hhead
      by (vm_compute; reflexivity).
    destruct (log _) as [|e l]; [discriminate Hhead|].
    injection Hhead as ->. by left.
Qed.

Lemma handle_verification_no_balance_witness :
  a_exn (no_balance_oracle (tick (init None))) = None
  /\ match a_balance (no_balance_oracle (S (tick (init None)))) with
     | None => True
     | Some balance => (balance <= 0)%Q
     end
  /\ (handle_verification no_balance_oracle default_selected_countries (init None)).1
     = Ret false
  /\ no_purchase (init None)
       (handle_verification no_balance_oracle default_selected_countries (init None)).2.
Proof.
  assert (match a_balance (no_balance_oracle (S (tick (init None)))) with
          | None => True
          | Some balance => (balance <= 0)%Q
          end) as Hbalance by (simpl; apply Qle_refl).
  split; [reflexivity|]. split; [exact Hbalance|].
  exact (handle_verification_no_balance no_balance_oracle default_selected_countries
           (init None) eq_refl Hbalance).
Defined.

Lemma used_countries_only_grows_witness :
  NoDup (default_selected_countries.*1)
  /\ exists l,
       log (handle_verification leak_oracle default_selected_countries (init None)).2
       = log (init None) ++ l
       /\ used_countries (init None)
          ⊆ used_countries
              (handle_verification leak_oracle default_selected_countries (init None)).2
       /\ buys_avoid (used_countries (init None)) l.
Proof.
  assert (NoDup (default_selected_countries.*1)) as Hnd.
  { apply (bool_decide_unpack _). vm_compute. exact I. }
  split; [exact Hnd|].
  destruct (used_countries_only_grows leak_oracle default_selected_countries Hnd
              (init None)) as (l & Hlog & Hsub & _ & Hbuys & _).
  exists l. exact (conj Hlog (conj Hsub Hbuys)).
Defined.

(** C6 fails as stated: the run below returns [True] without a purchase,
    and the state is still INITIAL. *)
Lemma trivial_success_stays_initial :
  ~ trivial_success_completes no_screen_oracle default_selected_countries (init None).
Proof.
  intros H. destruct (H eq_refl) as (_ & _ & Hst).
  vm_compute in Hst. discriminate.
Qed.

Lemma handle_verification_no_phone_screen_witness :
  a_exn (no_screen_oracle (tick (init None))) = Some TimeoutException
  /\ (handle_verification no_screen_oracle default_selected_countries (init None)).1
     = Ret true
  /\ no_purchase (init None)
       (handle_verification no_screen_oracle default_selected_countries (init None)).2
  /\ state (handle_verification no_screen_oracle default_selected_countries
              (init None)).2 = INITIAL.
Proof.
  split; [reflexivity|].
  destruct (handle_verification_no_phone_screen no_screen_oracle
              default_selected_countries (init None) eq_refl)
    as (Hret & Hno & Hst & _).
  exact (conj Hret (conj Hno Hst)).
Defined.

Module PhoneManagerExamples.
Import PhoneManager PhoneManagerFacts.

Lemma get_reusable_number_least_used_witness :
  get_reusable_number 100 100 "go" reuse_example
  = (Some (Entry "7770003" "12" "B3" 0 100 ["tk"; "wa"; "go"] 3),
     (get_reusable_number 100 100 "go" reuse_example).2)
  /\ exists i n,
       numbers (_cleanup_expired_numbers 100 reuse_example) !! i = Some n
       /\ n ∈ numbers reuse_example
       /\ Entry "7770003" "12" "B3" 0 100 ["tk"; "wa"; "go"] 3 = checkout 100 "go" n
       /\ ("go" ∉ services n)
       /\ (forall j n',
             numbers (_cleanup_expired_numbers 100 reuse_example) !! j = Some n' ->
             eligible 100 "go" reuse_example n' ->
             (times_used n <= times_used n')%Z
             /\ (times_used n' = times_used n -> (i <= j)%nat)).
Proof.
  assert (get_reusable_number 100 100 "go" reuse_example
          = (Some (Entry "7770003" "12" "B3" 0 100 ["tk"; "wa"; "go"] 3),
             (get_reusable_number 100 100 "go" reuse_example).2)) as Hrun
    by (vm_compute; reflexivity).
  split; [exact Hrun|].
  destruct (get_reusable_number_least_used _ _ _ _ _ _ Hrun)
    as (i & n & Hi & Hin & Hr & Htag & Hmin & _).
  exists i, n. exact (conj Hi (conj Hin (conj Hr (conj Htag Hmin)))).
Defined.

Lemma get_reusable_number_not_expired_witness :
  get_reusable_number 100 100 "go" reuse_example
  = (Some (Entry "7770003" "12" "B3" 0 100 ["tk"; "wa"; "go"] 3),
     (get_reusable_number 100 100 "go" reuse_example).2)
  /\ (100 - first_used (Entry "7770003" "12" "B3" 0 100 ["tk"; "wa"; "go"] 3)
      < reuse_window reuse_example)%Q.
Proof.
  assert (get_reusable_number 100 100 "go" reuse_example
          = (Some (Entry "7770003" "12" "B3" 0 100 ["tk"; "wa"; "go"] 3),
             (get_reusable_number 100 100 "go" reuse_example).2)) as Hrun
    by (vm_compute; reflexivity).
  split; [exact Hrun|].
  exact (proj1 (get_reusable_number_not_expired _ _ _ _ _ _ Hrun)).
Defined.

Lemma first_used_le_last_used_witness :
  Forall (timestamps_ok 50) (numbers reuse_example)
  /\ (50 <= 100)%Q
  /\ Forall (timestamps_ok 100)
            (numbers (add_number 100 (Some "7770003") (Some "12") (Some "B3")
                                 "gmail" reuse_example).2).
Proof.
  assert (Forall (timestamps_ok 50) (numbers reuse_example)) as Hok.
  { repeat constructor; simpl; vm_compute; discriminate. }
  assert (50 <= 100)%Q as Hle by (vm_compute; discriminate).
  split; [exact Hok|]. split; [exact Hle|].
  exact (proj1 (first_used_le_last_used 50 100 reuse_example Hok Hle) _ _ _ _).
Defined.

(** C9 fails as stated: [mark_number_used] at the clock reading 10, on an
    entry first used at 50 and last at 100, leaves [first_used = 50] and
    [last_used = 10]. *)
Lemma first_used_le_last_used_needs_clock :
  ~ timestamps_stay_ordered later_store.
Proof.
  unfold timestamps_stay_ordered. cbv zeta. intros H.
  assert (Forall (fun n => (first_used n <= last_used n)%Q) (numbers later_store))
    as Hordered.
  { constructor; [|constructor]. vm_compute. discriminate. }
  destruct (H Hordered 10%Q 10%Q None None None "7770001" "go")
    as (_ & _ & Hmark & _).
  apply Forall_cons in Hmark as [Hn _]. vm_compute in Hn. by apply Hn.
Qed.

Lemma add_number_incomplete_data_witness :
  (truthy (Some "7770009") = false \/ truthy None = false
   \/ truthy (Some "B9") = false)
  /\ add_number 100 (Some "7770009") None (Some "B9") "go" reuse_example
     = (false, reuse_example).
Proof.
  assert (truthy (Some "7770009") = false \/ truthy None = false
          \/ truthy (Some "B9") = false) as H by (right; left; reflexivity).
  split; [exact H|].
  exact (add_number_incomplete_data 100 _ _ _ "go" reuse_example H).
Defined.
End PhoneManagerExamples.

(** * Further properties *)

(** ** The reuse store: upsert, removal, invariants *)

Module PhoneManagerLaws.
Import PhoneManager.

Lemma update_first_None p f l :
  update_first p f l = None <-> p ∉ phone_number <$> l.
Proof.
  induction l as [|n l IH]; simpl.
  - split; [intros _; apply not_elem_of_nil|done].
  - rewrite not_elem_of_cons. case_bool_decide as Hp.
    + split; [done|]. by intros [? _].
    + destruct (update_first p f l) as [l0|]; simpl.
      * split; [done|]. intros [_ Hl]. by apply IH in Hl.
      * split; [|done]. intros _. split; [congruence|]. by apply IH.
Qed.

Lemma update_first_Some p f l l' :
  update_first p f l = Some l' ->
  exists l1 n l2,
    l = l1 ++ n :: l2 /\ phone_number n = p
    /\ (p ∉ phone_number <$> l1) /\ l' = l1 ++ f n :: l2.
Proof.
  revert l'. induction l as [|n l IH]; intros l'; simpl; [done|].
  case_bool_decide as Hp.
  - intros [= <-]. exists [], n, l. split; [done|]. split; [done|].
    split; [apply not_elem_of_nil|done].
  - destruct (update_first p f l) as [l0|]; [|done]. intros [= <-].
    destruct (IH l0 eq_refl) as (l1 & m & l2 & -> & Hm & Hl1 & ->).
    exists (n :: l1), m, l2. split; [done|]. split; [done|]. split; [|done].
    rewrite fmap_cons, not_elem_of_cons. split; [congruence|done].
Qed.

Lemma delete_first_None p l :
  delete_first p l = None <-> p ∉ phone_number <$> l.
Proof.
  induction l as [|n l IH]; simpl.
  - split; [intros _; apply not_elem_of_nil|done].
  - rewrite not_elem_of_cons. case_bool_decide as Hp.
    + split; [done|]. by intros [? _].
    + destruct (delete_first p l) as [l0|]; simpl.
      * split; [done|]. intros [_ Hl]. by apply IH in Hl.
      * split; [|done]. intros _. split; [congruence|]. by apply IH.
Qed.

Lemma delete_first_Some p l l' :
  delete_first p l = Some l' ->
  exists l1 n l2,
    l = l1 ++ n :: l2 /\ phone_number n = p
    /\ (p ∉ phone_number <$> l1) /\ l' = l1 ++ l2.
Proof.
  revert l'. induction l as [|n l IH]; intros l'; simpl; [done|].
  case_bool_decide as Hp.
  - intros [= <-]. exists [], n, l. split; [done|]. split; [done|].
    split; [apply not_elem_of_nil|done].
  - destruct (delete_first p l) as [l0|]; [|done]. intros [= <-].
    destruct (IH l0 eq_refl) as (l1 & m & l2 & -> & Hm & Hl1 & ->).
    exists (n :: l1), m, l2. split; [done|]. split; [done|]. split; [|done].
    rewrite fmap_cons, not_elem_of_cons. split; [congruence|done].
Qed.

Lemma touch_phone_number now service n :
  phone_number (touch now service n) = phone_number n.
Proof. reflexivity. Qed.

Lemma fmap_phone_update now service l1 n l2 :
  phone_number <$> (l1 ++ touch now service n :: l2)
  = phone_number <$> (l1 ++ n :: l2).
Proof. by rewrite !fmap_app, !fmap_cons. Qed.

Lemma NoDup_fmap_filter {A B} (f : A -> B) (g : A -> bool) l :
  NoDup (f <$> l) -> NoDup (f <$> List.filter g l).
Proof.
  induction l as [|x l IH]; simpl; [done|].
  rewrite NoDup_cons. intros [Hx Hl].
  destruct (g x); simpl; [|by apply IH].
  apply NoDup_cons. split; [|by apply IH].
  intros Hin. apply Hx.
  apply list_elem_of_fmap in Hin as (y & -> & Hy).
  apply list_elem_of_fmap. exists y. split; [done|].
  apply list_elem_of_In, filter_In in Hy as [Hy _]. by apply list_elem_of_In.
Qed.

Lemma fmap_phone_checkout now service (l : list entry) i n :
  l !! i = Some n ->
  phone_number <$> <[i := checkout now service n]> l = phone_number <$> l.
Proof.
  intros Hi. rewrite list_fmap_insert. apply list_insert_id.
  by rewrite list_lookup_fmap, Hi.
Qed.

(** What [get_reusable_number] returns when no entry passes its filter:
    the cleaned store, nothing else. *)
Lemma get_reusable_number_None now now_cleanup service pm :
  (get_reusable_number now now_cleanup service pm).1 = None ->
  (get_reusable_number now now_cleanup service pm).2
  = _cleanup_expired_numbers now_cleanup pm.
Proof.
  unfold get_reusable_number.
  by destruct (sort_by _ _ _) as [|[i n] rest].
Qed.

(** X1: [add_number] with its three data fields present is an upsert keyed
    by the phone number: it returns [True], rewrites the file with the
    store, and either appends a fresh entry (used once, for [service], both
    timestamps at the clock reading) when the number was unknown, or updates
    the first entry of that number in place. The update refreshes
    [last_used], counts the use and tags the service; the stored country
    code, activation id and [first_used] stay what they were, whatever the
    call passes. *)
Theorem add_number_upsert now phone country aid service pm :
  phone <> "" -> country <> "" -> aid <> "" ->
  let r := add_number now (Some phone) (Some country) (Some aid) service pm in
  r.1 = true
  /\ flushed r.2
  /\ file_writes r.2 = S (file_writes pm)
  /\ (((phone ∉ phone_number <$> numbers pm)
       /\ numbers r.2
          = numbers pm ++ [Entry phone country aid now now [service] 1])
      \/ (exists l1 n l2 n',
            numbers pm = l1 ++ n :: l2
            /\ phone_number n = phone
            /\ (phone ∉ phone_number <$> l1)
            /\ numbers r.2 = l1 ++ n' :: l2
            /\ phone_number n' = phone
            /\ country_code n' = country_code n
            /\ activation_id n' = activation_id n
            /\ first_used n' = first_used n
            /\ last_used n' = now
            /\ times_used n' = (times_used n + 1)%Z
            /\ service ∈ services n'
            /\ services n `prefix_of` services n')).
Proof.
  intros Hphone Hcountry Haid r. subst r. unfold add_number. simpl.
  rewrite !bool_decide_eq_false_2 by done. simpl.
  destruct (update_first _ _ _) as [l|] eqn:Hup; simpl.
  - do 3 (split; [done|]). right.
    apply update_first_Some in Hup as (l1 & n & l2 & Hl & Hn & Hl1 & ->).
    exists l1, n, l2, (touch now service n).
    do 10 (split; [done|]). simpl.
    case_bool_decide as Hin; [done|].
    split; [set_solver|]. by apply prefix_app_r.
  - do 3 (split; [done|]). left. by apply update_first_None in Hup.
Qed.

Lemma add_number_upsert_witness :
  exists r,
    r = add_number 100 (Some "7770001") (Some "12") (Some "Z9") "go" example_store
    /\ r.1 = true
    /\ numbers r.2 = [Entry "7770001" "16" "B7" 0 100 ["tk"; "go"] 2].
Proof.
  eexists. split; [reflexivity|].
  destruct (add_number_upsert 100 "7770001" "12" "Z9" "go" example_store)
    as (Hret & _); [done|done|done|].
  split; [exact Hret|]. vm_compute. reflexivity.
Defined.

Lemma cleanup_keeps_distinct now pm :
  distinct_numbers pm -> distinct_numbers (_cleanup_expired_numbers now pm).
Proof.
  unfold distinct_numbers. intros Hpm.
  rewrite PhoneManagerFacts.numbers_cleanup. by apply NoDup_fmap_filter.
Qed.

Lemma add_number_keeps_distinct now phone country aid service pm :
  distinct_numbers pm ->
  distinct_numbers (add_number now phone country aid service pm).2.
Proof.
  unfold distinct_numbers. intros Hpm. unfold add_number.
  destruct (negb _) eqn:Hdata; [done|].
  destruct (update_first _ _ _) as [l|] eqn:Hup; simpl.
  - apply update_first_Some in Hup as (l1 & n & l2 & Hl & Hn & Hl1 & ->).
    by rewrite fmap_phone_update, <- Hl.
  - apply update_first_None in Hup.
    rewrite fmap_app. simpl. apply NoDup_app. split; [done|].
    split; [|apply NoDup_singleton].
    intros x Hx Hx'. apply list_elem_of_singleton in Hx'. by subst x.
Qed.

Lemma get_reusable_number_keeps_distinct now now_cleanup service pm :
  distinct_numbers pm ->
  distinct_numbers (get_reusable_number now now_cleanup service pm).2.
Proof.
  intros Hpm.
  pose proof (cleanup_keeps_distinct now_cleanup pm Hpm) as Hclean.
  unfold distinct_numbers in *.
  destruct (get_reusable_number now now_cleanup service pm) as [[r|] pm'] eqn:Hget.
  - destruct (PhoneManagerFacts.get_reusable_number_selected _ _ _ _ _ _ Hget)
      as (i & n & Hi & -> & -> & _ & _).
    cbn [snd _save_numbers set_numbers numbers].
    by rewrite (fmap_phone_checkout _ _ _ _ _ Hi).
  - pose proof (get_reusable_number_None now now_cleanup service pm) as Hnone.
    rewrite Hget in Hnone. simpl in *. by rewrite Hnone.
Qed.

(** X2: No operation of the store creates a second entry for a phone
    number: when the phone numbers of the entries are pairwise distinct,
    they still are after [add_number], [get_reusable_number],
    [mark_number_used], [remove_number] and the cleanup. *)
Theorem store_numbers_stay_distinct pm :
  distinct_numbers pm ->
  (forall now phone country aid service,
      distinct_numbers (add_number now phone country aid service pm).2)
  /\ (forall now now_cleanup service,
        distinct_numbers (get_reusable_number now now_cleanup service pm).2)
  /\ (forall now p service, distinct_numbers (mark_number_used now p service pm).2)
  /\ (forall p, distinct_numbers (remove_number p pm).2)
  /\ (forall now, distinct_numbers (_cleanup_expired_numbers now pm)).
Proof.
  intros Hpm.
  split; [intros; by apply add_number_keeps_distinct|].
  split; [intros; by apply get_reusable_number_keeps_distinct|].
  split; [|split; [|intros; by apply cleanup_keeps_distinct]].
  - intros now p service. unfold distinct_numbers in *. unfold mark_number_used.
    destruct (update_first _ _ _) as [l|] eqn:Hup; simpl; [|done].
    apply update_first_Some in Hup as (l1 & n & l2 & Hl & Hn & Hl1 & ->).
    by rewrite fmap_phone_update, <- Hl.
  - intros p. unfold distinct_numbers in *. unfold remove_number.
    destruct (delete_first _ _) as [l|] eqn:Hdel; simpl; [|done].
    apply delete_first_Some in Hdel as (l1 & n & l2 & Hl & Hn & Hl1 & ->).
    rewrite Hl, fmap_app, fmap_cons in Hpm. rewrite fmap_app.
    apply NoDup_app in Hpm as (H1 & H12 & H2). apply NoDup_cons in H2 as [_ H2].
    apply NoDup_app. split; [done|]. split; [|done].
    intros x Hx Hx'. apply (H12 x Hx). by right.
Qed.

Lemma store_numbers_stay_distinct_witness :
  distinct_numbers reuse_example
  /\ distinct_numbers
       (add_number 50 (Some "7770002") (Some "16") (Some "B2") "go" reuse_example).2.
Proof.
  assert (distinct_numbers reuse_example) as H.
  { unfold distinct_numbers. simpl. repeat (apply NoDup_cons; split; [set_solver|]).
    apply NoDup_nil_2. }
  split; [exact H|].
  exact (proj1 (store_numbers_stay_distinct reuse_example H) 50%Q (Some "7770002")
               (Some "16") (Some "B2") "go").
Defined.

Lemma services_counted_touch now service n :
  services_counted n -> services_counted (touch now service n).
Proof.
  intros [Hnd Hlen]. unfold services_counted. simpl.
  case_bool_decide as Hin; [split; [done|lia]|].
  split.
  - apply NoDup_app. split; [done|]. split; [|apply NoDup_singleton].
    intros x Hx Hx'. apply list_elem_of_singleton in Hx'. by subst x.
  - rewrite length_app. simpl. lia.
Qed.

Lemma services_counted_checkout now service n :
  service ∉ services n ->
  services_counted n -> services_counted (checkout now service n).
Proof.
  intros Hin [Hnd Hlen]. unfold services_counted. simpl. split.
  - apply NoDup_app. split; [done|]. split; [|apply NoDup_singleton].
    intros x Hx Hx'. apply list_elem_of_singleton in Hx'. by subst x.
  - rewrite length_app. simpl. lia.
Qed.

(** X3: Every operation of the store keeps the service lists in step with
    the use counts: when each entry lists every service once and was used
    at least once per listed service, the same holds after [add_number],
    [get_reusable_number] (and of the entry it hands out),
    [mark_number_used], [remove_number] and the cleanup. *)
Theorem store_services_stay_counted pm :
  Forall services_counted (numbers pm) ->
  (forall now phone country aid service,
      Forall services_counted (numbers (add_number now phone country aid service pm).2))
  /\ (forall now now_cleanup service,
        Forall services_counted
               (numbers (get_reusable_number now now_cleanup service pm).2)
        /\ forall r, (get_reusable_number now now_cleanup service pm).1 = Some r ->
                     services_counted r)
  /\ (forall now p service,
        Forall services_counted (numbers (mark_number_used now p service pm).2))
  /\ (forall p, Forall services_counted (numbers (remove_number p pm).2))
  /\ (forall now, Forall services_counted (numbers (_cleanup_expired_numbers now pm))).
Proof.
  intros Hok.
  assert (forall now, Forall services_counted
                             (numbers (_cleanup_expired_numbers now pm))) as Hclean.
  { intros now. rewrite PhoneManagerFacts.numbers_cleanup.
    by apply PhoneManagerFacts.Forall_filter_bool. }
  split; [|split; [|split; [|split]]].
  - intros now phone country aid service. unfold add_number.
    destruct (negb _); [done|].
    destruct (update_first _ _ _) as [l|] eqn:Hup; simpl.
    + eapply PhoneManagerFacts.update_first_Forall; [exact Hup| |exact Hok].
      intros n. apply services_counted_touch.
    + apply Forall_app. split; [done|].
      constructor; [|constructor]. split; simpl; [apply NoDup_singleton|lia].
  - intros now now_cleanup service.
    destruct (get_reusable_number now now_cleanup service pm) as [[r|] pm'] eqn:Hget.
    + destruct (PhoneManagerFacts.get_reusable_number_selected _ _ _ _ _ _ Hget)
        as (i & n & Hi & -> & -> & [_ Htag] & _).
      assert (services_counted (checkout now service n)) as Hr.
      { apply services_counted_checkout; [done|].
        specialize (Hclean now_cleanup). rewrite Forall_forall in Hclean.
        apply Hclean. by eapply list_elem_of_lookup_2. }
      split; [|by intros ? [= <-]].
      cbn [snd _save_numbers set_numbers numbers].
      by apply Forall_insert.
    + pose proof (get_reusable_number_None now now_cleanup service pm) as Hnone.
      rewrite Hget in Hnone. simpl in *. rewrite Hnone by done.
      split; [apply Hclean|done].
  - intros now p service. unfold mark_number_used.
    destruct (update_first _ _ _) as [l|] eqn:Hup; simpl; [|done].
    eapply PhoneManagerFacts.update_first_Forall; [exact Hup| |exact Hok].
    intros n. apply services_counted_touch.
  - intros p. unfold remove_number.
    destruct (delete_first _ _) as [l|] eqn:Hdel; simpl; [|done].
    by eapply PhoneManagerFacts.delete_first_Forall.
  - exact Hclean.
Qed.

Lemma store_services_stay_counted_witness :
  Forall services_counted (numbers reuse_example)
  /\ Forall services_counted
       (numbers (mark_number_used 50 "7770002" "go" reuse_example).2).
Proof.
  assert (Forall services_counted (numbers reuse_example)) as H.
  { repeat constructor; simpl; try lia; set_solver. }
  split; [exact H|].
  exact (proj1 (proj2 (proj2 (store_services_stay_counted reuse_example H)))
               50%Q "7770002" "go").
Defined.

(** X4: [remove_number] on a store with pairwise distinct phone numbers
    returns [True] exactly when the number is stored; afterwards the store
    holds the entries of the other numbers and no entry of this one. A
    successful removal rewrites the file; an unsuccessful one leaves the
    manager exactly as it was. *)
Theorem remove_number_removes p pm :
  distinct_numbers pm ->
  let r := remove_number p pm in
  (r.1 = true <-> p ∈ phone_number <$> numbers pm)
  /\ (forall n, n ∈ numbers r.2 <-> n ∈ numbers pm /\ phone_number n <> p)
  /\ (if r.1 then flushed r.2 /\ file_writes r.2 = S (file_writes pm)
      else r.2 = pm).
Proof.
  intros Hnd r. subst r. unfold distinct_numbers in Hnd. unfold remove_number.
  destruct (delete_first p (numbers pm)) as [l|] eqn:Hdel; simpl.
  - apply delete_first_Some in Hdel as (l1 & m & l2 & Hl & Hm & Hl1 & ->).
    rewrite Hl in *. rewrite fmap_app, fmap_cons in Hnd.
    apply NoDup_app in Hnd as (_ & _ & Hnd2). apply NoDup_cons in Hnd2 as [Hl2 _].
    split.
    { split; [intros _|done]. rewrite fmap_app, fmap_cons. set_solver. }
    split; [|done].
    intros n. rewrite !elem_of_app, elem_of_cons. split.
    + intros [Hn|Hn].
      * split; [by left|]. intros Hp. apply Hl1. rewrite <- Hp.
        by apply list_elem_of_fmap_2.
      * split; [by right; right|]. intros Hp. apply Hl2. rewrite Hm, <- Hp.
        by apply list_elem_of_fmap_2.
    + intros [[Hn|[->|Hn]] Hp]; [by left|done|by right].
  - apply delete_first_None in Hdel.
    split; [split; [done|by intros ?]|].
    split; [|done].
    intros n. split; [|by intros [? _]].
    intros Hn. split; [done|]. intros Hp. apply Hdel. rewrite <- Hp.
    by apply list_elem_of_fmap_2.
Qed.

Lemma remove_number_removes_witness :
  (remove_number "7770003" reuse_example).1 = true
  /\ forall n, n ∈ numbers (remove_number "7770003" reuse_example).2 ->
               phone_number n <> "7770003".
Proof.
  assert (distinct_numbers reuse_example) as H.
  { unfold distinct_numbers. simpl. repeat (apply NoDup_cons; split; [set_solver|]).
    apply NoDup_nil_2. }
  destruct (remove_number_removes "7770003" reuse_example H) as (Hret & Hin & _).
  split.
  - apply Hret. simpl. set_solver.
  - intros n Hn. by apply Hin in Hn as [_ Hp].
Defined.

(** X5: [mark_number_used] updates a stored number and nothing else: for a
    number that is not in the store it returns [False] and leaves the
    manager exactly as it was (no entry is created, the file is not
    rewritten); for a stored number it returns [True], keeps the number of
    entries, and leaves an entry of that number tagged with the service and
    with [last_used] at the clock reading, the file rewritten. *)
Theorem mark_number_used_known_only now p service pm :
  let r := mark_number_used now p service pm in
  if r.1 then
    (p ∈ phone_number <$> numbers pm)
    /\ flushed r.2
    /\ length (numbers r.2) = length (numbers pm)
    /\ exists n, n ∈ numbers r.2 /\ phone_number n = p
                 /\ last_used n = now /\ service ∈ services n
  else
    (p ∉ phone_number <$> numbers pm) /\ r.2 = pm.
Proof.
  intros r. subst r. unfold mark_number_used.
  destruct (update_first p _ (numbers pm)) as [l|] eqn:Hup; simpl.
  - apply update_first_Some in Hup as (l1 & n & l2 & Hl & Hn & Hl1 & ->).
    split. { rewrite Hl, fmap_app, fmap_cons. set_solver. }
    split; [done|].
    split. { rewrite Hl, !length_app. done. }
    exists (touch now service n). split; [set_solver|]. split; [done|].
    split; [done|]. simpl. case_bool_decide; [done|set_solver].
  - by apply update_first_None in Hup.
Qed.

Lemma sort_by_nil {A K} (leb : K -> K -> bool) (key : A -> K) l :
  sort_by leb key l = [] -> l = [].
Proof.
  intros Hs. apply Permutation_nil. rewrite <- Hs. apply sort_by_perm.
Qed.

Lemma NoDup_fmap_eq {A B} (f : A -> B) l x y :
  NoDup (f <$> l) -> x ∈ l -> y ∈ l -> f x = f y -> x = y.
Proof.
  induction l as [|z l IH]; simpl; [by intros _ Hx; apply elem_of_nil in Hx|].
  rewrite NoDup_cons, !elem_of_cons.
  intros [Hz Hl] [->|Hx] [->|Hy] Hf; [done| | |by apply IH].
  - exfalso. apply Hz. rewrite Hf. by apply list_elem_of_fmap_2.
  - exfalso. apply Hz. rewrite <- Hf. by apply list_elem_of_fmap_2.
Qed.

Lemma filter_filter_impl {A} (f g : A -> bool) l :
  (forall x, g x = true -> f x = true) ->
  List.filter g (List.filter f l) = List.filter g l.
Proof.
  intros Himpl. induction l as [|x l IH]; simpl; [done|].
  destruct (f x) eqn:Hf; simpl.
  - by rewrite IH.
  - destruct (g x) eqn:Hg; [|done]. apply Himpl in Hg. congruence.
Qed.

(** X6: [get_reusable_number] returns [None] exactly when no entry left by
    the cleanup is both within the window counted from its last use and
    untagged for the service; it then still has cleaned the store and
    rewritten the file. So whenever an eligible entry exists, one is handed
    out. *)
Theorem get_reusable_number_none_iff now now_cleanup service pm :
  ((get_reusable_number now now_cleanup service pm).1 = None <->
   forall n, n ∈ numbers (_cleanup_expired_numbers now_cleanup pm) ->
             ~ eligible now service pm n)
  /\ ((get_reusable_number now now_cleanup service pm).1 = None ->
      (get_reusable_number now now_cleanup service pm).2
      = _cleanup_expired_numbers now_cleanup pm).
Proof.
  split; [|apply get_reusable_number_None].
  unfold get_reusable_number.
  set (pm1 := _cleanup_expired_numbers now_cleanup pm).
  destruct (sort_by Z.leb (fun p => times_used p.2) (valid_numbers now service pm1))
    as [|[i n] rest] eqn:Hsort; simpl.
  - split; [intros _|done]. intros n Hn Hel.
    apply sort_by_nil in Hsort. unfold valid_numbers in Hsort.
    apply list_elem_of_lookup_1 in Hn as [i Hi].
    assert ((i, n) ∈ List.filter
              (fun p : nat * entry => is_valid now (reuse_window pm1) service p.2)
              (enumerate_from 0 (numbers pm1))) as Hin.
    { apply list_elem_of_In, filter_In. split.
      - apply list_elem_of_In, elem_of_enumerate_from.
        rewrite Nat.sub_0_r. split; [lia|done].
      - simpl. by apply (PhoneManagerFacts.is_valid_eligible now service pm1). }
    rewrite Hsort in Hin. by apply elem_of_nil in Hin.
  - split; [done|]. intros Hnone. exfalso.
    assert ((i, n) ∈ valid_numbers now service pm1) as Hin.
    { rewrite <- (sort_by_perm Z.leb (fun p : nat * entry => times_used p.2)).
      rewrite Hsort. by left. }
    unfold valid_numbers in Hin.
    apply list_elem_of_In, filter_In in Hin as [Hin Hvalid].
    apply list_elem_of_In, elem_of_enumerate_from in Hin as [_ Hlook].
    rewrite Nat.sub_0_r in Hlook. simpl in Hvalid.
    apply (PhoneManagerFacts.is_valid_eligible now service pm1) in Hvalid.
    apply (Hnone n); [by eapply list_elem_of_lookup_2|done].
Qed.



(** X8: Cleaning twice is cleaning once at the later clock reading: the
    entries left by a cleanup at [t2] do not depend on an earlier cleanup
    at [t1 <= t2]; in particular a repeated cleanup at the same reading
    drops nothing more. *)
Theorem cleanup_later_subsumes t1 t2 pm :
  (t1 <= t2)%Q ->
  numbers (_cleanup_expired_numbers t2 (_cleanup_expired_numbers t1 pm))
  = numbers (_cleanup_expired_numbers t2 pm).
Proof.
  intros Hle. rewrite !PhoneManagerFacts.numbers_cleanup.
  cbn [_cleanup_expired_numbers _save_numbers set_numbers reuse_window].
  apply filter_filter_impl. intros n.
  rewrite !Qltb_lt. intros Hn. lra.
Qed.

Lemma cleanup_later_subsumes_witness :
  (100 <= 1900)%Q
  /\ numbers (_cleanup_expired_numbers 1900 (_cleanup_expired_numbers 100 reuse_example))
     = numbers (_cleanup_expired_numbers 1900 reuse_example).
Proof.
  assert (100 <= 1900)%Q as H by (vm_compute; discriminate).
  exact (conj H (cleanup_later_subsumes 100 1900 reuse_example H)).
Defined.

Lemma delete_first_app_new p (l : list entry) n :
  p ∉ phone_number <$> l -> phone_number n = p ->
  delete_first p (l ++ [n]) = Some l.
Proof.
  intros Hl Hn. induction l as [|m l IH]; simpl.
  - by rewrite bool_decide_eq_true_2.
  - rewrite fmap_cons, not_elem_of_cons in Hl. destruct Hl as [Hm Hl].
    rewrite bool_decide_eq_false_2 by congruence. by rewrite IH.
Qed.

(** X9: A number recorded for a service is not offered for that service:
    on a store with pairwise distinct phone numbers, after
    [add_number(phone, ..., service)] went through, [get_reusable_number]
    for the same service, at any clock reading, returns another number or
    [None]. *)
Theorem add_number_blocks_reuse now now2 cleanup2 phone country aid service pm :
  distinct_numbers pm ->
  phone <> "" -> country <> "" -> aid <> "" ->
  match (get_reusable_number now2 cleanup2 service
           (add_number now (Some phone) (Some country) (Some aid) service pm).2).1 with
  | Some r => phone_number r <> phone
  | None => True
  end.
Proof.
  intros Hnd Hphone Hcountry Haid.
  pose proof (add_number_keeps_distinct now (Some phone) (Some country) (Some aid)
                service pm Hnd) as Hnd'.
  destruct (PhoneManagerFacts.add_number_records now phone country aid service pm)
    as (n0 & Hn0 & Hp0 & Htag); [done..|].
  set (pm' := (add_number now (Some phone) (Some country) (Some aid) service pm).2) in *.
  destruct (get_reusable_number now2 cleanup2 service pm') as [[r|] pm''] eqn:Hget;
    [|done].
  destruct (PhoneManagerFacts.get_reusable_number_selected _ _ _ _ _ _ Hget)
    as (i & n & Hi & Hr & _ & [_ Hnot] & _).
  simpl. intros Hsame.
  assert (n ∈ numbers pm') as Hnin.
  { apply list_elem_of_lookup_2 in Hi.
    rewrite PhoneManagerFacts.numbers_cleanup in Hi.
    apply list_elem_of_In, filter_In in Hi as [Hi _]. by apply list_elem_of_In. }
  assert (n = n0) as ->.
  { apply (NoDup_fmap_eq phone_number (numbers pm')); [exact Hnd'|done|done|].
    rewrite Hp0, <- Hsame, Hr. done. }
  done.
Qed.

Lemma add_number_blocks_reuse_witness :
  (get_reusable_number 60 60 "go"
     (add_number 50 (Some "7770003") (Some "12") (Some "B3") "go" reuse_example).2).1
  = Some (Entry "7770004" "12" "B4" 0 60 ["wa"; "tk"; "go"] 3)
  /\ "7770004" <> "7770003".
Proof.
  assert (distinct_numbers reuse_example) as H.
  { unfold distinct_numbers. simpl. repeat (apply NoDup_cons; split; [set_solver|]).
    apply NoDup_nil_2. }
  pose proof (add_number_blocks_reuse 50 60 60 "7770003" "12" "B3" "go"
                reuse_example H) as Hnot.
  assert ((get_reusable_number 60 60 "go"
             (add_number 50 (Some "7770003") (Some "12") (Some "B3") "go"
                reuse_example).2).1
          = Some (Entry "7770004" "12" "B4" 0 60 ["wa"; "tk"; "go"] 3)) as Hget
    by (vm_compute; reflexivity).
  rewrite Hget in Hnot. split; [exact Hget|]. by apply Hnot.
Defined.

(** X10: Adding an unknown number and removing it again gives back the
    entries the store had: [remove_number] finds the entry that
    [add_number] appended and deletes exactly that one. *)
Theorem add_then_remove_number now phone country aid service pm :
  phone <> "" -> country <> "" -> aid <> "" ->
  phone ∉ phone_number <$> numbers pm ->
  let pm1 := (add_number now (Some phone) (Some country) (Some aid) service pm).2 in
  (remove_number phone pm1).1 = true
  /\ numbers (remove_number phone pm1).2 = numbers pm.
Proof.
  intros Hphone Hcountry Haid Hnew pm1. subst pm1.
  unfold add_number. simpl. rewrite !bool_decide_eq_false_2 by done. simpl.
  apply (update_first_None phone (touch now service)) in Hnew as Hup. rewrite Hup.
  unfold remove_number. simpl.
  by rewrite (delete_first_app_new phone (numbers pm)).
Qed.

Lemma add_then_remove_number_witness :
  ("5550001" ∉ phone_number <$> numbers reuse_example)
  /\ numbers (remove_number "5550001"
                (add_number 50 (Some "5550001") (Some "12") (Some "A1") "gmail"
                   reuse_example).2).2
     = numbers reuse_example.
Proof.
  assert ("5550001" ∉ phone_number <$> numbers reuse_example) as Hnew
    by (simpl; set_solver).
  split; [exact Hnew|].
  by destruct (add_then_remove_number 50 "5550001" "12" "A1" "gmail" reuse_example)
    as [_ H].
Defined.

End PhoneManagerLaws.

(** ** The SMS client: comparing prices *)

Module SMSAPIFacts.
Import SMSAPI.

Lemma in_stock_fun prices service c p p' :
  in_stock prices service c p -> in_stock prices service c p' -> p = p'.
Proof.
  intros (sv & info & Hc & Hs & -> & _) (sv' & info' & Hc' & Hs' & -> & _).
  congruence.
Qed.

(** One step of the scan: the pair is kept, and then the country, if in
    stock, is not cheaper than it; or the country is in stock, cheaper, and
    taken. *)
Lemma cheapest_step prices service c0 best :
  let best' :=
    match prices !! c0 with
    | Some services =>
        match services !! service with
        | Some info =>
            if cheaper (cost info) best && (0 <? count info)%Z
            then Some (c0, cost info) else best
        | None => best
        end
    | None => best
    end in
  (best' = best
   /\ forall p0, in_stock prices service c0 p0 ->
                 exists cb pb, best = Some (cb, pb) /\ (pb <= p0)%Q)
  \/ (exists p0, in_stock prices service c0 p0 /\ best' = Some (c0, p0)
        /\ match best with Some (_, pb) => (p0 < pb)%Q | None => True end).
Proof.
  intros best'. subst best'.
  destruct (prices !! c0) as [services|] eqn:Hc.
  2: { left. split; [done|]. intros p0 (sv & info & Hc' & _). congruence. }
  destruct (services !! service) as [info|] eqn:Hs.
  2: { left. split; [done|]. intros p0 (sv & info & Hc' & Hs' & _). congruence. }
  destruct (0 <? count info)%Z eqn:Hstock.
  2: { rewrite andb_false_r. left. split; [done|].
       intros p0 (sv & info' & Hc' & Hs' & _ & Hpos).
       apply Z.ltb_ge in Hstock.
       assert (info' = info) as -> by congruence. lia. }
  apply Z.ltb_lt in Hstock. rewrite andb_true_r.
  destruct (cheaper (cost info) best) eqn:Hcheap.
  - right. exists (cost info). split; [by exists services, info|]. split; [done|].
    destruct best as [[cb pb]|]; [|done]. by apply Qltb_lt.
  - left. split; [done|]. intros p0 (sv & info' & Hc' & Hs' & -> & _).
    assert (info' = info) as -> by congruence.
    destruct best as [[cb pb]|]; [|done]. exists cb, pb. split; [done|].
    simpl in Hcheap. unfold Qltb in Hcheap.
    apply negb_false_iff, Qle_bool_iff in Hcheap. exact Hcheap.
Qed.

Lemma cheapest_loop_spec codes prices service best :
  match cheapest_loop codes prices service best with
  | None => best = None /\ forall c p, c ∈ codes -> ~ in_stock prices service c p
  | Some (c, p) =>
      (best = Some (c, p)
       /\ forall c' p', c' ∈ codes -> in_stock prices service c' p' -> (p <= p')%Q)
      \/ (exists l1 l2,
            codes = l1 ++ c :: l2
            /\ in_stock prices service c p
            /\ match best with Some (_, pb) => (p < pb)%Q | None => True end
            /\ (forall c' p', c' ∈ l1 -> in_stock prices service c' p' -> (p < p')%Q)
            /\ (forall c' p', c' ∈ l2 -> in_stock prices service c' p' -> (p <= p')%Q))
  end.
Proof.
  revert best. induction codes as [|c0 codes IH]; intros best.
  - simpl. destruct best as [[c p]|].
    + left. split; [done|]. intros c' p' Hin. by apply elem_of_nil in Hin.
    + split; [done|]. intros c p Hin. by apply elem_of_nil in Hin.
  - cbn [cheapest_loop]. cbv zeta.
    destruct (cheapest_step prices service c0 best)
      as [[-> Hkeep]|(p0 & Hstock & -> & Hlt)].
    + specialize (IH best).
      destruct (cheapest_loop codes prices service best) as [[c p]|].
      * destruct IH as [[-> Hall]|(l1 & l2 & -> & Hin & Hlt & H1 & H2)].
        -- left. split; [done|]. intros c' p' Hc' Hs'.
           apply elem_of_cons in Hc' as [->|Hc']; [|by eapply Hall].
           destruct (Hkeep p' Hs') as (cb & pb & [= <- <-] & Hle). exact Hle.
        -- right. exists (c0 :: l1), l2. split; [done|]. split; [done|].
           split; [done|]. split; [|done].
           intros c' p' Hc' Hs'.
           apply elem_of_cons in Hc' as [->|Hc']; [|by eapply H1].
           destruct (Hkeep p' Hs') as (cb & pb & -> & Hle). lra.
      * destruct IH as [-> Hnone]. split; [done|].
        intros c p Hc Hs. apply elem_of_cons in Hc as [->|Hc]; [|by eapply Hnone].
        by destruct (Hkeep p Hs) as (cb & pb & ? & _).
    + specialize (IH (Some (c0, p0))).
      destruct (cheapest_loop codes prices service (Some (c0, p0))) as [[c p]|].
      * right.
        destruct IH as [[[= <- <-] Hall]|(l1 & l2 & -> & Hin & Hlt' & H1 & H2)].
        -- exists [], codes. split; [done|]. split; [done|]. split; [done|].
           split; [|done]. intros c' p' Hc'. by apply elem_of_nil in Hc'.
        -- exists (c0 :: l1), l2. split; [done|]. split; [done|].
           split; [destruct best as [[cb pb]|]; [lra|done]|].
           split; [|done].
           intros c' p' Hc' Hs'.
           apply elem_of_cons in Hc' as [->|Hc']; [|by eapply H1].
           rewrite (in_stock_fun _ _ _ _ _ Hs' Hstock). exact Hlt'.
      * by destruct IH as [? _].
Qed.

(** X11: [get_cheapest_country(service)] never raises. The country it
    returns is allow-listed, listed for the service with stock, and no
    allow-listed country in stock is cheaper; among equally cheap ones the
    first in the order of [selected_countries] wins. It returns
    [(None, None)] only when the price query fails, or no allow-listed
    country is in stock, or the cheapest one has the empty string as its
    code. *)
Theorem get_cheapest_country_minimal oracle selected_countries service s :
  match (get_cheapest_country oracle selected_countries service s).1 with
  | Ret (Some (c, p)) =>
      exists prices l1 l2,
        a_prices (oracle (tick s)) = Some prices
        /\ selected_countries.*1 = l1 ++ c :: l2
        /\ in_stock prices service c p
        /\ (forall c' p', c' ∈ l1 -> in_stock prices service c' p' -> (p < p')%Q)
        /\ (forall c' p', c' ∈ l2 -> in_stock prices service c' p' -> (p <= p')%Q)
  | Ret None =>
      forall prices c p,
        a_prices (oracle (tick s)) = Some prices ->
        c ∈ selected_countries.*1 -> in_stock prices service c p ->
        "" ∈ selected_countries.*1
        /\ exists p0, in_stock prices service "" p0 /\ (p0 <= p)%Q
  | Exc _ => False
  end.
Proof.
  unfold get_cheapest_country. rewrite bind_run. cbn [ask fst snd].
  destruct (a_prices (oracle (tick s))) as [prices|]; [|by simpl].
  case_bool_decide as Hempty.
  { simpl. intros prices' c p [= <-] _ (sv & info & Hc & _).
    subst prices. by rewrite lookup_empty in Hc. }
  pose proof (cheapest_loop_spec (selected_countries.*1) prices service None) as Hloop.
  destruct (cheapest_loop (selected_countries.*1) prices service None) as [[c p]|].
  - destruct Hloop as [[? _]|(l1 & l2 & Hl & Hin & _ & H1 & H2)]; [done|].
    destruct (truthy (Some c)) eqn:Hc; simpl.
    + exists prices, l1, l2. done.
    + intros prices' c' p' [= <-] Hc' Hs'.
      apply negb_false_iff, bool_decide_eq_true in Hc. subst c.
      split; [rewrite Hl; set_solver|].
      exists p. split; [done|].
      rewrite Hl in Hc'. apply elem_of_app in Hc' as [Hc'|Hc'].
      * apply Qlt_le_weak. by eapply H1.
      * apply elem_of_cons in Hc' as [->|Hc']; [|by eapply H2].
        rewrite (in_stock_fun _ _ _ _ _ Hs' Hin). apply Qle_refl.
  - destruct Hloop as [_ Hnone]. simpl.
    intros prices' c p [= <-] Hc Hs. by destruct (Hnone c p Hc).
Qed.

Lemma service_prices_loop_spec cs all_prices service acc :
  service_prices_loop cs all_prices service acc
  = acc ++ omap (fun '(code, name) =>
                   match all_prices !! code with
                   | Some services =>
                       match services !! service with
                       | Some info => Some (PriceRow code name (cost info) (count info))
                       | None => None
                       end
                   | None => None
                   end) cs.
Proof.
  revert acc. induction cs as [|[code name] cs IH]; intros acc; simpl.
  - by rewrite app_nil_r.
  - destruct (all_prices !! code) as [services|]; [|apply IH].
    destruct (services !! service) as [info|]; [|apply IH].
    rewrite IH. by rewrite <- app_assoc.
Qed.

Lemma elem_of_service_prices cs all_prices service code name p n :
  PriceRow code name p n ∈ service_prices_loop cs all_prices service [] <->
  (code, name) ∈ cs
  /\ exists services,
       all_prices !! code = Some services
       /\ services !! service = Some (PriceInfo p n).
Proof.
  rewrite service_prices_loop_spec, app_nil_l, list_elem_of_omap. split.
  - intros ([code' name'] & Hin & Hrow).
    destruct (all_prices !! code') as [services|] eqn:Hc; [|done].
    destruct (services !! service) as [[p' n']|] eqn:Hs; [|done].
    injection Hrow as <- <- <- <-. split; [done|]. by exists services.
  - intros (Hin & services & Hc & Hs).
    exists (code, name). split; [done|]. by rewrite Hc, Hs.
Qed.

(** X12: [compare_prices_in_selected_countries(service)] never raises and
    returns the rows in ascending order of price. The rows are exactly the
    allow-listed countries that the price table lists for the service, each
    with its name, price and stock; countries without stock are listed
    too. When the price query fails the list is empty. *)
Theorem compare_prices_sorted_rows oracle selected_countries service s :
  match (compare_prices_in_selected_countries oracle selected_countries service s).1 with
  | Ret rows =>
      StronglySorted (fun x y => (price x <= price y)%Q) rows
      /\ forall code name p n,
           PriceRow code name p n ∈ rows <->
           (code, name) ∈ selected_countries
           /\ exists prices services,
                a_prices (oracle (tick s)) = Some prices
                /\ prices !! code = Some services
                /\ services !! service = Some (PriceInfo p n)
  | Exc _ => False
  end.
Proof.
  unfold compare_prices_in_selected_countries, try_catch.
  rewrite bind_run. cbn [ask fst snd].
  destruct (a_prices (oracle (tick s))) as [prices|]; simpl.
  2: { split; [constructor|]. intros. rewrite elem_of_nil. naive_solver. }
  case_bool_decide as Hempty; simpl.
  { split; [constructor|]. intros code name p n. rewrite elem_of_nil.
    split; [done|]. intros (_ & prices' & services & [= <-] & Hc & _).
    subst prices. by rewrite lookup_empty in Hc. }
  split.
  - assert (StronglySorted (key_le Qle_bool price)
              (sort_by Qle_bool price
                 (service_prices_loop selected_countries prices service [])))
      as Hsorted.
    { apply sort_by_sorted.
      - intros a b. rewrite !Qle_bool_iff.
        destruct (Qlt_le_dec b a); [right; by apply Qlt_le_weak|by left].
      - intros a b c. rewrite !Qle_bool_iff. apply Qle_trans. }
    induction Hsorted as [|x l Hs IH Hall]; constructor; [done|].
    eapply Forall_impl; [exact Hall|]. intros y Hy. by apply Qle_bool_iff.
  - intros code name p n. rewrite sort_by_perm, elem_of_service_prices.
    naive_solver.
Qed.

Section StableSortFilter.
Context {A K : Type} (leb : K -> K -> bool) (key : A -> K).
Hypothesis leb_total : forall a b, leb a b = true \/ leb b a = true.
Hypothesis leb_trans : forall a b c, leb a b = true -> leb b c = true -> leb a c = true.

Lemma insert_by_first x l :
  Forall (fun y => leb (key x) (key y) = true) l -> insert_by leb key x l = x :: l.
Proof. destruct 1 as [|y l Hy _]; simpl; [done|]. by rewrite Hy. Qed.

Lemma filter_insert_by (f : A -> bool) x l :
  StronglySorted (key_le leb key) l ->
  List.filter f (insert_by leb key x l)
  = if f x then insert_by leb key x (List.filter f l) else List.filter f l.
Proof.
  induction 1 as [|y l Hs IH Hall]; simpl; [by destruct (f x)|].
  destruct (leb (key x) (key y)) eqn:Hxy; simpl.
  - destruct (f x) eqn:Hfx; [|done].
    symmetry. apply insert_by_first.
    assert (Forall (fun z => leb (key x) (key z) = true) (y :: l)) as Hge.
    { constructor; [done|]. eapply Forall_impl; [exact Hall|].
      intros z Hz. by eapply leb_trans. }
    change (Forall (fun z => leb (key x) (key z) = true) (List.filter f (y :: l))).
    clear -Hge. induction Hge as [|z l' Hz _ IH']; simpl; [constructor|].
    destruct (f z); [by constructor|done].
  - rewrite IH. destruct (f y) eqn:Hfy, (f x) eqn:Hfx; simpl; try done.
    by rewrite Hxy.
Qed.

(** Filtering a sorted list and sorting a filtered one give the same list:
    the sort is stable. *)
Lemma filter_sort_by (f : A -> bool) l :
  List.filter f (sort_by leb key l) = sort_by leb key (List.filter f l).
Proof.
  induction l as [|x l IH]; simpl; [done|].
  rewrite filter_insert_by by (by apply sort_by_sorted).
  rewrite IH. by destruct (f x).
Qed.

End StableSortFilter.

Lemma omap_split {A B} (g : A -> option B) l m1 m m2 :
  omap g l = m1 ++ m :: m2 ->
  exists l1 x l2,
    l = l1 ++ x :: l2 /\ g x = Some m /\ omap g l1 = m1 /\ omap g l2 = m2.
Proof.
  revert m1. induction l as [|y l IH]; intros m1; simpl.
  - by destruct m1.
  - destruct (g y) as [b|] eqn:Hy.
    + destruct m1 as [|b' m1]; simpl.
      * intros [= -> <-]. by exists [], y, l.
      * intros [= -> Hrest].
        destruct (IH m1 Hrest) as (l1 & x & l2 & -> & Hx & <- & <-).
        exists (y :: l1), x, l2. simpl. by rewrite Hy.
    + intros Hrest.
      destruct (IH m1 Hrest) as (l1 & x & l2 & -> & Hx & <- & <-).
      exists (y :: l1), x, l2. simpl. by rewrite Hy.
Qed.

Lemma service_prices_loop_row_of cs all_prices service acc :
  service_prices_loop cs all_prices service acc
  = acc ++ omap (row_of all_prices service) cs.
Proof.
  revert acc. induction cs as [|[code name] cs IH]; intros acc; simpl.
  - by rewrite app_nil_r.
  - unfold row_of at 1. simpl.
    destruct (all_prices !! code) as [services|]; [|apply IH].
    destruct (services !! service) as [info|]; [|apply IH].
    rewrite IH. by rewrite <- app_assoc.
Qed.

Lemma service_prices_loop_omap cs all_prices service :
  service_prices_loop cs all_prices service [] = omap (row_of all_prices service) cs.
Proof. by rewrite service_prices_loop_row_of. Qed.

Lemma in_stock_row all_prices service cs c p :
  c ∈ cs.*1 -> in_stock all_prices service c p ->
  exists row, row ∈ omap (row_of all_prices service) cs
              /\ price row = p /\ (0 <? available row)%Z = true.
Proof.
  intros Hc (services & info & Hs & Hi & -> & Hpos).
  apply list_elem_of_fmap in Hc as ([c' name] & -> & Hin). simpl in *.
  exists (PriceRow c' name (cost info) (count info)).
  split; [|split; [done|by apply Z.ltb_lt]].
  apply list_elem_of_omap. exists (c', name). split; [done|].
  unfold row_of. simpl. by rewrite Hs, Hi.
Qed.

Lemma row_of_in_stock all_prices service c row :
  row_of all_prices service c = Some row -> (0 <? available row)%Z = true ->
  country_code row = c.1 /\ in_stock all_prices service c.1 (price row).
Proof.
  unfold row_of. intros Hrow Hpos.
  destruct (all_prices !! c.1) as [services|] eqn:Hs; [|done].
  destruct (services !! service) as [info|] eqn:Hi; [|done].
  injection Hrow as <-. simpl in *. split; [done|].
  exists services, info. by apply Z.ltb_lt in Hpos.
Qed.

(** The scan keeps a pair that nothing in stock undercuts. *)
Lemma cheapest_loop_keeps codes all_prices service c p :
  (forall c' p', c' ∈ codes -> in_stock all_prices service c' p' -> (p <= p')%Q) ->
  cheapest_loop codes all_prices service (Some (c, p)) = Some (c, p).
Proof.
  intros Hall.
  pose proof (cheapest_loop_spec codes all_prices service (Some (c, p))) as Hspec.
  destruct (cheapest_loop codes all_prices service (Some (c, p))) as [[c1 p1]|].
  - destruct Hspec as [[[= <- <-] _]|(l1 & l2 & -> & Hin & Hlt & _)]; [done|].
    exfalso. assert (p <= p1)%Q by (eapply Hall; [|exact Hin]; set_solver). lra.
  - by destruct Hspec as [? _].
Qed.

(** Over countries that are all dearer than [p] when in stock, the scan
    ends with nothing or with a pair above [p]. *)
Lemma cheapest_loop_above codes all_prices service best p :
  (forall c' p', c' ∈ codes -> in_stock all_prices service c' p' -> (p < p')%Q) ->
  match best with Some (_, pb) => (p < pb)%Q | None => True end ->
  match cheapest_loop codes all_prices service best with
  | Some (_, pb) => (p < pb)%Q
  | None => True
  end.
Proof.
  intros Hall Hbest.
  pose proof (cheapest_loop_spec codes all_prices service best) as Hspec.
  destruct (cheapest_loop codes all_prices service best) as [[c1 p1]|]; [|done].
  destruct Hspec as [[-> _]|(l1 & l2 & -> & Hin & _)]; [done|].
  eapply Hall; [|exact Hin]. set_solver.
Qed.

Lemma cheapest_loop_app l1 l2 all_prices service best :
  cheapest_loop (l1 ++ l2) all_prices service best
  = cheapest_loop l2 all_prices service (cheapest_loop l1 all_prices service best).
Proof.
  revert best. induction l1 as [|c l1 IH]; intros best; [done|].
  simpl. by rewrite IH.
Qed.

(** The scan finds the first country that nothing in stock before it
    matches and nothing in stock after it undercuts. *)
Lemma cheapest_loop_finds l1 c l2 all_prices service p :
  in_stock all_prices service c p ->
  (forall c' p', c' ∈ l1 -> in_stock all_prices service c' p' -> (p < p')%Q) ->
  (forall c' p', c' ∈ l2 -> in_stock all_prices service c' p' -> (p <= p')%Q) ->
  cheapest_loop (l1 ++ c :: l2) all_prices service None = Some (c, p).
Proof.
  intros Hin H1 H2. rewrite cheapest_loop_app.
  pose proof (cheapest_loop_above l1 all_prices service None p H1 I) as Habove.
  set (best := cheapest_loop l1 all_prices service None) in *.
  cbn [cheapest_loop]. cbv zeta.
  destruct (cheapest_step all_prices service c best)
    as [[_ Hkeep]|(p0 & Hstock & -> & _)].
  - exfalso. destruct (Hkeep p Hin) as (cb & pb & Hb & Hle).
    rewrite Hb in Habove. lra.
  - rewrite (in_stock_fun _ _ _ _ _ Hstock Hin). by apply cheapest_loop_keeps.
Qed.

(** X13: The two price comparisons agree: for one answer of the price
    query, [get_cheapest_country(service)] returns the country and price of
    the first row with stock in the list that
    [compare_prices_in_selected_countries(service)] returns, and
    [(None, None)] when no row has stock. No allow-listed country code is
    the empty string. *)
Theorem get_cheapest_country_first_row_in_stock oracle selected_countries service s :
  "" ∉ selected_countries.*1 ->
  match (compare_prices_in_selected_countries oracle selected_countries service s).1 with
  | Ret rows =>
      (get_cheapest_country oracle selected_countries service s).1
      = Ret ((fun row => (country_code row, price row))
               <$> head (List.filter (fun row => (0 <? available row)%Z) rows))
  | Exc _ => False
  end.
Proof.
  intros Hcodes.
  unfold compare_prices_in_selected_countries, get_cheapest_country, try_catch.
  rewrite !bind_run. cbn [ask fst snd].
  destruct (a_prices (oracle (tick s))) as [prices|]; [|done].
  case_bool_decide as Hempty; [done|]. cbn [ret fst].
  rewrite (filter_sort_by Qle_bool price).
  2: { intros a b. rewrite !Qle_bool_iff.
       destruct (Qlt_le_dec b a); [right; by apply Qlt_le_weak|by left]. }
  2: { intros a b c. rewrite !Qle_bool_iff. apply Qle_trans. }
  rewrite service_prices_loop_omap.
  set (rows0 := omap (row_of prices service) selected_countries).
  set (f := fun row : price_row => (0 <? available row)%Z).
  destruct (head (sort_by Qle_bool price (List.filter f rows0))) as [m|] eqn:Hhead.
  - apply head_sort_by_min in Hhead as (r1 & r2 & Hsplit & Hbefore & Hafter).
    2: { intros a b. rewrite !Qle_bool_iff.
         destruct (Qlt_le_dec b a); [right; by apply Qlt_le_weak|by left]. }
    2: { intros a b c. rewrite !Qle_bool_iff. apply Qle_trans. }
    assert (f m = true) as Hfm.
    { assert (m ∈ List.filter f rows0) as Hm by (rewrite Hsplit; set_solver).
      by apply list_elem_of_In, filter_In in Hm as [_ Hm]. }
    apply filter_split in Hsplit as (m1 & m2 & Hrows & -> & ->).
    apply omap_split in Hrows as (l1 & x & l2 & Hsel & Hx & <- & <-).
    destruct (row_of_in_stock _ _ _ _ Hx Hfm) as [Hcode Hin].
    rewrite Hsel, fmap_app, fmap_cons.
    rewrite (cheapest_loop_finds _ _ _ _ _ (price m) Hin).
    + simpl. rewrite Hcode. rewrite bool_decide_eq_false_2; [done|].
      intros Hc. apply Hcodes. rewrite Hsel, fmap_app, fmap_cons, <- Hc. set_solver.
    + intros c' p' Hc' Hs'.
      destruct (in_stock_row _ _ _ _ _ Hc' Hs') as (row & Hrow & <- & Hpos).
      rewrite Forall_forall in Hbefore.
      assert (Qle_bool (price row) (price m) = false) as Hgt.
      { apply Hbefore, list_elem_of_In, filter_In.
        split; [by apply list_elem_of_In|done]. }
      apply Qnot_le_lt. intros Hle. apply Qle_bool_iff in Hle. congruence.
    + intros c' p' Hc' Hs'.
      destruct (in_stock_row _ _ _ _ _ Hc' Hs') as (row & Hrow & <- & Hpos).
      rewrite Forall_forall in Hafter. apply Qle_bool_iff.
      apply Hafter, list_elem_of_In, filter_In.
      split; [by apply list_elem_of_In|done].
  - assert (List.filter f rows0 = []) as Hnone.
    { destruct (sort_by Qle_bool price (List.filter f rows0)) eqn:Hs; [|done].
      apply Permutation_nil. rewrite <- Hs. apply sort_by_perm. }
    pose proof (cheapest_loop_spec (selected_countries.*1) prices service None) as Hspec.
    destruct (cheapest_loop (selected_countries.*1) prices service None) as [[c p]|];
      [|done].
    exfalso.
    destruct Hspec as [[? _]|(l1 & l2 & Hl & Hin & _)]; [done|].
    destruct (in_stock_row prices service selected_countries c p)
      as (row & Hrow & _ & Hpos); [rewrite Hl; set_solver|done|].
    assert (row ∈ List.filter f rows0) as Hrf.
    { apply list_elem_of_In, filter_In. split; [by apply list_elem_of_In|done]. }
    rewrite Hnone in Hrf. by apply elem_of_nil in Hrf.
Qed.

Lemma get_cheapest_country_first_row_in_stock_witness :
  ("" ∉ default_selected_countries.*1)
  /\ (get_cheapest_country (fun _ => good_answer) default_selected_countries "go"
        (init None)).1
     = Ret (Some ("12", 10%Q)).
Proof.
  assert ("" ∉ default_selected_countries.*1) as H by (simpl; set_solver).
  split; [exact H|].
  pose proof (get_cheapest_country_first_row_in_stock (fun _ => good_answer)
                default_selected_countries "go" (init None) H) as Hrows.
  assert ((compare_prices_in_selected_countries (fun _ => good_answer)
             default_selected_countries "go" (init None)).1
          = Ret [PriceRow "12" "Estados Unidos" 10 3; PriceRow "151" "Chile" 20 5])
    as Hcmp by (vm_compute; reflexivity).
  rewrite Hcmp in Hrows. exact Hrows.
Defined.

End SMSAPIFacts.

(** ** Polling for the code; what the orchestrator returns *)

Section Polling.
Variable oracle : nat -> answer.

Lemma poll_answer_bump s k :
  poll_answer oracle (bump s) k = poll_answer oracle s (S k).
Proof. unfold poll_answer. simpl. do 2 f_equal. lia. Qed.

Lemma poll_answer_0 s : poll_answer oracle s 0 = a_poll (oracle (tick s)).
Proof. unfold poll_answer. by rewrite Nat.add_0_r. Qed.

(** X14: [get_sms_code] polls at most [max_attempts] times and stops at
    the first answer that is not a wait. A code is returned only after
    confirming it with [set_status(id, 3)], and that is the only call
    made. A cancellation reported by the service returns [None] with no
    call at all. When every poll says wait (in particular when
    [max_attempts <= 0], with no poll made) the activation is cancelled with
    [set_status(id, 6)] and [None] is returned. No exception escapes. *)
Theorem get_sms_code_outcome aid max_attempts interval s :
  let n := Z.to_nat max_attempts in
  let run := get_sms_code oracle aid max_attempts interval s in
  match run.1 with
  | Ret (Some code) =>
      exists k, (k < n)%nat
        /\ poll_answer oracle s k = STATUS_OK code
        /\ (forall j, (j < k)%nat -> poll_answer oracle s j = STATUS_WAIT)
        /\ log run.2 = log s ++ [EvSetStatus aid 3]
        /\ tick run.2 = (tick s + k + 2)%nat
  | Ret None =>
      (exists k, (k < n)%nat
         /\ poll_answer oracle s k = STATUS_CANCEL
         /\ (forall j, (j < k)%nat -> poll_answer oracle s j = STATUS_WAIT)
         /\ log run.2 = log s
         /\ tick run.2 = (tick s + k + 1)%nat)
      \/ ((forall j, (j < n)%nat -> poll_answer oracle s j = STATUS_WAIT)
          /\ log run.2 = log s ++ [EvSetStatus aid 6]
          /\ tick run.2 = (tick s + n + 1)%nat)
  | Exc _ => False
  end.
Proof.
  intros n run. subst n run. unfold get_sms_code.
  generalize (Z.to_nat max_attempts). clear max_attempts interval.
  intros n. revert s. induction n as [|n IH]; intros s.
  - simpl. right. split; [intros j Hj; lia|]. split; [done|]. lia.
  - cbn [poll_sms]. rewrite bind_run. cbn [ask].
    pose proof (poll_answer_0 s) as H0.
    destruct (a_poll (oracle (tick s))) as [code| |] eqn:Hp.
    + simpl. exists 0%nat. split; [lia|]. split; [done|].
      split; [intros j Hj; lia|]. split; [done|]. lia.
    + simpl. left. exists 0%nat. split; [lia|]. split; [done|].
      split; [intros j Hj; lia|]. split; [done|]. lia.
    + specialize (IH (bump s)).
      destruct (poll_sms oracle aid n (bump s)) as [[[code|]|e] s']; simpl in *.
      * destruct IH as (k & Hk & Hok & Hwait & Hlog & Htick).
        exists (S k). split; [lia|]. rewrite <- poll_answer_bump. split; [done|].
        split; [|split; [done|lia]].
        intros [|j] Hj; [done|]. rewrite <- poll_answer_bump. apply Hwait. lia.
      * destruct IH as [(k & Hk & Hc & Hwait & Hlog & Htick)|(Hwait & Hlog & Htick)].
        -- left. exists (S k). split; [lia|]. rewrite <- poll_answer_bump.
           split; [done|]. split; [|split; [done|lia]].
           intros [|j] Hj; [done|]. rewrite <- poll_answer_bump. apply Hwait. lia.
        -- right. split; [|split; [done|lia]].
           intros [|j] Hj; [done|]. rewrite <- poll_answer_bump. apply Hwait. lia.
      * done.
Qed.

End Polling.

Section Returns.
Variable oracle : nat -> answer.
Variable selected_countries : list (string * string).

Lemma returns_ret {A} (a : A) : returns (ret a).
Proof. intros s. by exists a. Qed.

Lemma returns_gets {A} (f : obj -> A) : returns (gets f).
Proof. intros s. by eexists. Qed.

Lemma returns_modify f : returns (modify f).
Proof. intros s. by eexists. Qed.

Lemma returns_bind {A B} (m : M A) (k : A -> M B) :
  returns m -> (forall a, returns (k a)) -> returns (bind m k).
Proof.
  intros Hm Hk s. rewrite bind_run. destruct (Hm s) as [a Ha].
  destruct (m s) as [[a'|e] s']; simpl in Ha; [|done]. apply Hk.
Qed.

Lemma returns_try_catch {A} (m : M A) h :
  (forall e, returns (h e)) -> returns (try_catch m h).
Proof.
  intros Hh s. unfold try_catch.
  destruct (m s) as [[a|e] s']; [by exists a|apply Hh].
Qed.

Lemma returns_try_finally {A} (m : M A) f :
  returns m -> returns f -> returns (try_finally m f).
Proof.
  intros Hm Hf s. unfold try_finally. destruct (Hm s) as [a Ha].
  destruct (m s) as [r s']. simpl in Ha. subst r.
  destruct (Hf s') as [u Hu]. destruct (f s') as [[[]|e] s'']; [|done].
  by exists a.
Qed.

Lemma returns_ask {A} (f : answer -> A) : returns (ask oracle f).
Proof. intros s. by eexists. Qed.

Lemma returns_exclude c : returns (exclude c).
Proof. intros s. by eexists. Qed.

Lemma returns__cancel_current_number : returns (_cancel_current_number oracle).
Proof.
  unfold _cancel_current_number.
  apply returns_bind; [apply returns_gets|]. intros [a|]; [|apply returns_ret].
  apply returns_bind; [apply returns_exclude|]. intros _.
  apply returns_bind; [|intros _; apply returns_modify].
  apply returns_try_catch. intros _. apply returns_ret.
Qed.

Lemma returns__cancel_number : returns (_cancel_number oracle).
Proof.
  unfold _cancel_number.
  apply returns_bind; [apply returns_gets|]. intros [a|]; [|apply returns_ret].
  apply returns_try_catch. intros _. apply returns_modify.
Qed.

Lemma returns__ensure_final_cleanup : returns (_ensure_final_cleanup oracle).
Proof.
  unfold _ensure_final_cleanup.
  apply returns_bind; [apply returns_gets|].
  intros [a|]; [apply returns__cancel_number|apply returns_ret].
Qed.

(** X15: No exception escapes the orchestrator: [handle_verification]
    returns a boolean from every state and in every world, and so do
    [_try_verification_cycle], [_get_new_number], [_submit_phone_number],
    [_handle_sms_verification], [_validate_initial_conditions],
    [_check_number_availability] and [_ensure_phone_verification_screen],
    whatever the driver and the SMS service do. *)
Theorem handle_verification_never_raises :
  returns (handle_verification oracle selected_countries)
  /\ returns (_try_verification_cycle oracle selected_countries)
  /\ returns (_get_new_number oracle selected_countries)
  /\ returns (_submit_phone_number oracle)
  /\ returns (_handle_sms_verification oracle)
  /\ returns (_validate_initial_conditions oracle selected_countries)
  /\ returns (_check_number_availability oracle selected_countries)
  /\ (forall n, returns (_ensure_phone_verification_screen oracle n)).
Proof.
  split; [|split; [|split; [|split; [|split; [|split; [|split]]]]]].
  - unfold handle_verification.
    apply returns_try_finally; [|apply returns__ensure_final_cleanup].
    apply returns_try_catch. intros _.
    apply returns_bind; [apply returns_gets|]. intros st.
    apply returns_bind; [|intros _; apply returns_ret].
    case_bool_decide; [apply returns__cancel_current_number|apply returns_ret].
  - unfold _try_verification_cycle.
    apply returns_bind; [|intros r; apply returns_ret].
    apply returns_try_catch. intros _.
    apply returns_bind; [apply returns__cancel_number|intros _; apply returns_ret].
  - apply returns_try_catch. intros _. apply returns_ret.
  - apply returns_try_catch. intros _. apply returns_ret.
  - apply returns_try_catch. intros _.
    apply returns_bind; [apply returns__cancel_current_number|].
    intros _. apply returns_ret.
  - apply returns_try_catch. intros _. apply returns_ret.
  - apply returns_try_catch. intros _. apply returns_ret.
  - intros n. unfold _ensure_phone_verification_screen.
    generalize (Z.of_nat <$> seq 0 n). intros l.
    apply returns_bind; [|intros [b|]; apply returns_ret].
    induction l as [|x l IH]; cbn [for_loop]; [apply returns_ret|].
    apply returns_bind.
    + apply returns_try_catch. intros _. apply returns_ret.
    + intros [| |r]; [exact IH|apply returns_ret|apply returns_ret].
Qed.

(** What the final cleanup leaves: no activation, unless the state is
    COMPLETED, in which case it changes nothing. *)
Lemma _ensure_final_cleanup_post s :
  (_ensure_final_cleanup oracle s).1 = Ret tt
  /\ (current_activation (_ensure_final_cleanup oracle s).2 = None
      \/ (state s = COMPLETED /\ (_ensure_final_cleanup oracle s).2 = s)).
Proof.
  cbv [_ensure_final_cleanup _cancel_number try_catch bind gets ret
       set_status exclude emit modify ask].
  destruct (current_activation s) as [a|] eqn:Hact; [|by split; [|left]].
  rewrite Hact. case_bool_decide; [by split; [|right]|by split; [|left]].
Qed.

(** X16: When [handle_verification] is over, the object holds no
    activation unless its state is COMPLETED: whatever happened during the
    run, the final cleanup lets go of an activation that was not used to
    completion, and it keeps one that was. *)
Theorem handle_verification_releases s :
  current_activation (handle_verification oracle selected_countries s).2 = None
  \/ state (handle_verification oracle selected_countries s).2 = COMPLETED.
Proof.
  unfold handle_verification, try_finally.
  match goal with
  | |- context [try_catch ?m ?h s] => destruct (try_catch m h s) as [r sm]
  end.
  destruct (_ensure_final_cleanup_post sm) as [Hret Hpost].
  destruct (_ensure_final_cleanup oracle sm) as [[[]|e] sf]; [|done].
  simpl in *. destruct Hpost as [Hnone|[Hst ->]]; [by left|by right].
Qed.

End Returns.

(** ** The orchestrator: validation before any purchase *)

Lemma iter_bump_swap k s : Nat.iter k bump (bump s) = bump (Nat.iter k bump s).
Proof. induction k as [|k IH]; simpl; [done|]. by rewrite IH. Qed.

Lemma iter_bump_fields k s :
  current_activation (Nat.iter k bump s) = current_activation s
  /\ used_countries (Nat.iter k bump s) = used_countries s
  /\ state (Nat.iter k bump s) = state s
  /\ _available_numbers (Nat.iter k bump s) = _available_numbers s
  /\ phone_number (Nat.iter k bump s) = phone_number s
  /\ phone_manager (Nat.iter k bump s) = phone_manager s
  /\ log (Nat.iter k bump s) = log s
  /\ tick (Nat.iter k bump s) = (tick s + k)%nat.
Proof.
  induction k as [|k (H1 & H2 & H3 & H4 & H5 & H6 & H7 & H8)]; simpl.
  - do 7 (split; [done|]). lia.
  - do 7 (split; [done|]). lia.
Qed.

Section Validation.
Variable oracle : nat -> answer.
Variable selected_countries : list (string * string).

(** The availability loop only makes stock queries; what it adds to the
    list are countries of [cs] outside the exclusion set, each with the
    positive count the service reported for it. *)
Lemma availability_loop_spec cs acc s :
  exists l k,
    availability_loop oracle cs acc s = (Ret (acc ++ l), Nat.iter k bump s)
    /\ forall c n name,
         (c, (n, name)) ∈ l ->
         (c, name) ∈ cs /\ (c ∉ used_countries s) /\ (0 < n)%Z
         /\ exists j, (j < k)%nat /\ n = a_count (oracle (tick s + j)%nat).
Proof.
  revert acc s. induction cs as [|[c0 name0] cs IH]; intros acc s.
  - exists [], 0%nat. simpl. rewrite app_nil_r. split; [done|].
    intros c n name Hin. by apply elem_of_nil in Hin.
  - cbn [availability_loop]. rewrite bind_run. cbn [gets].
    case_bool_decide as Hused.
    + destruct (IH acc s) as (l & k & Hrun & Hl). exists l, k.
      split; [done|]. intros c n name Hin.
      destruct (Hl _ _ _ Hin) as (Hc & Hrest). split; [by right|done].
    + rewrite bind_run. unfold get_number_status. cbn [ask].
      destruct (0 <? a_count (oracle (tick s)))%Z eqn:Hpos.
      * destruct (IH (acc ++ [(c0, (a_count (oracle (tick s)), name0))]) (bump s))
          as (l & k & Hrun & Hl).
        exists ((c0, (a_count (oracle (tick s)), name0)) :: l), (S k). split.
        { rewrite Hrun, <- app_assoc. simpl. by rewrite iter_bump_swap. }
        intros c n name Hin. apply elem_of_cons in Hin as [[= -> -> ->]|Hin].
        -- split; [by left|]. split; [done|]. split; [by apply Z.ltb_lt|].
           exists 0%nat. split; [lia|]. by rewrite Nat.add_0_r.
        -- destruct (Hl _ _ _ Hin) as (Hc & Hu & Hn & j & Hj & Hcount).
           split; [by right|]. split; [done|]. split; [done|].
           exists (S j). split; [lia|]. rewrite Hcount. simpl. do 2 f_equal. lia.
      * destruct (IH acc (bump s)) as (l & k & Hrun & Hl).
        exists l, (S k). split.
        { rewrite Hrun. simpl. by rewrite iter_bump_swap. }
        intros c n name Hin.
        destruct (Hl _ _ _ Hin) as (Hc & Hu & Hn & j & Hj & Hcount).
        split; [by right|]. split; [done|]. split; [done|].
        exists (S j). split; [lia|]. rewrite Hcount. simpl. do 2 f_equal. lia.
Qed.

Lemma _validate_initial_conditions_spec s :
  let run := _validate_initial_conditions oracle selected_countries s in
  log run.2 = log s
  /\ used_countries run.2 = used_countries s
  /\ current_activation run.2 = current_activation s
  /\ phone_manager run.2 = phone_manager s
  /\ state run.2 = state s
  /\ match run.1 with
     | Ret true =>
         (exists b, a_balance (oracle (tick s)) = Some b /\ (0 < b)%Q)
         /\ _available_numbers run.2 <> []
         /\ forall c n name,
              (c, (n, name)) ∈ _available_numbers run.2 ->
              (c, name) ∈ selected_countries /\ (c ∉ used_countries s) /\ (0 < n)%Z
              /\ exists j, n = a_count (oracle j)
     | Ret false => _available_numbers run.2 = _available_numbers s
     | Exc _ => False
     end.
Proof.
  intros run. subst run.
  destruct (_validate_initial_conditions oracle selected_countries s)
    as [r s'] eqn:Hrun. simpl.
  unfold _validate_initial_conditions, try_catch in Hrun.
  rewrite bind_run in Hrun. unfold get_balance in Hrun. cbn [ask] in Hrun.
  destruct (a_balance (oracle (tick s))) as [b|] eqn:Hb;
    [|by injection Hrun as <- <-].
  destruct (Qle_bool b 0) eqn:Hle; [by injection Hrun as <- <-|].
  rewrite bind_run in Hrun.
  unfold _check_number_availability, try_catch in Hrun.
  rewrite bind_run in Hrun.
  destruct (availability_loop_spec selected_countries [] (bump s))
    as (l & k & Hloop & Hl).
  rewrite Hloop in Hrun.
  destruct (iter_bump_fields k (bump s)) as (H1 & H2 & H3 & H4 & H5 & H6 & H7 & H8).
  destruct l as [|x l]; simpl in Hrun; injection Hrun as <- <-; simpl.
  - done.
  - do 5 (split; [done|]). split.
    + exists b. split; [done|]. apply Qnot_le_lt. intros Hb0.
      apply Qle_bool_iff in Hb0. congruence.
    + split; [done|]. intros c n name Hin.
      destruct (Hl _ _ _ Hin) as (Hc & Hu & Hn & j & _ & Hcount).
      split; [done|]. split; [done|]. split; [done|]. by eexists.
Qed.

(** X17: What [_validate_initial_conditions] checks and leaves behind. It
    never raises and changes neither the log, the exclusion set, the
    activation nor the store. It returns [True] only with a balance above
    zero, and then [_available_numbers] is not empty and lists only
    allow-listed countries outside the exclusion set for which the service
    reported stock above zero. When it returns [False],
    [_available_numbers] is left as it was. *)
Theorem _validate_initial_conditions_checks s :
  let run := _validate_initial_conditions oracle selected_countries s in
  log run.2 = log s
  /\ used_countries run.2 = used_countries s
  /\ current_activation run.2 = current_activation s
  /\ phone_manager run.2 = phone_manager s
  /\ match run.1 with
     | Ret true =>
         (exists b, a_balance (oracle (tick s)) = Some b /\ (0 < b)%Q)
         /\ _available_numbers run.2 <> []
         /\ forall c n name,
              (c, (n, name)) ∈ _available_numbers run.2 ->
              (c, name) ∈ selected_countries /\ (c ∉ used_countries s) /\ (0 < n)%Z
     | Ret false => _available_numbers run.2 = _available_numbers s
     | Exc _ => False
     end.
Proof.
  intros run. subst run.
  destruct (_validate_initial_conditions_spec s) as (H1 & H2 & H3 & H4 & _ & H5).
  do 4 (split; [done|]).
  destruct (_validate_initial_conditions oracle selected_countries s).1
    as [[]|e]; [|done|done].
  destruct H5 as (Hb & Hne & Hall). split; [done|]. split; [done|].
  intros c n name Hin. destruct (Hall _ _ _ Hin) as (? & ? & ? & _). done.
Qed.

(** X18: With the phone step on the form but no stock reported for any
    country, [handle_verification] returns [False] and makes no
    [buy_number] call, whatever the balance is. *)
Theorem handle_verification_no_stock s :
  a_exn (oracle (tick s)) = None ->
  (forall k, (a_count (oracle k) <= 0)%Z) ->
  (handle_verification oracle selected_countries s).1 = Ret false
  /\ no_purchase s (handle_verification oracle selected_countries s).2.
Proof.
  intros Hscreen Hstock.
  assert ((_validate_initial_conditions oracle selected_countries (bump s)).1
          = Ret false) as Hvalid.
  { destruct (_validate_initial_conditions_spec (bump s)) as (_ & _ & _ & _ & _ & H).
    destruct (_validate_initial_conditions oracle selected_countries (bump s)).1
      as [[]|e]; [|done|done].
    destruct H as (_ & Hne & Hall). exfalso.
    destruct (_available_numbers _) as [|[c [n name]] l]; [done|].
    destruct (Hall c n name) as (_ & _ & Hn & j & ->); [by left|].
    specialize (Hstock j). lia. }
  pose proof (steps__validate_initial_conditions oracle selected_countries
                no_purchase (bump s)) as Hsteps.
  unfold handle_verification, try_finally.
  match goal with
  | |- context [try_catch ?m ?h s] =>
      assert (try_catch m h s
              = (Ret false,
                 (_validate_initial_conditions oracle selected_countries (bump s)).2))
        as Hmain
  end.
  { unfold try_catch at 1. rewrite bind_run.
    unfold _check_phone_screen, try_timeout, try_catch, wait_until, drv.
    rewrite bind_run, Hscreen. cbn [ret negb]. rewrite bind_run.
    destruct (_validate_initial_conditions oracle selected_countries (bump s))
      as [r sv]. simpl in Hvalid. by subst r. }
  rewrite Hmain.
  set (sv := (_validate_initial_conditions oracle selected_countries (bump s)).2) in *.
  pose proof (steps__ensure_final_cleanup oracle no_purchase sv) as Hclean.
  destruct (_ensure_final_cleanup_post oracle sv) as [Hret _].
  destruct (_ensure_final_cleanup oracle sv) as [[[]|e] sf]; [|done].
  split; [done|]. simpl in *.
  etrans; [apply stepping_bump|]. etrans; [exact Hsteps|exact Hclean].
Qed.

End Validation.

Lemma handle_verification_no_stock_witness :
  a_exn (no_stock_oracle (tick (init None))) = None
  /\ (forall k, (a_count (no_stock_oracle k) <= 0)%Z)
  /\ (handle_verification no_stock_oracle default_selected_countries (init None)).1
     = Ret false
  /\ no_purchase (init None)
       (handle_verification no_stock_oracle default_selected_countries (init None)).2.
Proof.
  assert (forall k, (a_count (no_stock_oracle k) <= 0)%Z) as Hstock
    by (intros k; simpl; lia).
  split; [reflexivity|]. split; [exact Hstock|].
  exact (handle_verification_no_stock no_stock_oracle default_selected_countries
           (init None) eq_refl Hstock).
Defined.

(** ** The orchestrator: how many numbers a run can buy *)

Lemma bought_app l1 l2 : bought (l1 ++ l2) = bought l1 ++ bought l2.
Proof.
  induction l1 as [|[c [[aid phone]|]|aid k|c] l1 IH]; simpl; try done.
  case_bool_decide; simpl; by rewrite IH.
Qed.

Lemma failed_buys_bought failed evs : failed_buys failed evs -> bought evs = [].
Proof.
  induction 1 as [|c p r l evs Hr _ IH]; [done|].
  destruct r as [[aid phone]|]; simpl; [|done].
  simpl in Hr. apply negb_false_iff in Hr. by rewrite Hr.
Qed.

Lemma within_same n s s' : log s' = log s -> within n s s'.
Proof. intros Hlog. exists []. split; [by rewrite app_nil_r|simpl; lia]. Qed.

Lemma within_trans a b s1 s2 s3 :
  within a s1 s2 -> within b s2 s3 -> within (a + b) s1 s3.
Proof.
  intros (l1 & Hl1 & Hn1) (l2 & Hl2 & Hn2). exists (l1 ++ l2).
  split; [by rewrite Hl2, Hl1, app_assoc|].
  rewrite bought_app, length_app. lia.
Qed.

Lemma within_weaken a b s s' : (a <= b)%nat -> within a s s' -> within b s s'.
Proof. intros Hle (l & Hl & Hn). exists l. split; [done|lia]. Qed.

#[global] Instance nothing_bought_preorder : PreOrder nothing_bought.
Proof.
  split.
  - intros s. by apply within_same.
  - intros a b c Hab Hbc. exact (within_trans 0 0 _ _ _ Hab Hbc).
Qed.

#[global] Instance nothing_bought_stepping : Stepping nothing_bought.
Proof.
  split; [apply _|..]; intros.
  1-4: by apply within_same.
  - exists [EvSetStatus aid k]. split; [done|]. simpl. lia.
  - exists [EvExclude c]. split; [done|]. simpl. lia.
Qed.

(** With an empty allow-list [_get_new_number] does nothing, which lets the
    rules for the success path be used for [nothing_bought]: that path
    does not depend on the allow-list. *)
#[global] Instance nothing_bought_run oracle : SteppingRun oracle [] nothing_bought.
Proof.
  split; [apply _|..]; intros.
  - by apply within_same.
  - by apply within_same.
  - intros s. by apply within_same.
Qed.

Section Spending.
Variable oracle : nat -> answer.
Variable selected_countries : list (string * string).

Lemma spends_steps {A} (m : M A) : steps nothing_bought m -> spends 0 m.
Proof. intros Hm s. apply Hm. Qed.

Lemma spends_weaken {A} a b (m : M A) : (a <= b)%nat -> spends a m -> spends b m.
Proof. intros Hle Hm s. by eapply within_weaken. Qed.

Lemma spends_ret {A} n (a : A) : spends n (ret a).
Proof. intros s. by apply within_same. Qed.

Lemma spends_bind {A B} a b (m : M A) (k : A -> M B) :
  spends a m -> (forall x, spends b (k x)) -> spends (a + b) (bind m k).
Proof.
  intros Hm Hk s. rewrite bind_run. specialize (Hm s).
  destruct (m s) as [[x|e] s1]; simpl in *.
  - eapply within_trans; [exact Hm|apply Hk].
  - eapply within_weaken; [|exact Hm]. lia.
Qed.

Lemma spends_try_catch {A} a b (m : M A) h :
  spends a m -> (forall e, spends b (h e)) -> spends (a + b) (try_catch m h).
Proof.
  intros Hm Hh s. unfold try_catch. specialize (Hm s).
  destruct (m s) as [[x|e] s1]; simpl in *.
  - eapply within_weaken; [|exact Hm]. lia.
  - eapply within_trans; [exact Hm|apply Hh].
Qed.

Lemma spends_try_finally {A} a b (m : M A) f :
  spends a m -> spends b f -> spends (a + b) (try_finally m f).
Proof.
  intros Hm Hf s. unfold try_finally. specialize (Hm s).
  destruct (m s) as [r s1]. specialize (Hf s1).
  destruct (f s1) as [[[]|e] s2]; simpl in *; by eapply within_trans.
Qed.

(** One acquisition buys at most one number: the purchases before the one
    that yields a number all reported none. *)
Lemma spends__get_new_number : spends 1 (_get_new_number oracle selected_countries).
Proof.
  intros s.
  destruct (_get_new_number_run oracle selected_countries s) as (s1 & Hrun & Hs1).
  rewrite Hrun.
  assert (log s1 = log s) as Hlog1 by (by destruct Hs1 as [->| ->]).
  destruct (buy_loop_spec oracle (candidates oracle selected_countries s) s1)
    as (failed & evs & Hfail & _ & _ & _ & _ & Hres).
  apply failed_buys_bought in Hfail.
  destruct (buy_loop oracle _ s1).1 as [[act|]|e]; [| |done].
  - destruct Hres as (p & rest & _ & Hlog & Hne & _).
    eexists. split; [rewrite Hlog, Hlog1; reflexivity|].
    rewrite bought_app, Hfail. simpl. rewrite bool_decide_eq_false_2 by done.
    simpl. lia.
  - destruct Hres as (_ & Hlog & _).
    exists evs. split; [by rewrite Hlog, Hlog1|]. rewrite Hfail. simpl. lia.
Qed.

Lemma spends__try_verification_cycle :
  spends 1 (_try_verification_cycle oracle selected_countries).
Proof.
  unfold _try_verification_cycle.
  apply (spends_bind 1 0); [|intros r; apply spends_ret].
  apply (spends_try_catch 1 0).
  - apply (spends_bind 0 1); [apply spends_steps, steps_gets, _|]. intros used.
    apply (spends_bind 0 1).
    { apply spends_steps. case_bool_decide; [apply steps_ret, _|].
      apply steps_bind; [apply _|apply steps_drv, _|intros _].
      apply steps_bind; [apply _|apply steps__check_phone_screen, _|intros _].
      apply steps_ret, _. }
    intros _.
    apply (spends_bind 1 0); [apply spends__get_new_number|]. intros act.
    apply (spends_bind 0 0).
    { apply spends_steps. intros s. by apply within_same. }
    intros _. destruct act as [a|]; [|apply spends_ret].
    apply (spends_bind 0 0);
      [apply spends_steps, steps__submit_phone_number, _|].
    intros ok. destruct ok; cbn [negb]; [|apply spends_ret].
    apply (spends_bind 0 0);
      [apply spends_steps, (steps__handle_sms_verification oracle []), _|].
    intros ok. destruct ok; apply spends_ret.
  - intros e.
    apply (spends_bind 0 0); [apply spends_steps, steps__cancel_number, _|].
    intros _. apply spends_ret.
Qed.

Lemma spends_attempts_loop left n :
  spends left (attempts_loop oracle selected_countries left n).
Proof.
  revert n. induction left as [|left IH]; intros n; cbn [attempts_loop].
  - apply spends_ret.
  - cbv zeta. apply (spends_bind 0 (S left)).
    { apply spends_steps.
      case_bool_decide;
        [apply steps__ensure_phone_verification_screen, _|apply steps_ret, _]. }
    intros on_screen. destruct on_screen; cbn [negb].
    + apply (spends_bind 1 left).
      * apply (spends_try_catch 1 0); [apply spends__try_verification_cycle|].
        intros e. apply spends_ret.
      * intros ok. destruct ok; [apply spends_ret|apply IH].
    + eapply spends_weaken; [|apply IH]. lia.
Qed.

(** X19: One run of [handle_verification] buys at most
    [MAX_PHONE_ATTEMPTS] numbers, in every world and from every state:
    each attempt stops buying at the first purchase that yields a number. *)
Theorem handle_verification_buys_at_most s :
  exists l,
    log (handle_verification oracle selected_countries s).2 = log s ++ l
    /\ (length (bought l) <= MAX_PHONE_ATTEMPTS)%nat.
Proof.
  revert s. change (spends MAX_PHONE_ATTEMPTS
                      (handle_verification oracle selected_countries)).
  unfold handle_verification.
  apply (spends_try_finally 3 0);
    [|apply spends_steps, steps__ensure_final_cleanup, _].
  apply (spends_try_catch 3 0).
  - apply (spends_bind 0 3);
      [apply spends_steps, steps__check_phone_screen, _|].
    intros present. destruct present; cbn [negb]; [|apply spends_ret].
    apply (spends_bind 0 3);
      [apply spends_steps, steps__validate_initial_conditions, _|].
    intros valid. destruct valid; cbn [negb]; [|apply spends_ret].
    apply (spends_bind 3 0); [apply spends_attempts_loop|].
    intros success. destruct success; apply spends_ret.
  - intros e.
    apply (spends_bind 0 0); [apply spends_steps, steps_gets, _|]. intros st.
    apply (spends_bind 0 0); [|intros _; apply spends_ret].
    apply spends_steps.
    case_bool_decide; [apply steps__cancel_current_number, _|apply steps_ret, _].
Qed.

End Spending.

(** ** The run as a whole, and its caller *)

Section WholeRun.
Variable oracle : nat -> answer.
Variable selected_countries : list (string * string).

(** The [except] branch of [handle_verification]. *)
Lemma handle_verification_handler_post sv :
  let h := bind (gets state)
             (fun st => bind (if bool_decide (st <> COMPLETED)
                              then _cancel_current_number oracle else ret tt)
                          (fun _ => ret false)) in
  (h sv).1 = Ret false /\ store_kept sv (h sv).2.
Proof.
  intros h. subst h. rewrite bind_run. cbn [gets]. rewrite bind_run.
  case_bool_decide; [|done].
  destruct (returns__cancel_current_number oracle sv) as [[] Hret].
  pose proof (steps__cancel_current_number oracle store_kept sv) as Hsteps.
  destruct (_cancel_current_number oracle sv) as [[[]|e] s']; [|done].
  done.
Qed.

(** How a run of [handle_verification] can end: trivially, the phone step
    being absent; with a verification cycle that reached the confirmation;
    or with [False], the store untouched. *)
Lemma handle_verification_post s :
  let run := handle_verification oracle selected_countries s in
  match run.1 with
  | Ret true =>
      (a_exn (oracle (tick s)) = Some TimeoutException
       /\ run.2 = (_ensure_final_cleanup oracle (bump s)).2)
      \/ (a_exn (oracle (tick s)) = None
          /\ exists sc, store_kept s sc /\ cycle_ok oracle sc run.2)
  | Ret false => store_kept s run.2
  | Exc _ => False
  end.
Proof.
  intros run. subst run. unfold handle_verification, try_finally.
  match goal with
  | |- context [try_catch ?m ?h s] => destruct (try_catch m h s) as [r sm] eqn:Hmain
  end.
  assert (match r with
          | Ret true =>
              (a_exn (oracle (tick s)) = Some TimeoutException /\ sm = bump s)
              \/ (a_exn (oracle (tick s)) = None
                  /\ exists sc, store_kept s sc /\ cycle_ok oracle sc sm)
          | Ret false => store_kept s sm
          | Exc _ => False
          end) as Hm.
  { unfold try_catch in Hmain. rewrite bind_run in Hmain.
    unfold _check_phone_screen, try_timeout, try_catch, wait_until, drv in Hmain.
    rewrite bind_run in Hmain.
    destruct (a_exn (oracle (tick s))) as [[|]|] eqn:Hscreen;
      cbn [ret negb raise] in Hmain.
    - injection Hmain as <- <-. by left.
    - destruct (handle_verification_handler_post (bump s)) as [Hret Hkept].
      cbv zeta in Hret, Hkept. rewrite Hmain in Hret, Hkept. simpl in *. subst r.
      etrans; [apply stepping_bump|exact Hkept].
    - rewrite bind_run in Hmain.
      pose proof (steps__validate_initial_conditions oracle selected_countries
                    store_kept (bump s)) as Hvalid.
      pose proof (attempts_loop_triple oracle selected_countries
                    MAX_PHONE_ATTEMPTS 0 s) as Hloop.
      remember (attempts_loop oracle selected_countries MAX_PHONE_ATTEMPTS 0) as loop.
      clear Heqloop.
      destruct (_validate_initial_conditions oracle selected_countries (bump s))
        as [[[]|e] sv]; cbn [fst snd negb] in Hvalid, Hmain.
      + rewrite bind_run in Hmain.
        assert (store_kept s sv) as Hsv
          by (etrans; [apply stepping_bump|exact Hvalid]).
        specialize (Hloop sv Hsv).
        destruct (loop sv) as [[[]|e] sl]; cbn [fst snd negb] in Hloop, Hmain.
        * injection Hmain as <- <-. by right.
        * by injection Hmain as <- <-.
        * destruct (handle_verification_handler_post sl) as [Hret Hkept].
          cbv zeta in Hret, Hkept. rewrite Hmain in Hret, Hkept. simpl in *.
          subst r. etrans; [exact Hloop|exact Hkept].
      + injection Hmain as <- <-.
        etrans; [apply stepping_bump|exact Hvalid].
      + destruct (handle_verification_handler_post sv) as [Hret Hkept].
        cbv zeta in Hret, Hkept. rewrite Hmain in Hret, Hkept. simpl in *.
        subst r. etrans; [apply stepping_bump|]. etrans; [exact Hvalid|exact Hkept]. }
  destruct (_ensure_final_cleanup_post oracle sm) as [Hret _].
  pose proof (steps__ensure_final_cleanup oracle store_kept sm) as Hclean.
  destruct r as [[]|e]; [| |done].
  - destruct Hm as [[Hscreen ->]|[Hscreen (sc & Hsc & Hok)]].
    + destruct (_ensure_final_cleanup oracle (bump s)) as [[[]|e] sf]; [|done].
      by left.
    + pose proof Hok as Hok'.
      destruct Hok' as (act & s1 & s2 & evs & _ & _ & _ & _ & _ & _ & Hconfirm).
      destruct (confirm_success_spec oracle (ActivationInfo.activation_id act) s2)
        as (s3 & Hconfirm' & _ & Hst3 & _).
      rewrite Hconfirm in Hconfirm'. injection Hconfirm' as <-.
      rewrite (_ensure_final_cleanup_completed oracle sm Hst3).
      right. split; [done|]. by exists sc.
  - destruct (_ensure_final_cleanup oracle sm) as [[[]|e] sf]; [|done].
    simpl in *. etrans; [exact Hm|exact Hclean].
Qed.

(** X20: The reuse store is written only by a run that succeeds: after
    [handle_verification], the phone manager is exactly as before the run
    unless the run returned [True] with the phone step on the form, the
    state then being COMPLETED. A failed run, however far it got, leaves
    the store untouched. *)
Theorem handle_verification_store_on_success_only s :
  let run := handle_verification oracle selected_countries s in
  phone_manager run.2 = phone_manager s
  \/ (run.1 = Ret true /\ a_exn (oracle (tick s)) = None /\ state run.2 = COMPLETED).
Proof.
  intros run. subst run.
  pose proof (handle_verification_post s) as Hpost. cbv zeta in Hpost.
  destruct (handle_verification oracle selected_countries s) as [[[]|e] s'];
    simpl in *; [| |done].
  - destruct Hpost as [[_ ->]|[Hscreen (sc & _ & Hok)]].
    + left.
      pose proof (steps__ensure_final_cleanup oracle store_kept (bump s)) as [H _].
      exact H.
    + right. split; [done|]. split; [done|].
      destruct Hok as (act & s1 & s2 & evs & _ & _ & _ & _ & _ & _ & Hconfirm).
      destruct (confirm_success_spec oracle (ActivationInfo.activation_id act) s2)
        as (s3 & Hconfirm' & _ & Hst3 & _).
      rewrite Hconfirm in Hconfirm'. by injection Hconfirm' as <-.
  - left. by destruct Hpost.
Qed.

(** X21: What the phone step of [create_account] hands to the rest of the
    account creation. When it does not raise, either the phone step was
    absent at the caller's check, nothing was bought, and the data are the
    caller's own parameters with the country name "unknown"; or a number
    was bought during the run, [set_status(id, 8)] for it is the last call
    made, and the data are exactly the phone number, country code and
    activation id of that purchase, with the allow-list name of the
    country. *)
Theorem create_account_phone_step_data pm phone_params s :
  let run := create_account_phone_step oracle selected_countries pm phone_params s in
  match run.1 with
  | Ret d =>
      (a_exn (oracle (tick s)) = Some TimeoutException
       /\ log run.2 = log s
       /\ d = PhoneData.Make (phone_params ≫= PhoneParams.phone_number)
                             (phone_params ≫= PhoneParams.country_code)
                             (phone_params ≫= PhoneParams.activation_id)
                             "unknown")
      \/ (a_exn (oracle (tick s)) = None
          /\ exists country aid phone l1 l2,
               log run.2 = log s ++ l1 ++ [EvBuy country (Some (aid, phone))]
                                 ++ l2 ++ [EvSetStatus aid 8]
               /\ phone <> ""
               /\ state run.2 = COMPLETED
               /\ d = PhoneData.Make (Some phone) (Some country) (Some aid)
                        (dict_get selected_countries country "unknown"))
  | Exc _ => True
  end.
Proof.
  intros run. subst run.
  destruct (create_account_phone_step oracle selected_countries pm phone_params s)
    as [r s'] eqn:Hrun. simpl.
  unfold create_account_phone_step in Hrun. rewrite bind_run in Hrun.
  cbn [modify] in Hrun.
  set (s0 := Obj None ∅ INITIAL [] None pm (tick s) (log s)) in *.
  rewrite bind_run in Hrun.
  unfold _check_phone_screen, try_timeout, try_catch, wait_until, drv in Hrun.
  rewrite bind_run in Hrun.
  change (tick s0) with (tick s) in Hrun.
  destruct (a_exn (oracle (tick s))) as [[|]|] eqn:Hscreen; cbn [ret raise] in Hrun.
  - injection Hrun as <- <-. by left.
  - by injection Hrun as <- <-.
  - rewrite bind_run in Hrun.
    pose proof (handle_verification_post (bump s0)) as Hpost. cbv zeta in Hpost.
    destruct (handle_verification oracle selected_countries (bump s0))
      as [[[]|e] sh]; simpl in Hpost; cbn [negb] in Hrun;
      [|by injection Hrun as <- <-|done].
    rewrite bind_run in Hrun. unfold get_current_phone_data in Hrun.
    rewrite bind_run in Hrun. cbn [gets] in Hrun.
    destruct Hpost as [[_ Hsh]|[_ (sc & Hsc & Hok)]].
    + destruct (_ensure_final_cleanup_returns oracle (bump (bump s0)))
        as (_ & _ & Hnone).
      assert (sh = bump (bump s0)) as -> by (etrans; [exact Hsh|by apply Hnone]).
      by injection Hrun as <- <-.
    + destruct Hok
        as (act & s1 & s2 & evs & Hlog1 & _ & _ & Hne & Hact1 & Hheld & Hconfirm).
      destruct (confirm_success_spec oracle (ActivationInfo.activation_id act) s2)
        as (s3 & Hconfirm' & Hlog3 & Hst3 & Hact3 & _).
      rewrite Hconfirm in Hconfirm'. injection Hconfirm' as <-.
      destruct Hsc as [_ [k0 Hlogc]].
      destruct Hheld as (_ & _ & Hact2 & (k2 & Hlog2 & _)).
      rewrite Hact3 in Hrun.
      destruct Hact2 as [Hact2|Hact2]; rewrite Hact2 in Hrun.
      * rewrite Hact1 in Hrun. injection Hrun as <- <-. right. split; [done|].
        exists (ActivationInfo.country_code act), (ActivationInfo.activation_id act),
               (ActivationInfo.phone_number act), (k0 ++ evs), k2.
        split; [|done].
        rewrite Hlog3, Hlog2, Hlog1, Hlogc. simpl. by rewrite <- !app_assoc.
      * by injection Hrun as <- <-.
Qed.

End WholeRun.

(** ** The phases of a verification cycle: submitting, waiting for the code *)

Section Ends.
Context {A B : Type}.

Lemma ends_weaken (Q : res A -> obj -> Prop) (m : M A) :
  ends Q m -> ends (unless_raised Q) m.
Proof. intros Hm s. specialize (Hm s). by destruct (m s).1. Qed.

Lemma ends_bind_unless (Q : res B -> obj -> Prop) (m : M A) (k : A -> M B) :
  (forall a, ends (unless_raised Q) (k a)) -> ends (unless_raised Q) (bind m k).
Proof.
  intros Hk s. rewrite bind_run. destruct (m s) as [[a|e] s1]; [apply Hk|done].
Qed.

Lemma ends_try_catch (Q : res A -> obj -> Prop) (m : M A) h :
  ends (unless_raised Q) m -> (forall e, ends Q (h e)) -> ends Q (try_catch m h).
Proof.
  intros Hm Hh s. unfold try_catch. specialize (Hm s).
  destruct (m s) as [[a|e] s1]; [exact Hm|apply Hh].
Qed.

End Ends.

Section Phases.
Variable oracle : nat -> answer.

Lemma _cancel_current_number_post s :
  (_cancel_current_number oracle s).1 = Ret tt
  /\ current_activation (_cancel_current_number oracle s).2 = None.
Proof.
  cbv [_cancel_current_number try_catch bind gets ret set_status exclude emit
       modify ask].
  by destruct (current_activation s) as [a|] eqn:Hact.
Qed.

Lemma cancel_then_false :
  ends sms_outcome (bind (_cancel_current_number oracle) (fun _ => ret false)).
Proof.
  intros s. rewrite bind_run.
  destruct (_cancel_current_number_post s) as [Hret Hnone].
  by destruct (_cancel_current_number oracle s) as [[[]|e] s1].
Qed.

Lemma check_error_message_outcome msg :
  ends banner_outcome (check_error_message oracle msg).
Proof.
  intros s. unfold check_error_message, try_catch. rewrite bind_run.
  destruct (_element_exists oracle s) as [[[]|e] s1]; [| |done].
  - rewrite bind_run. destruct (_cancel_current_number_post s1) as [Hret Hnone].
    by destruct (_cancel_current_number oracle s1) as [[[]|e] s2].
  - destruct (str_in _ _); [|done]. rewrite bind_run.
    destruct (_element_exists oracle s1) as [[[]|e] s2]; [|done|done].
    rewrite bind_run. destruct (_cancel_current_number_post s2) as [Hret Hnone].
    by destruct (_cancel_current_number oracle s2) as [[[]|e] s3].
Qed.

Lemma error_messages_loop_outcome l s :
  match (for_loop l (check_error_message oracle) s).1 with
  | Ret (Some b) =>
      b = false
      /\ current_activation (for_loop l (check_error_message oracle) s).2 = None
  | _ => True
  end.
Proof.
  revert s. induction l as [|msg l IH]; intros s; [done|].
  cbn [for_loop]. rewrite bind_run.
  pose proof (check_error_message_outcome msg s) as Hbody.
  destruct (check_error_message oracle msg s) as [[[| |b]|e] s1]; simpl in *;
    [apply IH|done|done|done].
Qed.

Lemma enter_code_outcome aid code :
  ends (unless_raised sms_outcome) (enter_code oracle aid code).
Proof.
  unfold enter_code.
  do 6 (apply ends_bind_unless; intros _).
  intros s. rewrite bind_run.
  pose proof (error_messages_loop_outcome error_messages s) as Hloop.
  destruct (for_loop error_messages (check_error_message oracle) s)
    as [[[b|]|e] s1]; simpl in *; [|..|done].
  - by destruct Hloop as [-> Hnone].
  - destruct (confirm_success_spec oracle aid s1) as (s3 & -> & _ & Hst & _).
    exact Hst.
Qed.

Lemma _handle_sms_verification_ends :
  ends sms_outcome (_handle_sms_verification oracle).
Proof.
  unfold _handle_sms_verification.
  apply ends_try_catch; [|intros e; apply cancel_then_false].
  intros s. rewrite bind_run. cbn [gets].
  destruct (current_activation s) as [a|] eqn:Hact; [|exact Hact].
  clear Hact. revert s.
  match goal with
  | |- forall s, unless_raised _ (?m s).1 (?m s).2 =>
      change (ends (unless_raised sms_outcome) m)
  end.
  apply ends_bind_unless. intros _.
  apply ends_bind_unless. intros sms_process_start.
  apply ends_bind_unless. intros sms_code0.
  apply ends_bind_unless. intros sms_code.
  destruct (negb (truthy sms_code)).
  - apply ends_bind_unless. intros _. apply ends_weaken, cancel_then_false.
  - apply ends_bind_unless. intros now. cbv zeta.
    destruct (Qltb _ _); [apply ends_weaken, cancel_then_false|].
    apply ends_try_catch.
    + intros s. pose proof (enter_code_outcome
                              (ActivationInfo.activation_id a)
                              (default "" sms_code) s) as H.
      destruct (enter_code oracle _ _ s) as [[b|e] s1]; by simpl in *.
    + intros e. apply ends_weaken, cancel_then_false.
Qed.

(** X22: How the SMS phase ends. [_handle_sms_verification] never raises;
    when it returns [True] the state is COMPLETED; when it returns [False]
    the object holds no activation any more: every failing exit (no code
    in time, too little time left, an error banner, an exception) lets the
    number go through [_cancel_current_number], unless no activation was
    held in the first place. *)
Theorem _handle_sms_verification_outcome s :
  match (_handle_sms_verification oracle s).1 with
  | Ret true => state (_handle_sms_verification oracle s).2 = COMPLETED
  | Ret false => current_activation (_handle_sms_verification oracle s).2 = None
  | Exc _ => False
  end.
Proof. apply _handle_sms_verification_ends. Qed.

End Phases.

Lemma iter_bump_add k1 k2 s :
  Nat.iter (k2 + k1) bump s = Nat.iter k2 bump (Nat.iter k1 bump s).
Proof. induction k2 as [|k2 IH]; simpl; [done|]. by rewrite IH. Qed.

#[global] Instance requests_only_preorder : PreOrder requests_only.
Proof.
  split.
  - intros s. by exists 0%nat.
  - intros a b c [k1 ->] [k2 ->]. exists (k2 + k1)%nat. symmetry. apply iter_bump_add.
Qed.

Section Submit.
Variable oracle : nat -> answer.

Lemma requests_drv {A} (f : answer -> A) : steps requests_only (drv oracle f).
Proof. intros s. by exists 1%nat. Qed.

#[local] Hint Resolve requests_drv : steps.
#[local] Hint Unfold wait_until execute_script find_element click clear
  driver_get refresh current_url element_text is_displayed is_enabled : steps.

Lemma requests__element_exists : steps requests_only (_element_exists oracle).
Proof. unfold _element_exists. steps_go. Qed.

#[local] Hint Resolve requests__element_exists : steps.

Lemma requests_try_format phone_format :
  steps requests_only (try_format oracle phone_format).
Proof. unfold try_format. steps_go. Qed.

Lemma requests_locate_phone_input :
  steps requests_only (locate_phone_input oracle).
Proof. unfold locate_phone_input. steps_go. Qed.

(** What [_cancel_number] does with an activation held. *)
Lemma _cancel_number_effect s a :
  current_activation s = Some a ->
  (_cancel_number oracle s).1 = Ret tt
  /\ if bool_decide (state s = COMPLETED) then (_cancel_number oracle s).2 = s
     else current_activation (_cancel_number oracle s).2 = None
          /\ log (_cancel_number oracle s).2
             = log s ++ [EvSetStatus (ActivationInfo.activation_id a) 6;
                         EvExclude (ActivationInfo.country_code a)]
          /\ used_countries (_cancel_number oracle s).2
             = {[ActivationInfo.country_code a]} ∪ used_countries s
          /\ phone_manager (_cancel_number oracle s).2 = phone_manager s.
Proof.
  intros Hact.
  cbv [_cancel_number try_catch bind gets ret set_status exclude emit modify ask].
  rewrite Hact. case_bool_decide; [done|]. simpl.
  split; [done|]. split; [done|]. split; [|done]. by rewrite <- app_assoc.
Qed.

Lemma _submit_phone_number_post s :
  let run := _submit_phone_number oracle s in
  match run.1 with
  | Ret true => requests_only s run.2
  | Ret false =>
      requests_only s run.2
      \/ exists a s1,
           current_activation s = Some a
           /\ requests_only s s1
           /\ if bool_decide (state s = COMPLETED) then run.2 = s1
              else current_activation run.2 = None
                   /\ log run.2
                      = log s ++ [EvSetStatus (ActivationInfo.activation_id a) 6;
                                  EvExclude (ActivationInfo.country_code a)]
                   /\ used_countries run.2
                      = {[ActivationInfo.country_code a]} ∪ used_countries s
                   /\ phone_manager run.2 = phone_manager s
  | Exc _ => False
  end.
Proof.
  intros run. subst run.
  destruct (_submit_phone_number oracle s) as [r s'] eqn:Hrun. simpl.
  unfold _submit_phone_number, try_catch in Hrun.
  rewrite bind_run in Hrun. cbn [gets] in Hrun.
  assert (forall (b : bool) s2, requests_only s s2 ->
            match Ret b with
            | Ret true => requests_only s s2
            | Ret false =>
                requests_only s s2
                \/ exists a s1,
                     current_activation s = Some a
                     /\ requests_only s s1
                     /\ if bool_decide (state s = COMPLETED) then s2 = s1
                        else current_activation s2 = None
                             /\ log s2
                                = log s ++ [EvSetStatus (ActivationInfo.activation_id a) 6;
                                            EvExclude (ActivationInfo.country_code a)]
                             /\ used_countries s2
                                = {[ActivationInfo.country_code a]} ∪ used_countries s
                             /\ phone_manager s2 = phone_manager s
            | Exc _ => False
            end) as Hquiet.
  { intros [] s2 H; [done|by left]. }
  destruct (current_activation s) as [a|] eqn:Hact.
  2: { injection Hrun as <- <-. by apply (Hquiet false). }
  rewrite bind_run in Hrun.
  pose proof (requests_drv (fun _ => tt) s) as H1. unfold wait_until in Hrun.
  destruct (drv oracle (fun _ => tt) s) as [[[]|e] s1]; simpl in H1.
  2: { injection Hrun as <- <-. by apply (Hquiet false). }
  rewrite bind_run in Hrun.
  pose proof (requests_locate_phone_input s1) as H2.
  destruct (locate_phone_input oracle s1) as [[[b|]|e] s2]; simpl in H2.
  1: { injection Hrun as <- <-. apply (Hquiet b). by etrans. }
  2: { injection Hrun as <- <-. apply (Hquiet false). by etrans. }
  rewrite bind_run in Hrun.
  pose proof (requests_drv (fun _ => tt) s2) as H3. unfold execute_script in Hrun.
  destruct (drv oracle (fun _ => tt) s2) as [[[]|e] s3]; simpl in H3.
  2: { injection Hrun as <- <-. apply (Hquiet false). etrans; [|exact H3]. by etrans. }
  cbv zeta in Hrun. rewrite bind_run in Hrun.
  match type of Hrun with
  | context [for_loop ?l (try_format oracle) s3] =>
      pose proof (steps_for_loop requests_only l (try_format oracle)
                    requests_try_format s3) as H4;
      destruct (for_loop l (try_format oracle) s3) as [[[b|]|e] s4]; simpl in H4
  end.
  1: { injection Hrun as <- <-. apply (Hquiet b).
       etrans; [|exact H4]. etrans; [|exact H3]. by etrans. }
  2: { injection Hrun as <- <-. apply (Hquiet false).
       etrans; [|exact H4]. etrans; [|exact H3]. by etrans. }
  assert (requests_only s s4) as Hs4
    by (etrans; [|exact H4]; etrans; [|exact H3]; by etrans).
  rewrite bind_run in Hrun.
  destruct Hs4 as [k ->].
  destruct (iter_bump_fields k s) as (F1 & F2 & F3 & F4 & F5 & F6 & F7 & F8).
  destruct (_cancel_number_effect (Nat.iter k bump s) a) as [Hret Heff];
    [by rewrite F1|].
  destruct (_cancel_number oracle (Nat.iter k bump s)) as [[[]|e] s5]; [|done].
  injection Hrun as <- <-. right. exists a, (Nat.iter k bump s).
  split; [done|]. split; [by exists k|].
  simpl in Heff. rewrite F3 in Heff. case_bool_decide; [done|].
  destruct Heff as (E1 & E2 & E3 & E4). by rewrite E2, E3, E4, F7, F2, F6.
Qed.

(** X23: How [_submit_phone_number] ends. It never raises. When it returns
    [True] it has only talked to the browser: no call to the SMS service,
    the activation still held. When it returns [False], either it gave up
    before or while locating the phone field (or on an exception, or with
    no activation held) and again only talked to the browser, so that the
    number is neither cancelled nor let go; or every format was rejected
    and the number went through [_cancel_number]: unless the state is
    COMPLETED, [set_status(id, 6)] is called, the country joins the
    exclusion set and the activation is let go. *)
Theorem _submit_phone_number_outcome s :
  let run := _submit_phone_number oracle s in
  match run.1 with
  | Ret true => requests_only s run.2
  | Ret false =>
      requests_only s run.2
      \/ exists a s1,
           current_activation s = Some a
           /\ requests_only s s1
           /\ if bool_decide (state s = COMPLETED) then run.2 = s1
              else current_activation run.2 = None
                   /\ log run.2
                      = log s ++ [EvSetStatus (ActivationInfo.activation_id a) 6;
                                  EvExclude (ActivationInfo.country_code a)]
                   /\ used_countries run.2
                      = {[ActivationInfo.country_code a]} ∪ used_countries s
                   /\ phone_manager run.2 = phone_manager s
  | Exc _ => False
  end.
Proof. apply _submit_phone_number_post. Qed.

End Submit.

(** ** A verification cycle that fails *)

Section CycleFailure.
Variable oracle : nat -> answer.
Variable selected_countries : list (string * string).

Lemma requests__check_phone_screen :
  steps requests_only (_check_phone_screen oracle).
Proof.
  unfold _check_phone_screen, wait_until.
  apply steps_try_timeout; [apply _| |apply steps_ret, _].
  apply steps_bind; [apply _|apply requests_drv|intros _; apply steps_ret, _].
Qed.

(** What the acquisition leaves: the verification state is kept, and when a
    number comes back its purchase is the last call of the log. *)
Lemma _get_new_number_post s :
  let run := _get_new_number oracle selected_countries s in
  state run.2 = state s
  /\ match run.1 with
     | Ret (Some act) =>
         exists evs,
           log run.2 = log s ++ evs
                         ++ [EvBuy (ActivationInfo.country_code act)
                                   (Some (ActivationInfo.activation_id act,
                                          ActivationInfo.phone_number act))]
     | Ret None => True
     | Exc _ => False
     end.
Proof.
  intros run. subst run.
  destruct (_get_new_number_run oracle selected_countries s) as (s1 & -> & Hs1).
  assert (log s1 = log s /\ state s1 = state s) as [Hlog1 Hst1]
    by (by destruct Hs1 as [->| ->]).
  destruct (buy_loop_spec oracle (candidates oracle selected_countries s) s1)
    as (failed & evs & _ & _ & _ & _ & Hst & Hres).
  split; [congruence|].
  destruct (buy_loop oracle _ s1).1 as [[act|]|e]; [|done|done].
  destruct Hres as (p & rest & _ & Hlog & _). exists evs. by rewrite Hlog, Hlog1.
Qed.

(** X24: What a failed verification cycle leaves on the object. Started in
    a state other than COMPLETED, [_try_verification_cycle] never raises;
    when it returns [True] the state is COMPLETED; when it returns [False]
    either no activation is held any more, or the activation held is the
    number bought in this very cycle and its purchase is the last call of
    the log: the number was neither cancelled nor confirmed, which is the
    exit of [_submit_phone_number] that gives up without cancelling. *)
Theorem _try_verification_cycle_failure s :
  state s <> COMPLETED ->
  let run := _try_verification_cycle oracle selected_countries s in
  match run.1 with
  | Ret true => state run.2 = COMPLETED
  | Ret false =>
      current_activation run.2 = None
      \/ exists act evs,
           current_activation run.2 = Some act
           /\ log run.2 = log s ++ evs
                            ++ [EvBuy (ActivationInfo.country_code act)
                                      (Some (ActivationInfo.activation_id act,
                                             ActivationInfo.phone_number act))]
  | Exc _ => False
  end.
Proof.
  intros Hstate run. subst run.
  destruct (_try_verification_cycle oracle selected_countries s) as [r s'] eqn:Hrun.
  simpl. unfold _try_verification_cycle in Hrun. rewrite bind_run in Hrun.
  unfold try_catch in Hrun. rewrite bind_run in Hrun. cbn [gets] in Hrun.
  rewrite bind_run in Hrun.
  match type of Hrun with
  | context [(if ?b then ?m1 else ?m2) s] =>
      assert (steps requests_only (if b then m1 else m2)) as Hprefix;
      [|specialize (Hprefix s);
        destruct ((if b then m1 else m2) s) as [[[]|e] s0]; simpl in Hprefix]
  end.
  { case_bool_decide; [apply steps_ret, _|].
    apply steps_bind; [apply _|apply requests_drv|intros _].
    apply steps_bind; [apply _|apply requests__check_phone_screen|intros _].
    apply steps_ret, _. }
  - (* the cycle reaches the acquisition *)
    destruct Hprefix as [k ->].
    destruct (iter_bump_fields k s) as (F1 & F2 & F3 & F4 & F5 & F6 & F7 & F8).
    rewrite bind_run in Hrun.
    destruct (_get_new_number_post (Nat.iter k bump s)) as [Hst1 Hnew].
    destruct (_get_new_number oracle selected_countries (Nat.iter k bump s))
      as [[[act|]|e] s1]; simpl in Hst1, Hnew; [| |done].
    2: { rewrite bind_run in Hrun. cbn [modify ret] in Hrun.
         injection Hrun as <- <-. by left. }
    destruct Hnew as [evs Hlog1]. rewrite F7 in Hlog1.
    rewrite bind_run in Hrun. cbn [modify] in Hrun. rewrite bind_run in Hrun.
    set (s2 := set_current_activation (Some act) s1) in *.
    pose proof (_submit_phone_number_post oracle s2) as Hsubmit. cbv zeta in Hsubmit.
    destruct (_submit_phone_number oracle s2) as [[[]|e] s3]; simpl in Hsubmit;
      cbn [negb] in Hrun; [| |done].
    + rewrite bind_run in Hrun.
      pose proof (_handle_sms_verification_ends oracle s3) as Hsms.
      destruct (_handle_sms_verification oracle s3) as [[[]|e] s4]; simpl in Hsms;
        cbn [negb ret] in Hrun; [| |done].
      * by injection Hrun as <- <-.
      * injection Hrun as <- <-. by left.
    + cbn [ret] in Hrun. injection Hrun as <- <-. simpl.
      destruct Hsubmit as [[j ->]|(a & s2' & _ & _ & Hcancel)].
      * right. exists act, evs.
        destruct (iter_bump_fields j s2) as (G1 & _ & _ & _ & _ & _ & G7 & _).
        rewrite G1, G7. by split.
      * left. rewrite bool_decide_eq_false_2 in Hcancel.
        -- by destruct Hcancel as [Hnone _].
        -- subst s2. simpl. congruence.
  - (* an exception before the purchase: the handler cancels what is held *)
    destruct Hprefix as [k ->].
    destruct (iter_bump_fields k s) as (F1 & F2 & F3 & F4 & F5 & F6 & F7 & F8).
    rewrite bind_run in Hrun.
    destruct (current_activation s) as [a|] eqn:Hact.
    + destruct (_cancel_number_effect oracle (Nat.iter k bump s) a) as [Hret Heff];
        [by rewrite F1|].
      rewrite bool_decide_eq_false_2 in Heff by congruence.
      destruct (_cancel_number oracle (Nat.iter k bump s)) as [[[]|e'] s1]; [|done].
      cbn [ret] in Hrun. injection Hrun as <- <-. left. by destruct Heff.
    + assert (_cancel_number oracle (Nat.iter k bump s)
              = (Ret tt, Nat.iter k bump s)) as Hnone.
      { unfold _cancel_number. rewrite bind_run. cbn [gets]. by rewrite F1. }
      rewrite Hnone in Hrun. cbn [ret] in Hrun. injection Hrun as <- <-.
      left. by rewrite F1.
Qed.

End CycleFailure.

Lemma _try_verification_cycle_failure_witness :
  state (init None) <> COMPLETED
  /\ (_try_verification_cycle submit_timeout_oracle default_selected_countries (init None)).1
     = Ret false
  /\ exists act evs,
       current_activation
         (_try_verification_cycle submit_timeout_oracle default_selected_countries (init None)).2
       = Some act
       /\ log (_try_verification_cycle submit_timeout_oracle default_selected_countries
                 (init None)).2
          = log (init None) ++ evs
              ++ [EvBuy (ActivationInfo.country_code act)
                        (Some (ActivationInfo.activation_id act,
                               ActivationInfo.phone_number act))].
Proof.
  assert (state (init None) <> COMPLETED) as Hst by done.
  pose proof (_try_verification_cycle_failure submit_timeout_oracle default_selected_countries
                (init None) Hst) as Hpost.
  cbv zeta in Hpost.
  assert ((_try_verification_cycle submit_timeout_oracle default_selected_countries
             (init None)).1 = Ret false) as Hret by (vm_compute; reflexivity).
  rewrite Hret in Hpost.
  split; [exact Hst|]. split; [exact Hret|].
  destruct Hpost as [Hnone|Hheld]; [|exact Hheld].
  exfalso. vm_compute in Hnone. discriminate Hnone.
Defined.

